(** * Service composition and resilience core of charity-tracker

  A shallow embedding of the three TypeScript components that make up the
  runtime core of the application:

  - [FeatureFlags]: core/config/FeatureFlags.ts ([FeatureFlagsManager]);
  - [ServiceRegistry]: core/registry/ServiceRegistry.ts;
  - [ErrorBoundary]: components/boundaries/ModularErrorBoundary.tsx,
    together with the [ServiceError] class it converts faults to.

  JavaScript numbers that hold integers are [Z] or [nat]; [Date]s are
  millisecond time stamps in [Z]; a [Map] that is only looked up is a
  [gmap], a [Map] whose iteration order is observed is an association list
  in insertion order; an optional field is an [option].  Recursion that the
  source does not bound is given a recursion budget, and running out of it
  is a result of its own. *)

From Stdlib Require Import ZArith Lia Ascii String List.
From stdpp Require Import gmap strings list.

Local Open Scope string_scope.
Local Open Scope list_scope.

(** ** Feature flags *)

Module FeatureFlags.

(** [interface FeatureFlagConfig]. *)
Record FeatureFlagConfig := mkConfig {
  enabled : bool;
  rolloutPercentage : option Z;
  userSegments : option (list string);
  startDate : option Z;
  endDate : option Z;
  dependencies : option (list string);
  rollbackOnError : option bool;
  description : option string
}.

(** [Partial<FeatureFlagConfig>]: [None] is a key that is not present. *)
Record PartialConfig := mkPartial {
  p_enabled : option bool;
  p_rolloutPercentage : option Z;
  p_userSegments : option (list string);
  p_startDate : option Z;
  p_endDate : option Z;
  p_dependencies : option (list string);
  p_rollbackOnError : option bool;
  p_description : option string
}.

(** [interface UserContext].  [userId] is optional here although the
    interface declares it a string: [isEnabled] itself guards against a
    missing one with [this.userContext?.userId]. *)
Record UserContext := mkUser {
  userId : option string;
  isPaidUser : bool;
  isAdmin : bool;
  isDeveloper : bool;
  createdAt : Z;
  lastLogin : Z
}.

(** A change listener is known by its identity; what it does when called is
    outside the manager, so a call is recorded in [calls]. *)
Definition Listener := nat.

(** [class FeatureFlagsManager]: the four private fields, and the calls
    made to listeners so far, oldest first. *)
Record FeatureFlagsManager := mkManager {
  flags : gmap string FeatureFlagConfig;
  userContext : option UserContext;
  errorCounts : gmap string nat;
  listeners : gmap string (list Listener);
  calls : list (Listener * bool)
}.

(** The object literal [{ enabled: e, description: d }] and its variants. *)
Definition flag (e : bool) (d : string) : FeatureFlagConfig :=
  mkConfig e None None None None None None (Some d).
Definition flag_rollback (e : bool) (d : string) : FeatureFlagConfig :=
  mkConfig e None None None None None (Some true) (Some d).
Definition flag_segments (e : bool) (segs : list string) (d : string) : FeatureFlagConfig :=
  mkConfig e None (Some segs) None None None None (Some d).

(** [defaultFlags] of [initializeDefaultFlags], in source order. *)
Definition defaultFlags : list (string * FeatureFlagConfig) :=
  [ ("BASIC_AUTH", flag true "User authentication system");
    ("DONATION_TRACKING", flag true "Core donation tracking functionality");
    ("CHARITY_SEARCH", flag true "Charity search and selection");
    ("MONEY_DONATIONS", flag_rollback true "Cash/check donations");
    ("ITEMS_DONATIONS", flag_rollback true "Item donations with valuation");
    ("MILEAGE_DONATIONS", flag_rollback true "Mileage-based donations");
    ("STOCK_DONATIONS", flag_rollback true "Stock and securities donations");
    ("CRYPTO_DONATIONS", flag_rollback true "Cryptocurrency donations");
    ("STOCK_PRICING_API",
      mkConfig true None None None None (Some ["STOCK_DONATIONS"]) (Some true)
               (Some "Real-time stock price lookup"));
    ("CRYPTO_PRICING_API",
      mkConfig true None None None None (Some ["CRYPTO_DONATIONS"]) (Some true)
               (Some "Real-time crypto price lookup"));
    ("CHARITY_AUTOCOMPLETE",
      mkConfig true None None None None (Some ["CHARITY_SEARCH"]) (Some true)
               (Some "Type-ahead charity search"));
    ("ADVANCED_REPORTS", flag_segments true ["paid"; "admin"] "Detailed tax reports");
    ("FILE_UPLOADS", flag_segments true ["paid"; "admin"] "Receipt file uploads");
    ("DATA_EXPORT", flag_segments true ["paid"; "admin"] "CSV/PDF export");
    ("TAX_OPTIMIZATION_TOOLS", flag_segments true ["paid"; "admin"] "Tax planning tools");
    ("ADMIN_PANEL", flag_segments true ["admin"] "Administrative interface");
    ("USER_MANAGEMENT", flag_segments true ["admin"] "User account management");
    ("CHARITY_VERIFICATION", flag_segments true ["admin"] "Charity verification system");
    ("SYSTEM_MONITORING", flag_segments true ["admin"] "System health monitoring");
    ("PAYMENT_ENFORCEMENT", flag false "Enforce donation limits for free users");
    ("STRIPE_PAYMENTS", flag_rollback true "Stripe payment processing");
    ("LICENSE_UPGRADES",
      mkConfig true None None None None (Some ["STRIPE_PAYMENTS"; "PAYMENT_ENFORCEMENT"])
               (Some true) (Some "License upgrade flow"));
    ("NEW_DASHBOARD_UI",
      mkConfig false (Some 10%Z) None None None None (Some true)
               (Some "Redesigned dashboard interface"));
    ("AI_TAX_SUGGESTIONS",
      mkConfig false (Some 5%Z) None None None None (Some true)
               (Some "AI-powered tax optimization suggestions"));
    ("BULK_IMPORT",
      mkConfig false (Some 25%Z) (Some ["paid"; "admin"]) None None None None
               (Some "Bulk donation import from CSV"));
    ("MOBILE_APP_INTEGRATION",
      mkConfig false (Some 0%Z) None None None None None
               (Some "Mobile app connectivity"));
    ("DEVELOPER_TOOLS", flag_segments false ["developer"] "Development debugging tools");
    ("PERFORMANCE_MONITORING", flag true "Performance monitoring and metrics");
    ("ERROR_REPORTING", flag true "Error reporting and logging") ].

(** [flagName === 'BASIC_AUTH' || flagName === 'DONATION_TRACKING' ||
    flagName === 'CHARITY_SEARCH']. *)
Definition is_core (flagName : string) : bool :=
  String.eqb flagName "BASIC_AUTH"
  || String.eqb flagName "DONATION_TRACKING"
  || String.eqb flagName "CHARITY_SEARCH".

(** *** hashUserId *)

(** ECMAScript [ToInt32]: reduce modulo 2^32 into the signed range. *)
Definition ToInt32 (z : Z) : Z :=
  let m := (z mod 2 ^ 32)%Z in
  if (2 ^ 31 <=? m)%Z then (m - 2 ^ 32)%Z else m.

(** [a << n] and [a & b] on numbers. *)
Definition shl (a n : Z) : Z := ToInt32 (Z.shiftl (ToInt32 a) n).
Definition band (a b : Z) : Z := Z.land (ToInt32 a) (ToInt32 b).

(** [str.charCodeAt(i)]; a character of a model string is one code unit. *)
Definition charCodeAt (c : ascii) : Z := Z.of_N (N_of_ascii c).

(** The [for] loop of [hashUserId], from the current index to the end. *)
Fixpoint hash_loop (str : string) (hash : Z) : Z :=
  match str with
  | EmptyString => hash
  | String c rest =>
      let char := charCodeAt c in
      let hash := ((shl hash 5 - hash) + char)%Z in
      let hash := band hash hash in
      hash_loop rest hash
  end.

Definition hashUserId (userId flagName : string) : Z :=
  let str := userId +:+ "_" +:+ flagName in
  Z.abs (hash_loop str 0%Z).

(** *** isEnabled *)

(** The callback of [config.userSegments.some(...)]. *)
Definition segment_matches (ctx : UserContext) (segment : string) : bool :=
  if String.eqb segment "paid" then isPaidUser ctx
  else if String.eqb segment "admin" then isAdmin ctx
  else if String.eqb segment "developer" then isDeveloper ctx
  else false.

(** [for (const dep of config.dependencies) if (!this.isEnabled(dep))
    return false], over a recursive call [check]: [Some false] when a
    dependency resolves false, [None] when a call does not return. *)
Fixpoint all_enabled (check : string -> option bool) (deps : list string) : option bool :=
  match deps with
  | [] => Some true
  | dep :: rest =>
      match check dep with
      | None => None
      | Some false => Some false
      | Some true => all_enabled check rest
      end
  end.

(** [this.userContext?.userId] when truthy. *)
Definition truthy_userId (ctx : option UserContext) : option string :=
  match ctx with
  | Some c =>
      match userId c with
      | Some "" => None
      | Some s => Some s
      | None => None
      end
  | None => None
  end.

(** The rollout step, lines 249-261. *)
Definition rollout (m : FeatureFlagsManager) (flagName : string)
    (config : FeatureFlagConfig) : bool :=
  match rolloutPercentage config with
  | Some pct =>
      if (pct <? 100)%Z then
        match truthy_userId (userContext m) with
        | None => false
        | Some uid =>
            let hash := hashUserId uid flagName in
            let userPercentile := Z.rem hash 100 in
            (userPercentile <? pct)%Z
        end
      else true
  | None => true
  end.

(** The segment step, lines 229-247: [true] when the step lets the flag
    through. *)
Definition segments_ok (m : FeatureFlagsManager) (config : FeatureFlagConfig) : bool :=
  match userSegments config, userContext m with
  | Some segs, Some ctx => existsb (segment_matches ctx) segs
  | _, _ => true
  end.

(** The date step, lines 212-218; [now] is what [new Date()] reads. *)
Definition in_window (now : Z) (config : FeatureFlagConfig) : bool :=
  match startDate config with
  | Some s => negb (now <? s)%Z
  | None => true
  end
  && match endDate config with
     | Some e => negb (e <? now)%Z
     | None => true
     end.

(** [isEnabled(flagName)].  The source recurses on dependencies with no
    bound; [fuel] bounds the depth, and [None] is a call that does not
    return within it. *)
Fixpoint isEnabled (fuel : nat) (m : FeatureFlagsManager) (now : Z)
    (flagName : string) : option bool :=
  match fuel with
  | O => None
  | S fuel' =>
      match flags m !! flagName with
      | None => Some false
      | Some config =>
          if is_core flagName then Some true
          else if negb (enabled config) then Some false
          else if negb (in_window now config) then Some false
          else
            match all_enabled (isEnabled fuel' m now)
                    (default [] (dependencies config)) with
            | None => None
            | Some false => Some false
            | Some true =>
                if negb (segments_ok m config) then Some false
                else Some (rollout m flagName config)
            end
      end
  end.

(** [flagNames] of [getEnabledFlags]. *)
Definition flagNames : list string := map fst defaultFlags.

(** The [forEach] of [getEnabledFlags], filling [enabledFlags]. *)
Fixpoint getEnabledFlags_loop (fuel : nat) (m : FeatureFlagsManager) (now : Z)
    (names : list string) (enabledFlags : gmap string bool) : option (gmap string bool) :=
  match names with
  | [] => Some enabledFlags
  | flagName :: rest =>
      if is_core flagName then
        getEnabledFlags_loop fuel m now rest (<[flagName := true]> enabledFlags)
      else
        match isEnabled fuel m now flagName with
        | None => None
        | Some b => getEnabledFlags_loop fuel m now rest (<[flagName := b]> enabledFlags)
        end
  end.

Definition getEnabledFlags (fuel : nat) (m : FeatureFlagsManager) (now : Z)
    : option (gmap string bool) :=
  getEnabledFlags_loop fuel m now flagNames ∅.

(** *** Mutators *)

Definition override {A} (new old : option A) : option A :=
  match new with
  | Some x => Some x
  | None => old
  end.

(** [{ ...currentConfig, ...config }]. *)
Definition spread (currentConfig : FeatureFlagConfig) (config : PartialConfig)
    : FeatureFlagConfig :=
  {| enabled := default (enabled currentConfig) (p_enabled config);
     rolloutPercentage := override (p_rolloutPercentage config) (rolloutPercentage currentConfig);
     userSegments := override (p_userSegments config) (userSegments currentConfig);
     startDate := override (p_startDate config) (startDate currentConfig);
     endDate := override (p_endDate config) (endDate currentConfig);
     dependencies := override (p_dependencies config) (dependencies currentConfig);
     rollbackOnError := override (p_rollbackOnError config) (rollbackOnError currentConfig);
     description := override (p_description config) (description currentConfig) |}.

(** [{ enabled: false }] and [{ enabled }]. *)
Definition only_disabled : FeatureFlagConfig :=
  mkConfig false None None None None None None None.
Definition just_enabled (e : bool) : PartialConfig :=
  mkPartial (Some e) None None None None None None None.

Definition updateFlag (flagName : string) (config : PartialConfig)
    (m : FeatureFlagsManager) : FeatureFlagsManager :=
  let currentConfig := default only_disabled (flags m !! flagName) in
  let updatedConfig := spread currentConfig config in
  let listeners_ := default [] (listeners m !! flagName) in
  {| flags := <[flagName := updatedConfig]> (flags m);
     userContext := userContext m;
     errorCounts := errorCounts m;
     listeners := listeners m;
     calls := calls m ++ map (fun listener => (listener, enabled updatedConfig)) listeners_ |}.

(** [updateFlags(flags)]: [Object.entries(flags).forEach]. *)
Fixpoint updateFlags (entries : list (string * bool)) (m : FeatureFlagsManager)
    : FeatureFlagsManager :=
  match entries with
  | [] => m
  | (flagName, e) :: rest => updateFlags rest (updateFlag flagName (just_enabled e) m)
  end.

Definition setUserContext (context : UserContext) (m : FeatureFlagsManager)
    : FeatureFlagsManager :=
  {| flags := flags m; userContext := Some context; errorCounts := errorCounts m;
     listeners := listeners m; calls := calls m |}.

Definition set_errorCounts (f : gmap string nat -> gmap string nat)
    (m : FeatureFlagsManager) : FeatureFlagsManager :=
  {| flags := flags m; userContext := userContext m; errorCounts := f (errorCounts m);
     listeners := listeners m; calls := calls m |}.

Definition set_listeners (f : gmap string (list Listener) -> gmap string (list Listener))
    (m : FeatureFlagsManager) : FeatureFlagsManager :=
  {| flags := flags m; userContext := userContext m; errorCounts := errorCounts m;
     listeners := f (listeners m); calls := calls m |}.

(** [!config.rollbackOnError]. *)
Definition rollback_requested (config : FeatureFlagConfig) : bool :=
  default false (rollbackOnError config).

Definition reportError (flagName : string) (m : FeatureFlagsManager)
    : FeatureFlagsManager :=
  match flags m !! flagName with
  | None => m
  | Some config =>
      if negb (rollback_requested config) then m
      else
        let currentCount := default 0 (errorCounts m !! flagName) in
        let m := set_errorCounts (insert flagName (currentCount + 1)) m in
        if (10 <=? currentCount)%nat then
          let m := updateFlag flagName (just_enabled false) m in
          set_errorCounts (delete flagName) m
        else m
  end.

(** [onFlagChange(flagName, callback)]: the subscription ... *)
Definition onFlagChange (flagName : string) (callback : Listener)
    (m : FeatureFlagsManager) : FeatureFlagsManager :=
  set_listeners (fun ls => <[flagName := default [] (ls !! flagName) ++ [callback]]> ls) m.

(** ... and the function it returns: [indexOf] then [splice(index, 1)]. *)
Fixpoint remove_first (callback : Listener) (l : list Listener) : list Listener :=
  match l with
  | [] => []
  | x :: rest => if Nat.eqb x callback then rest else x :: remove_first callback rest
  end.

Definition unsubscribe (flagName : string) (callback : Listener)
    (m : FeatureFlagsManager) : FeatureFlagsManager :=
  match listeners m !! flagName with
  | Some l => set_listeners (insert flagName (remove_first callback l)) m
  | None => m
  end.

(** [initializeDefaultFlags] and the constructor. *)
Definition initializeDefaultFlags (m : FeatureFlagsManager) : FeatureFlagsManager :=
  {| flags := fold_left (fun fs kv => <[fst kv := snd kv]> fs) defaultFlags (flags m);
     userContext := userContext m; errorCounts := errorCounts m;
     listeners := listeners m; calls := calls m |}.

Definition new (initialFlags : option (list (string * bool))) : FeatureFlagsManager :=
  let m := initializeDefaultFlags (mkManager ∅ None ∅ ∅ []) in
  match initialFlags with
  | Some fs => updateFlags fs m
  | None => m
  end.




End FeatureFlags.

(** ** Structured errors (core/errors/ServiceError.ts) *)

Module Errors.

Inductive ErrorSeverity := low | medium | high | critical.

Inductive RecoveryStrategy :=
| retry | fallback | degrade | circuit_break | escalate | ignore | shutdown_strategy.

(** [class ServiceError].  [errorId] is built from the module, the time and
    a random suffix, so it is an input of the constructor here. *)
Record ServiceError := mkServiceError {
  message : string;
  code : string;
  severity : ErrorSeverity;
  recoverable : bool;
  moduleId : string;
  recovery : option RecoveryStrategy;
  errorId : string;
  retryCount : nat;
  context : gmap string string
}.

(** [new ServiceError(...)]: [retryCount = 0], [context = {}]. *)
Definition construct (message code : string) (severity : ErrorSeverity)
    (recoverable : bool) (moduleId : string) (recovery : option RecoveryStrategy)
    (errorId : string) : ServiceError :=
  mkServiceError message code severity recoverable moduleId recovery errorId 0 ∅.

Definition addContext (key value : string) (e : ServiceError) : ServiceError :=
  mkServiceError (message e) (code e) (severity e) (recoverable e) (moduleId e)
    (recovery e) (errorId e) (retryCount e) (<[key := value]> (context e)).

Definition incrementRetry (e : ServiceError) : ServiceError :=
  mkServiceError (message e) (code e) (severity e) (recoverable e) (moduleId e)
    (recovery e) (errorId e) (retryCount e + 1) (context e).

Definition is_retry (s : option RecoveryStrategy) : bool :=
  match s with
  | Some retry => true
  | _ => false
  end.

(** [shouldRetry(maxRetries = 3)]. *)
Definition shouldRetry (e : ServiceError) (maxRetries : option nat) : bool :=
  recoverable e && (retryCount e <? default 3 maxRetries)%nat && is_retry (recovery e).

(** *** toUserMessage *)

(** The object literal [userMessages], in source order. *)
Definition userMessages : list (string * string) :=
  [ ("AUTH_INVALID_CREDENTIALS", "Invalid email or password. Please try again.");
    ("AUTH_SESSION_EXPIRED", "Your session has expired. Please log in again.");
    ("AUTH_PERMISSION_DENIED", "You don't have permission to perform this action.");
    ("DONATION_LIMIT_EXCEEDED",
      "You've reached your donation limit. Upgrade to Pro for unlimited donations.");
    ("DONATION_INVALID_DATA", "Please check your donation information and try again.");
    ("DONATION_NOT_FOUND", "The requested donation could not be found.");
    ("NETWORK_UNAVAILABLE",
      "Unable to connect to our servers. Please check your internet connection.");
    ("API_RATE_LIMITED", "Too many requests. Please wait a moment and try again.");
    ("API_MAINTENANCE",
      "Our system is temporarily under maintenance. Please try again later.");
    ("PAYMENT_DECLINED", "Your payment was declined. Please check your payment details.");
    ("PAYMENT_PROCESSING_ERROR",
      "There was an issue processing your payment. Please try again.");
    ("FILE_TOO_LARGE", "The file is too large. Please choose a smaller file.");
    ("FILE_INVALID_TYPE", "This file type is not supported. Please use a different file.");
    ("SERVICE_UNAVAILABLE",
      "This feature is temporarily unavailable. Please try again later.");
    ("UNKNOWN_ERROR", "Something went wrong. Please try again.") ].

(** The property names every object literal inherits from
    [Object.prototype]: [userMessages[key]] finds them although the literal
    does not list them. *)
Definition object_prototype_keys : list string :=
  [ "constructor"; "__proto__"; "hasOwnProperty"; "isPrototypeOf";
    "propertyIsEnumerable"; "toLocaleString"; "toString"; "valueOf";
    "__defineGetter__"; "__defineSetter__"; "__lookupGetter__"; "__lookupSetter__" ].

Fixpoint own_property (key : string) (o : list (string * string)) : option string :=
  match o with
  | [] => None
  | (k, v) :: rest => if String.eqb k key then Some v else own_property key rest
  end.

(** What [userMessages[key]] evaluates to: a text of the literal, a member
    inherited from [Object.prototype] (a function or an object, not a text),
    or [undefined]. *)
Inductive Looked :=
| Text (s : string)
| Inherited (key : string)
| Undefined.

Definition property (key : string) (o : list (string * string)) : Looked :=
  match own_property key o with
  | Some v => Text v
  | None =>
      if existsb (String.eqb key) object_prototype_keys then Inherited key else Undefined
  end.

(** [a || b] on such values: the empty text and [undefined] are falsy. *)
Definition or_else (a b : Looked) : Looked :=
  match a with
  | Text "" => b
  | Undefined => b
  | _ => a
  end.

(** [toUserMessage()]. *)
Definition toUserMessage (e : ServiceError) : Looked :=
  or_else (property (code e) userMessages) (property "UNKNOWN_ERROR" userMessages).

(** *** createError and errorUtils *)

(** The factories of [createError].  [fresh] is the [errorId] of the new
    error.  The wrapped cause ([originalError]) is not a field of the model's
    [ServiceError], so the factories that take one take no argument for it. *)
Definition createError_auth (code message : string) (recoverable : option bool)
    (fresh : string) : ServiceError :=
  construct message code medium (default true recoverable) "AUTH_SERVICE" None fresh.

Definition createError_network (message : string) (fresh : string) : ServiceError :=
  construct message "NETWORK_UNAVAILABLE" medium true "NETWORK" (Some retry) fresh.

Definition createError_validation (message : string) (field : option string)
    (fresh : string) : ServiceError :=
  let error := construct message "VALIDATION_ERROR" low false "VALIDATION" None fresh in
  match field with
  | Some "" => error
  | Some f => addContext "field" f error
  | None => error
  end.

Definition createError_critical (message moduleId : string) (fresh : string)
    : ServiceError :=
  construct message "CRITICAL_ERROR" critical false moduleId (Some escalate) fresh.

(** [externalApi]; [upperName] is [apiName.toUpperCase()]. *)
Definition createError_externalApi (upperName message : string) (fresh : string)
    : ServiceError :=
  construct message (upperName +:+ "_API_ERROR") medium true "EXTERNAL_API"
            (Some circuit_break) fresh.

(** [Error | ServiceError]: what [instanceof ServiceError] tells apart. *)
Inductive AnyError :=
| IsServiceError (e : ServiceError)
| PlainError (message : string).

Definition errorUtils_isRecoverable (error : AnyError) : bool :=
  match error with
  | IsServiceError e => recoverable e
  | PlainError _ => false
  end.

Definition errorUtils_getSeverity (error : AnyError) : ErrorSeverity :=
  match error with
  | IsServiceError e => severity e
  | PlainError _ => medium
  end.

Definition errorUtils_shouldRetry (error : AnyError) (maxRetries : option nat) : bool :=
  match error with
  | IsServiceError e => shouldRetry e (Some (default 3 maxRetries))
  | PlainError _ => false
  end.

(** [toServiceError(error, moduleId, code = 'UNKNOWN_ERROR')]. *)
Definition errorUtils_toServiceError (error : AnyError) (moduleId : string)
    (code : option string) (fresh : string) : ServiceError :=
  match error with
  | IsServiceError e => e
  | PlainError msg =>
      construct msg (default "UNKNOWN_ERROR" code) medium true moduleId None fresh
  end.

End Errors.

(** ** Service registry *)

Module ServiceRegistry.

Import Errors.

(** [Record<string, any>]. *)
Definition Config := list (string * string).

(** What a service's [initialize] is called with: [createInstance] passes
    [{ ...dependencies, config }] (the resolved instances by token),
    [replace] passes the configuration itself. *)
Inductive InitArg :=
| WithDependencies (dependencies : gmap string nat) (config : option Config)
| ConfigOnly (config : option Config).

(** A service class, by what its constructor and the methods the registry
    calls do: [false] is a throw or a rejected promise, [isHealthy] is
    [None] when it rejects. *)
Record Implementation := mkImplementation {
  impl_name : string;
  constructs : bool;
  initializes : InitArg -> bool;
  isHealthy : option bool;
  shuts_down : bool
}.

(** An object made by [new]: its identity and its class. *)
Record Instance := mkInstance {
  inst_id : nat;
  inst_of : Implementation
}.

(** [interface ServiceRegistration]. *)
Record ServiceRegistration := mkRegistration {
  token : string;
  implementation : Implementation;
  instance : option Instance;
  dependencies : option (list string);
  config : option Config;
  singleton : bool;
  createdAt : Z;
  lastHealthCheck : option Z
}.

(** Calls that reach service objects, in the order they are made. *)
Inductive Event :=
| EvNew (impl : string) (result : option nat)
| EvInitialize (id : nat) (arg : InitArg) (ok : bool)
| EvIsHealthy (id : nat) (result : option bool)
| EvShutdown (id : nat) (ok : bool).

(** [class ServiceRegistry]: [services] in insertion order (a [Map] that is
    iterated), the two other fields, the number of objects constructed so
    far (the identity of the next one) and the calls made to services. *)
Record Registry := mkRegistry {
  services : list (string * ServiceRegistration);
  initializationOrder : list string;
  isShuttingDown : bool;
  allocated : nat;
  trace : list Event
}.

Definition empty : Registry := mkRegistry [] [] false 0 [].

(** What is thrown: a [ServiceError] of the registry (its code, severity
    and recoverability), or whatever a service threw. *)
Inductive Exn :=
| RegistryError (code : string) (severity : ErrorSeverity) (recoverable : bool)
| ServiceThrew (message : string).

(** The result of running a registry method: the value or the exception,
    with the registry after it; [Unfinished] when the recursion budget ran
    out. *)
Inductive Outcome (A : Type) :=
| Returned (a : A) (r : Registry)
| Threw (e : Exn) (r : Registry)
| Unfinished.
Arguments Returned {A} a r.
Arguments Threw {A} e r.
Arguments Unfinished {A}.

Definition M (A : Type) := Registry -> Outcome A.

Definition ret {A} (a : A) : M A := fun r => Returned a r.
Definition throw {A} (e : Exn) : M A := fun r => Threw e r.
Definition bind {A B} (c : M A) (k : A -> M B) : M B :=
  fun r =>
    match c r with
    | Returned a r' => k a r'
    | Threw e r' => Threw e r'
    | Unfinished => Unfinished
    end.
(** [try { c } catch (error) { h error }]. *)
Definition try_catch {A} (c : M A) (h : Exn -> M A) : M A :=
  fun r =>
    match c r with
    | Returned a r' => Returned a r'
    | Threw e r' => h e r'
    | Unfinished => Unfinished
    end.
Definition read {A} (f : Registry -> A) : M A := fun r => Returned (f r) r.
Definition modify (f : Registry -> Registry) : M unit := fun r => Returned tt (f r).

Notation "x <- c ;; k" := (bind c (fun x => k))
  (at level 100, c at next level, right associativity).
Notation "c ;;; k" := (bind c (fun _ => k))
  (at level 100, right associativity).

(** *** The [services] map *)

Fixpoint lookup_service (t : string) (l : list (string * ServiceRegistration))
    : option ServiceRegistration :=
  match l with
  | [] => None
  | (k, reg) :: rest => if String.eqb k t then Some reg else lookup_service t rest
  end.

(** Assignment to fields of the registration object stored under [t]. *)
Fixpoint update_service (t : string) (f : ServiceRegistration -> ServiceRegistration)
    (l : list (string * ServiceRegistration)) : list (string * ServiceRegistration) :=
  match l with
  | [] => []
  | (k, reg) :: rest =>
      if String.eqb k t then (k, f reg) :: rest else (k, reg) :: update_service t f rest
  end.

Definition with_services (f : list (string * ServiceRegistration) ->
                              list (string * ServiceRegistration)) (r : Registry) : Registry :=
  mkRegistry (f (services r)) (initializationOrder r) (isShuttingDown r)
             (allocated r) (trace r).

Definition emit (e : Event) (r : Registry) : Registry :=
  mkRegistry (services r) (initializationOrder r) (isShuttingDown r)
             (allocated r) (trace r ++ [e]).

Definition set_instance (i : option Instance) (reg : ServiceRegistration)
    : ServiceRegistration :=
  mkRegistration (token reg) (implementation reg) i (dependencies reg) (config reg)
                 (singleton reg) (createdAt reg) (lastHealthCheck reg).

(** *** Calls into services *)

Definition construct (impl : Implementation) : M Instance :=
  fun r =>
    if constructs impl then
      let i := mkInstance (allocated r) impl in
      Returned i
        (emit (EvNew (impl_name impl) (Some (allocated r)))
           (mkRegistry (services r) (initializationOrder r) (isShuttingDown r)
                       (S (allocated r)) (trace r)))
    else Threw (ServiceThrew "constructor") (emit (EvNew (impl_name impl) None) r).

Definition call_initialize (i : Instance) (arg : InitArg) : M unit :=
  fun r =>
    let ok := initializes (inst_of i) arg in
    let r := emit (EvInitialize (inst_id i) arg ok) r in
    if ok then Returned tt r else Threw (ServiceThrew "initialize") r.

Definition call_isHealthy (i : Instance) : M bool :=
  fun r =>
    let res := isHealthy (inst_of i) in
    let r := emit (EvIsHealthy (inst_id i) res) r in
    match res with
    | Some b => Returned b r
    | None => Threw (ServiceThrew "isHealthy") r
    end.

Definition call_shutdown (i : Instance) : M unit :=
  fun r =>
    let ok := shuts_down (inst_of i) in
    let r := emit (EvShutdown (inst_id i) ok) r in
    if ok then Returned tt r else Threw (ServiceThrew "shutdown") r.

(** *** register *)

Record Options := mkOptions {
  opt_dependencies : option (list string);
  opt_config : option Config;
  opt_singleton : option bool
}.

Definition register (t : string) (impl : Implementation) (options : Options) (now : Z)
    : M unit :=
  fun r =>
    match lookup_service t (services r) with
    | Some _ => Threw (RegistryError "SERVICE_ALREADY_REGISTERED" medium false) r
    | None =>
        let registration :=
          mkRegistration t impl None
            (Some (default [] (opt_dependencies options)))
            (Some (default [] (opt_config options)))
            (default true (opt_singleton options))
            now None in
        Returned tt (with_services (fun l => l ++ [(t, registration)]) r)
    end.

(** *** get and createInstance *)

(** [for (const depToken of ...) dependencies[depToken] = await
    this.get(depToken)]. *)
Fixpoint resolve (get_ : string -> M Instance) (deps : list string)
    (acc : gmap string nat) : M (gmap string nat) :=
  match deps with
  | [] => ret acc
  | depToken :: rest =>
      i <- get_ depToken ;;
      resolve get_ rest (<[depToken := inst_id i]> acc)
  end.

(** [createInstance(registration)], over the recursive [get].  Resolving
    the dependencies assigns to [instance] fields only, so the other fields
    of [registration] read afterwards are those it had when it was looked
    up. *)
Definition createInstance (get_ : string -> M Instance)
    (registration : ServiceRegistration) : M Instance :=
  try_catch
    (deps <- resolve get_ (default [] (dependencies registration)) ∅ ;;
     i <- construct (implementation registration) ;;
     call_initialize i (WithDependencies deps (config registration)) ;;;
     ret i)
    (fun _ => throw (RegistryError "SERVICE_CREATION_FAILED" high true)).

(** [get(token)].  [get] and [createInstance] call each other with no
    bound in the source; [fuel] bounds the nesting of [get]. *)
Fixpoint get (fuel : nat) (t : string) : M Instance :=
  match fuel with
  | O => fun _ => Unfinished
  | S fuel' =>
      fun r =>
        match lookup_service t (services r) with
        | None => Threw (RegistryError "SERVICE_NOT_FOUND" high false) r
        | Some registration =>
            match singleton registration, instance registration with
            | true, Some i => Returned i r
            | _, _ =>
                (i <- createInstance (get fuel') registration ;;
                 (if singleton registration
                  then modify (with_services (update_service t (set_instance (Some i))))
                  else ret tt) ;;;
                 ret i) r
            end
        end
  end.

(** *** resolveDependencyOrder *)

(** The three locals of [resolveDependencyOrder]. *)
Record Walk := mkWalk {
  visited : gset string;
  visiting : gset string;
  order : list string
}.

Inductive WalkResult :=
| Walked (w : Walk)
| Circular (t : string)
| WalkUnfinished.

(** [for (const dep of ...) visit(dep)]. *)
Fixpoint visit_all (visit_ : string -> Walk -> WalkResult) (deps : list string)
    (w : Walk) : WalkResult :=
  match deps with
  | [] => Walked w
  | dep :: rest =>
      match visit_ dep w with
      | Walked w' => visit_all visit_ rest w'
      | other => other
      end
  end.

Definition deps_of (l : list (string * ServiceRegistration)) (t : string) : list string :=
  match lookup_service t l with
  | Some registration => default [] (dependencies registration)
  | None => []
  end.

(** The closure [visit]; [fuel] bounds its nesting. *)
Fixpoint visit (fuel : nat) (l : list (string * ServiceRegistration)) (t : string)
    (w : Walk) : WalkResult :=
  match fuel with
  | O => WalkUnfinished
  | S fuel' =>
      if bool_decide (t ∈ visited w) then Walked w
      else if bool_decide (t ∈ visiting w) then Circular t
      else
        let w := mkWalk (visited w) ({[t]} ∪ visiting w) (order w) in
        match visit_all (visit fuel' l) (deps_of l t) w with
        | Walked w =>
            Walked (mkWalk ({[t]} ∪ visited w) (visiting w ∖ {[t]}) (order w ++ [t]))
        | other => other
        end
  end.

Definition resolveDependencyOrder (fuel : nat) (l : list (string * ServiceRegistration))
    : WalkResult :=
  visit_all (visit fuel l) (map fst l) (mkWalk ∅ ∅ []).

(** *** initializeAll *)

Definition isCriticalService (t : string) : bool :=
  existsb (String.eqb t) ["AUTH_SERVICE"; "CONFIG_SERVICE"; "ERROR_HANDLER"].

Fixpoint initialize_in_order (fuel : nat) (tokens : list string) : M unit :=
  match tokens with
  | [] => ret tt
  | t :: rest =>
      try_catch (get fuel t ;;; ret tt)
        (fun _ =>
           if isCriticalService t
           then throw (RegistryError "CRITICAL_SERVICE_INIT_FAILED" critical false)
           else ret tt) ;;;
      initialize_in_order fuel rest
  end.

Definition set_initializationOrder (o : list string) (r : Registry) : Registry :=
  mkRegistry (services r) o (isShuttingDown r) (allocated r) (trace r).

Definition initializeAll (fuel : nat) : M unit :=
  fun r =>
    match resolveDependencyOrder fuel (services r) with
    | WalkUnfinished => Unfinished
    | Circular _ => Threw (RegistryError "CIRCULAR_DEPENDENCY" critical false) r
    | Walked w =>
        (modify (set_initializationOrder (order w)) ;;;
         initialize_in_order fuel (order w)) r
    end.

(** *** replace and notifyDependents *)

(** [registration.dependencies?.includes(token)]. *)
Definition depends_on (t : string) (registration : ServiceRegistration) : bool :=
  existsb (String.eqb t) (default [] (dependencies registration)).

Definition dependents_of (t : string) (l : list (string * ServiceRegistration))
    : list string :=
  map fst (filter (fun kv => depends_on t (snd kv) = true) l).

Fixpoint reinitialize (fuel : nat) (dependents : list string) : M unit :=
  match dependents with
  | [] => ret tt
  | dependent :: rest =>
      try_catch
        (registration <- read (fun r => lookup_service dependent (services r)) ;;
         match registration ≫= instance with
         | Some i =>
             call_shutdown i ;;;
             modify (with_services (update_service dependent (set_instance None))) ;;;
             get fuel dependent ;;;
             ret tt
         | None => ret tt
         end)
        (fun _ => ret tt) ;;;
      reinitialize fuel rest
  end.

Definition notifyDependents (fuel : nat) (t : string) : M unit :=
  dependents <- read (fun r => dependents_of t (services r)) ;;
  reinitialize fuel dependents.

(** The three assignments of [replace] to the registration.  Up to them
    [replace] has only called into the candidate and the old instance, so
    [registration] as looked up is still what the map holds. *)
Definition swap (newImplementation : Implementation) (cfg : option Config)
    (reg : ServiceRegistration) : ServiceRegistration :=
  mkRegistration (token reg) newImplementation None (dependencies reg)
    (match cfg with Some c => Some c | None => config reg end)
    (singleton reg) (createdAt reg) (lastHealthCheck reg).

Definition replace (fuel : nat) (t : string) (newImplementation : Implementation)
    (cfg : option Config) : M unit :=
  fun r =>
    match lookup_service t (services r) with
    | None => Threw (RegistryError "SERVICE_NOT_FOUND" high false) r
    | Some registration =>
        try_catch
          (testInstance <- construct newImplementation ;;
           call_initialize testInstance
             (ConfigOnly (match cfg with
                          | Some c => Some c
                          | None => config registration
                          end)) ;;;
           healthy <- call_isHealthy testInstance ;;
           if negb healthy
           then throw (ServiceThrew "New implementation failed health check")
           else
             match instance registration with
             | Some old => call_shutdown old
             | None => ret tt
             end ;;;
             modify (with_services (update_service t (swap newImplementation cfg))) ;;;
             notifyDependents fuel t)
          (fun _ => throw (RegistryError "SERVICE_REPLACEMENT_FAILED" critical false))
          r
    end.

(** *** shutdown *)

Fixpoint shutdown_in_order (tokens : list string) : M unit :=
  match tokens with
  | [] => ret tt
  | t :: rest =>
      registration <- read (fun r => lookup_service t (services r)) ;;
      match registration ≫= instance with
      | Some i => try_catch (call_shutdown i) (fun _ => ret tt)
      | None => ret tt
      end ;;;
      shutdown_in_order rest
  end.

Definition set_isShuttingDown (b : bool) (r : Registry) : Registry :=
  mkRegistry (services r) (initializationOrder r) b (allocated r) (trace r).

Definition shutdown : M unit :=
  fun r =>
    if isShuttingDown r then Returned tt r
    else
      (modify (set_isShuttingDown true) ;;;
       shutdownOrder <- read (fun r => rev (initializationOrder r)) ;;
       shutdown_in_order shutdownOrder) r.

Definition listServices (r : Registry) : list string := map fst (services r).

(** The registry a method leaves behind, however it ends. *)
Definition after {A} (c : M A) (r : Registry) : Registry :=
  match c r with
  | Returned _ r' => r'
  | Threw _ r' => r'
  | Unfinished => r
  end.

(** *** healthCheck and getServiceInfo *)

(** [interface ServiceHealthStatus]; of [details] only [errors] is kept. *)
Record ServiceHealthStatus := mkHealthStatus {
  status_isHealthy : bool;
  status_lastChecked : Z;
  checkDuration : Z;
  uptime : Z;
  status : string;
  details_errors : option (list string)
}.

(** [interface ServiceHealthSummary]; [summary_services] holds the entries of
    the [services] record, one per token. *)
Record ServiceHealthSummary := mkSummary {
  summary_isHealthy : bool;
  totalServices : nat;
  healthyServices : nat;
  unhealthyServices : nat;
  summary_services : list (string * ServiceHealthStatus);
  summary_lastChecked : Z
}.

Definition set_lastHealthCheck (now : Z) (reg : ServiceRegistration) : ServiceRegistration :=
  mkRegistration (token reg) (implementation reg) (instance reg) (dependencies reg)
                 (config reg) (singleton reg) (createdAt reg) (Some now).

(** [summary.services[token] = status]. *)
Fixpoint assign (t : string) (st : ServiceHealthStatus)
    (o : list (string * ServiceHealthStatus)) : list (string * ServiceHealthStatus) :=
  match o with
  | [] => [(t, st)]
  | (k, v) :: rest => if String.eqb k t then (k, st) :: rest else (k, v) :: assign t st rest
  end.

(** The body of the loop of [healthCheck] for one registration with an
    instance.  [probe] is what the instance's [getHealthStatus()] does: a
    status, or the message of the error it rejects with.  The probe itself is
    not recorded in the trace. *)
Definition check_one (probe : Instance -> ServiceHealthStatus + string) (now : Z)
    (t : string) (i : Instance) (summary : ServiceHealthSummary) (r : Registry)
    : ServiceHealthSummary * Registry :=
  match probe i with
  | inl healthStatus =>
      let summary :=
        if status_isHealthy healthStatus then
          mkSummary (summary_isHealthy summary) (totalServices summary)
                    (healthyServices summary + 1) (unhealthyServices summary)
                    (assign t healthStatus (summary_services summary))
                    (summary_lastChecked summary)
        else
          mkSummary (if isCriticalService t then false else summary_isHealthy summary)
                    (totalServices summary)
                    (healthyServices summary) (unhealthyServices summary + 1)
                    (assign t healthStatus (summary_services summary))
                    (summary_lastChecked summary) in
      (summary, with_services (update_service t (set_lastHealthCheck now)) r)
  | inr message =>
      (mkSummary false (totalServices summary)
                 (healthyServices summary) (unhealthyServices summary + 1)
                 (assign t (mkHealthStatus false now 0 0 "unhealthy" (Some [message]))
                         (summary_services summary))
                 (summary_lastChecked summary),
       r)
  end.

(** [for (const [token, registration] of this.services.entries())].  The
    loop goes through the entries as they were when it started; assigning
    [lastHealthCheck] changes no other field. *)
Fixpoint check_each (probe : Instance -> ServiceHealthStatus + string) (now : Z)
    (entries : list (string * ServiceRegistration)) (summary : ServiceHealthSummary)
    (r : Registry) : ServiceHealthSummary * Registry :=
  match entries with
  | [] => (summary, r)
  | (t, registration) :: rest =>
      match instance registration with
      | None => check_each probe now rest summary r
      | Some i =>
          let '(summary, r) := check_one probe now t i summary r in
          check_each probe now rest summary r
      end
  end.

Definition healthCheck (probe : Instance -> ServiceHealthStatus + string) (now : Z)
    : M ServiceHealthSummary :=
  fun r =>
    let summary := mkSummary true (length (services r)) 0 0 [] now in
    let '(summary, r) := check_each probe now (services r) summary r in
    Returned summary r.

(** [getServiceInfo(token)]. *)
Definition getServiceInfo (t : string) (r : Registry) : option ServiceRegistration :=
  lookup_service t (services r).

End ServiceRegistry.

(** ** Module fault isolator (ModularErrorBoundary.tsx) *)

Module ErrorBoundary.

Import Errors.

(** [interface ErrorBoundaryProps]; [children] is left out, the two
    function props are known by whether they are given. *)
Record Props := mkProps {
  props_moduleId : string;
  fallbackComponent : bool;
  onError : bool;
  enableRecovery : option bool;
  maxRetries : option nat;
  isolateErrors : option bool
}.

(** [interface ErrorBoundaryState]. *)
Record ErrorBoundaryState := mkState {
  hasError : bool;
  error : option ServiceError;
  errorId : option string;
  retryCount : nat;
  isRecovering : bool;
  fallbackMode : bool;
  lastErrorTime : Z
}.

Inductive TimerKind := RecoveryTimer | CooldownTimer.

(** A [setTimeout] that has not fired yet. *)
Record Timer := mkTimer {
  timer_id : nat;
  kind : TimerKind;
  delay : Z
}.

(** The component: props, state, the two timer handles, the timeouts that
    are still to fire, the number of timeouts created, the calls made to
    [props.onError], and the global [featureFlags] it reports to. *)
Record Boundary := mkBoundary {
  props : Props;
  state : ErrorBoundaryState;
  errorRecoveryTimer : option nat;
  errorCooldownTimer : option nat;
  pending : list Timer;
  timers_created : nat;
  onError_calls : list ServiceError;
  featureFlags : FeatureFlags.FeatureFlagsManager
}.

(** The constructor. *)
Definition new (p : Props) (ff : FeatureFlags.FeatureFlagsManager) : Boundary :=
  mkBoundary p (mkState false None None 0 false false 0%Z) None None [] 0 [] ff.


(** What a child can throw, and React's [ErrorInfo]. *)
Inductive Fault :=
| ThrownServiceError (e : ServiceError)
| ThrownError (message : string).

Record ErrorInfo := mkErrorInfo { componentStack : string }.


(** [reportError]: the only effect outside the console is on
    [featureFlags]. *)
Definition reportError (e : ServiceError) (b : Boundary) : Boundary :=
  mkBoundary (props b) (state b) (errorRecoveryTimer b) (errorCooldownTimer b)
             (pending b) (timers_created b) (onError_calls b)
             (FeatureFlags.reportError (props_moduleId (props b)) (featureFlags b)).


















(** *** The isolator as a state machine *)

Inductive Event :=
| Caught (fault : Fault) (errorInfo : ErrorInfo) (now : Z) (fresh : string)
| TimerFires (id : nat)
| ManualReset.


Definition remove_timer (id : nat) (b : Boundary) : Boundary :=
  mkBoundary (props b) (state b) (errorRecoveryTimer b) (errorCooldownTimer b)
             (filter (fun t => timer_id t ≠ id) (pending b)) (timers_created b)
             (onError_calls b) (featureFlags b).







(** The recovery timeouts that are still to fire. *)
Definition is_recovery_timer (t : Timer) : bool :=
  match kind t with
  | RecoveryTimer => true
  | CooldownTimer => false
  end.

Definition recovery_pending (b : Boundary) : list Timer :=
  filter (fun t => is_recovery_timer t = true) (pending b).


End ErrorBoundary.

(** ** Concrete managers, registries and isolators used below *)

Module FlagExamples.

Import FeatureFlags.

(** [updateFlag('BASIC_AUTH', { dependencies: ['PAYMENT_ENFORCEMENT'] })] on a
    fresh manager. *)
Definition core_with_dependency : FeatureFlagsManager :=
  updateFlag "BASIC_AUTH"
    (mkPartial None None None None None (Some ["PAYMENT_ENFORCEMENT"]) None None)
    (new None).

(** [updateFlag('CHARITY_SEARCH', { enabled: false })] on a fresh manager. *)
Definition core_switched_off : FeatureFlagsManager :=
  updateFlag "CHARITY_SEARCH" (just_enabled false) (new None).



(** A flag half rolled out, with and without an end date. *)
Definition half_rollout (e : option Z) : FeatureFlagsManager :=
  updateFlag "NEW_DASHBOARD_UI"
    (mkPartial (Some true) (Some 50%Z) None None e None None None) (new None).

(** The polynomial string hash with multiplier 31, by Horner's rule over the
    integers: the hash [hashUserId] computes in 32-bit arithmetic. *)
Fixpoint horner31 (str : string) (h : Z) : Z :=
  match str with
  | EmptyString => h
  | String c rest => horner31 rest (31 * h + charCodeAt c)%Z
  end.

(** [{ rolloutPercentage: pct }]. *)
Definition just_rollout (pct : Z) : PartialConfig :=
  mkPartial None (Some pct) None None None None None None.

(** [{}]. *)
Definition no_keys : PartialConfig :=
  mkPartial None None None None None None None None.



(** The listener array of a flag, as [updateFlag] reads it. *)
Definition listeners_of (flagName : string) (m : FeatureFlagsManager) : list Listener :=
  default [] (listeners m !! flagName).

(** The value [getEnabledFlags] stores under a name of its list. *)
Definition listed_value (fuel : nat) (m : FeatureFlagsManager) (now : Z)
    (flagName : string) : option bool :=
  if is_core flagName then Some true else isEnabled fuel m now flagName.

(** [{ userSegments: segs }]. *)
Definition just_segments (segs : list string) : PartialConfig :=
  mkPartial None None (Some segs) None None None None None.

(** [isEnabled(flagName)] returns within no budget (the clock reading 0). *)
Definition forall_fuel_none (m : FeatureFlagsManager) (flagName : string) : Prop :=
  forall fuel, isEnabled fuel m 0%Z flagName = None.

Definition anonymous : UserContext := mkUser None false false false 0 0.
Definition user_42 : UserContext := mkUser (Some "user-42") false false false 0 0.

End FlagExamples.

Module RegistryExamples.

Import ServiceRegistry.

(** A service class whose constructor and methods all succeed, and one that
    reports itself unhealthy. *)
Definition sound (name : string) : Implementation :=
  mkImplementation name true (fun _ => true) (Some true) true.
Definition unhealthy (name : string) : Implementation :=
  mkImplementation name true (fun _ => true) (Some false) true.

Definition depending_on (deps : list string) : Options :=
  mkOptions (Some deps) None None.

(** [register('A', ImplA, { dependencies: ['B'] })] then
    [register('B', ImplB, { dependencies: ['A'] })]. *)
Definition cyclic : Registry :=
  after (register "B" (sound "ImplB") (depending_on ["A"]) 0)
    (after (register "A" (sound "ImplA") (depending_on ["B"]) 0) empty).

(** The three registrations [A], [B -> A], [C -> B] as calls of
    [register]. *)
Definition register_A (implA : Implementation) : M unit :=
  register "A" implA (depending_on []) 0.
Definition register_B (implB : Implementation) : M unit :=
  register "B" implB (depending_on ["A"]) 0.
Definition register_C (implC : Implementation) : M unit :=
  register "C" implC (depending_on ["B"]) 0.

(** The registry after a list of calls, one after the other. *)
Definition after_all (cs : list (M unit)) (r : Registry) : Registry :=
  fold_left (fun r c => after c r) cs r.

(** [AUTH] registered and resolved once. *)
Definition with_live_auth : Registry :=
  after (get 1 "AUTH")
    (after (register "AUTH" (sound "OldAuth") (depending_on []) 0) empty).

(** [d] is a dependency of the registration stored under [t]. *)
Definition depends (l : list (string * ServiceRegistration)) (t d : string) : Prop :=
  d ∈ deps_of l t.

(** The tokens a registry knows of: the registered ones and those named as
    dependencies. *)
Definition tokens_of (l : list (string * ServiceRegistration)) : gset string :=
  list_to_set (map fst l)
  ∪ ⋃ (map (fun t => list_to_set (deps_of l t)) (map fst l)).

(** The order lists every token once, and each after its dependencies. *)
Definition topological (l : list (string * ServiceRegistration)) (o : list string) : Prop :=
  NoDup o
  /\ forall i t, o !! i = Some t ->
                 forall d, depends l t d -> exists j, j < i /\ o !! j = Some d.

(** The order a walk ended with, if it did. *)
Definition order_of (res : WalkResult) : option (list string) :=
  match res with
  | Walked w => Some (order w)
  | _ => None
  end.

(** The place of a token in an order (0 when it is not there). *)
Fixpoint index_of (t : string) (o : list string) : nat :=
  match o with
  | [] => 0
  | x :: rest => if String.eqb x t then 0 else S (index_of t rest)
  end.

(** The invariant of the walk: [visited] is what [order] lists, [order] is
    topological, nothing visited is being visited, and only known tokens
    are listed. *)
Definition walk_sound (l : list (string * ServiceRegistration)) (w : Walk) : Prop :=
  (forall t, t ∈ visited w <-> t ∈ order w)
  /\ topological l (order w)
  /\ visited w ## visiting w
  /\ (forall t, t ∈ order w -> t ∈ tokens_of l).

(** The registrations are as they were, up to their [instance] fields. *)
Definition registrations_kept (r r' : Registry) : Prop :=
  forall t, set_instance None <$> lookup_service t (services r')
            = set_instance None <$> lookup_service t (services r).

(** An entry of [services] whose instance answers [getHealthStatus] with a
    healthy status; one that has an instance; and one that does not make the
    registry unhealthy (no instance, a healthy status, or an unhealthy
    status of a service that is not critical). *)
Definition healthy_entry (probe : Instance -> ServiceHealthStatus + string)
    (kv : string * ServiceRegistration) : bool :=
  match instance (snd kv) with
  | Some i => match probe i with inl st => status_isHealthy st | inr _ => false end
  | None => false
  end.

Definition live_entry (kv : string * ServiceRegistration) : bool :=
  match instance (snd kv) with
  | Some _ => true
  | None => false
  end.

Definition tolerated_entry (probe : Instance -> ServiceHealthStatus + string)
    (kv : string * ServiceRegistration) : bool :=
  match instance (snd kv) with
  | Some i =>
      match probe i with
      | inl st => status_isHealthy st || negb (isCriticalService (fst kv))
      | inr _ => false
      end
  | None => true
  end.

Definition count (f : string * ServiceRegistration -> bool)
    (l : list (string * ServiceRegistration)) : nat :=
  length (List.filter f l).

(** The token [t] is registered with the implementation [impl], and the
    instance stored for it, if any, is an object of that class. *)
Definition serves_with (t : string) (impl : Implementation) (r : Registry) : Prop :=
  exists registration,
    lookup_service t (services r) = Some registration
    /\ implementation registration = impl
    /\ forall i, instance registration = Some i -> inst_of i = impl.

(** The calls made to services so far are still the first ones made. *)
Definition trace_grows (r r' : Registry) : Prop :=
  exists rest, trace r' = trace r ++ rest.

(** No instance is stored for a registration that is not a singleton. *)
Definition non_singletons_unstored (r : Registry) : Prop :=
  forall t registration,
    lookup_service t (services r) = Some registration ->
    singleton registration = false -> instance registration = None.

(** Objects are numbered as they are constructed. *)
Definition allocation_grows (r r' : Registry) : Prop := allocated r <= allocated r'.

End RegistryExamples.

Module BoundaryExamples.

Import Errors ErrorBoundary.











End BoundaryExamples.

(** * Properties of the feature flag evaluator *)

Section FlagProperties.

Import FeatureFlags FlagExamples.

(** One unfolding of [isEnabled]. *)
Lemma isEnabled_S (fuel : nat) (m : FeatureFlagsManager) (now : Z) (flagName : string) :
  isEnabled (S fuel) m now flagName =
    match flags m !! flagName with
    | None => Some false
    | Some config =>
        if is_core flagName then Some true
        else if negb (enabled config) then Some false
        else if negb (in_window now config) then Some false
        else
          match all_enabled (isEnabled fuel m now) (default [] (dependencies config)) with
          | None => None
          | Some false => Some false
          | Some true =>
              if negb (segments_ok m config) then Some false
              else Some (rollout m flagName config)
          end
    end.
Proof. reflexivity. Qed.

(** The dependency loop answers [true] exactly when every dependency
    does. *)
Lemma all_enabled_true (check : string -> option bool) (deps : list string) :
  all_enabled check deps = Some true <-> Forall (fun d => check d = Some true) deps.
Proof.
  induction deps as [|d deps IH]; simpl.
  - split; [constructor | reflexivity].
  - destruct (check d) as [[|]|] eqn:E.
    + rewrite IH. split.
      * intros H. constructor; assumption.
      * intros H. inversion H; assumption.
    + split; [discriminate | intros H; inversion H; congruence].
    + split; [discriminate | intros H; inversion H; congruence].
Qed.

(** A larger budget does not change an answer already given. *)
Lemma all_enabled_mono (c1 c2 : string -> option bool) (deps : list string) (b : bool) :
  (forall d r, c1 d = Some r -> c2 d = Some r) ->
  all_enabled c1 deps = Some b -> all_enabled c2 deps = Some b.
Proof.
  intros Hc. induction deps as [|d deps IH]; simpl; [tauto|].
  destruct (c1 d) as [[|]|] eqn:E; try discriminate.
  - rewrite (Hc _ _ E). exact IH.
  - rewrite (Hc _ _ E). tauto.
Qed.

Lemma isEnabled_mono_S (fuel : nat) (m : FeatureFlagsManager) (now : Z) :
  forall flagName b,
    isEnabled fuel m now flagName = Some b -> isEnabled (S fuel) m now flagName = Some b.
Proof.
  induction fuel as [|fuel IH]; intros flagName b H; [discriminate|].
  rewrite isEnabled_S in H. rewrite isEnabled_S.
  destruct (flags m !! flagName) as [config|]; [|exact H].
  destruct (is_core flagName); [exact H|].
  destruct (negb (enabled config)); [exact H|].
  destruct (negb (in_window now config)); [exact H|].
  destruct (all_enabled (isEnabled fuel m now) (default [] (dependencies config)))
    as [r|] eqn:E; [|discriminate].
  rewrite (all_enabled_mono _ (isEnabled (S fuel) m now) _ _ IH E). exact H.
Qed.



(** [isEnabled] returns whenever the dependencies of the flags are ranked:
    a budget above the rank of the flag is enough. *)
Lemma isEnabled_total (rank : string -> nat) (m : FeatureFlagsManager) (now : Z) :
  (forall k cfg d, flags m !! k = Some cfg -> d ∈ default [] (dependencies cfg) ->
                   rank d < rank k) ->
  forall fuel flagName, rank flagName < fuel -> is_Some (isEnabled fuel m now flagName).
Proof.
  intros Hrank. induction fuel as [|fuel IH]; intros flagName Hlt; [lia|].
  rewrite isEnabled_S.
  destruct (flags m !! flagName) as [config|] eqn:Hcfg; [|eauto].
  destruct (is_core flagName); [eauto|].
  destruct (negb (enabled config)); [eauto|].
  destruct (negb (in_window now config)); [eauto|].
  assert (Hdeps : is_Some (all_enabled (isEnabled fuel m now)
                             (default [] (dependencies config)))).
  { assert (Hall : forall d, d ∈ default [] (dependencies config) -> rank d < fuel).
    { intros d Hd. specialize (Hrank _ _ _ Hcfg Hd). lia. }
    induction (default [] (dependencies config)) as [|d ds IHds]; simpl; [eauto|].
    destruct (IH d) as [[|] Hd]; [apply Hall; left | | ]; rewrite Hd; [|eauto].
    apply IHds. intros d' Hd'. apply Hall. right. exact Hd'. }
  destruct Hdeps as [[|] ->]; [|eauto].
  destruct (negb (segments_ok m config)); eauto.
Qed.

(** ** C3: dependency composition *)

(** C3 (as amended).  Let flag [A] be in the flag map, not a core flag, and
    list [B] among its dependencies.  Then, for every user context and
    clock reading: if [isEnabled(A)] is [true] then [isEnabled(B)] is
    [true]; and if [B] is in the map, is not a core flag and has
    [enabled = false], then whatever [isEnabled(A)] returns is [false],
    whatever [A]'s own [enabled]. *)
Theorem C3_dependency_composition (m : FeatureFlagsManager) (now : Z) (fuel : nat)
    (A B : string) (cfgA : FeatureFlagConfig) (deps : list string) :
  flags m !! A = Some cfgA ->
  dependencies cfgA = Some deps ->
  B ∈ deps ->
  is_core A = false ->
  (isEnabled fuel m now A = Some true -> isEnabled fuel m now B = Some true)
  /\ (forall cfgB, flags m !! B = Some cfgB -> is_core B = false -> enabled cfgB = false ->
        forall r, isEnabled fuel m now A = Some r -> r = false).
Proof.
  intros HA Hdeps HB HcoreA.
  assert (Hfirst : isEnabled fuel m now A = Some true -> isEnabled fuel m now B = Some true).
  { destruct fuel as [|fuel]; [discriminate|].
    rewrite isEnabled_S, HA, HcoreA, Hdeps. simpl.
    destruct (negb (enabled cfgA)); [discriminate|].
    destruct (negb (in_window now cfgA)); [discriminate|].
    destruct (all_enabled (isEnabled fuel m now) deps) as [[|]|] eqn:E; try discriminate.
    intros _. apply isEnabled_mono_S.
    apply all_enabled_true in E. rewrite Forall_forall in E. apply E, HB. }
  split; [exact Hfirst|].
  intros cfgB HcfgB HcoreB Hoff [|] Hr; [|reflexivity].
  apply Hfirst in Hr. destruct fuel as [|fuel]; [discriminate|].
  rewrite isEnabled_S, HcfgB, HcoreB, Hoff in Hr. discriminate.
Qed.

(** The licence-upgrade flow of a fresh manager depends on
    [PAYMENT_ENFORCEMENT], which is off: it never resolves [true]. *)
Lemma C3_dependency_composition_witness :
  (isEnabled 3 (new None) 0 "LICENSE_UPGRADES" = Some true ->
   isEnabled 3 (new None) 0 "PAYMENT_ENFORCEMENT" = Some true)
  /\ (forall cfgB, flags (new None) !! "PAYMENT_ENFORCEMENT" = Some cfgB ->
        is_core "PAYMENT_ENFORCEMENT" = false -> enabled cfgB = false ->
        forall r, isEnabled 3 (new None) 0 "LICENSE_UPGRADES" = Some r -> r = false).
Proof.
  apply (C3_dependency_composition (new None) 0 3 "LICENSE_UPGRADES" "PAYMENT_ENFORCEMENT"
           (mkConfig true None None None None (Some ["STRIPE_PAYMENTS"; "PAYMENT_ENFORCEMENT"])
                     (Some true) (Some "License upgrade flow"))
           ["STRIPE_PAYMENTS"; "PAYMENT_ENFORCEMENT"]).
  - vm_compute. reflexivity.
  - reflexivity.
  - right. left.
  - reflexivity.
Defined.

(** C3 as stated fails at the core flags.  A core flag that lists a disabled
    flag among its dependencies still resolves [true]; and a flag that
    depends on a core flag still resolves [true] after the core flag's
    configuration is set to [enabled: false]. *)
Lemma C3_counterexample :
  (exists cfgA deps,
      flags core_with_dependency !! "BASIC_AUTH" = Some cfgA
      /\ dependencies cfgA = Some deps /\ "PAYMENT_ENFORCEMENT" ∈ deps
      /\ is_Some (flags core_with_dependency !! "PAYMENT_ENFORCEMENT")
      /\ isEnabled 3 core_with_dependency 0 "BASIC_AUTH" = Some true
      /\ isEnabled 3 core_with_dependency 0 "PAYMENT_ENFORCEMENT" = Some false)
  /\ (exists cfgA cfgB deps,
        flags core_switched_off !! "CHARITY_AUTOCOMPLETE" = Some cfgA
        /\ dependencies cfgA = Some deps /\ "CHARITY_SEARCH" ∈ deps
        /\ flags core_switched_off !! "CHARITY_SEARCH" = Some cfgB
        /\ enabled cfgB = false /\ enabled cfgA = true
        /\ isEnabled 3 core_switched_off 0 "CHARITY_AUTOCOMPLETE" = Some true).
Proof.
  split.
  - eexists _, _. split; [vm_compute; reflexivity|].
    split; [reflexivity|]. split; [left|].
    split; [vm_compute; eauto|]. split; vm_compute; reflexivity.
  - eexists _, _, _. split; [vm_compute; reflexivity|].
    split; [reflexivity|]. split; [left|].
    split; [vm_compute; reflexivity|]. repeat split; vm_compute; reflexivity.
Qed.

(** ** C4: rollout determinism *)

(** The bucket of a user is a number from 0 to 99. *)
Lemma hash_bucket_range (uid flagName : string) :
  (0 <= Z.rem (hashUserId uid flagName) 100 < 100)%Z.
Proof.
  unfold hashUserId. apply Z.rem_bound_pos; [apply Z.abs_nonneg | lia].
Qed.

Lemma all_enabled_ext (c1 c2 : string -> option bool) (deps : list string) :
  (forall d, c1 d = c2 d) -> all_enabled c1 deps = all_enabled c2 deps.
Proof.
  intros H. induction deps as [|d deps IH]; simpl; [reflexivity|].
  rewrite H, IH. reflexivity.
Qed.






(** ** C5: automatic rollback *)



(** A report that finds the counter below 10 only counts. *)
Lemma reportError_counts (m : FeatureFlagsManager) (flagName : string)
    (cfg : FeatureFlagConfig) :
  flags m !! flagName = Some cfg -> rollbackOnError cfg = Some true ->
  default 0 (errorCounts m !! flagName) < 10 ->
  reportError flagName m
  = set_errorCounts (insert flagName (default 0 (errorCounts m !! flagName) + 1)) m.
Proof.
  intros Hcfg Hroll Hlt. unfold reportError. rewrite Hcfg. unfold rollback_requested.
  rewrite Hroll. cbn [default from_option id negb].
  destruct (10 <=? default 0 (errorCounts m !! flagName))%nat eqn:E; [|reflexivity].
  apply Nat.leb_le in E. lia.
Qed.

(** Reports that stay within the threshold only count. *)
Lemma reports_below_threshold (m : FeatureFlagsManager) (flagName : string)
    (cfg : FeatureFlagConfig) (n : nat) :
  flags m !! flagName = Some cfg -> rollbackOnError cfg = Some true ->
  default 0 (errorCounts m !! flagName) + n <= 10 ->
  flags (Nat.iter n (reportError flagName) m) = flags m
  /\ default 0 (errorCounts (Nat.iter n (reportError flagName) m) !! flagName)
     = default 0 (errorCounts m !! flagName) + n.
Proof.
  intros Hcfg Hroll. induction n as [|n IH]; intros Hle; simpl.
  - split; [reflexivity | lia].
  - destruct IH as [IHf IHc]; [lia|].
    set (mn := Nat.iter n (reportError flagName) m) in *.
    rewrite <- IHf in Hcfg.
    rewrite (reportError_counts mn flagName cfg Hcfg Hroll) by lia.
    cbn [flags errorCounts set_errorCounts]. rewrite lookup_insert_eq.
    cbn [default from_option id]. split; [exact IHf | lia].
Qed.



(** ** C7: the core flags *)










Lemma getEnabledFlags_unfold (fuel : nat) (m : FeatureFlagsManager) (now : Z) :
  getEnabledFlags fuel m now = getEnabledFlags_loop fuel m now flagNames ∅.
Proof. unfold getEnabledFlags. reflexivity. Qed.




(** [getEnabledFlags] returns when the dependencies of the flags are ranked
    and the budget is above every rank. *)
Lemma getEnabledFlags_total (rank : string -> nat) (m : FeatureFlagsManager) (now : Z)
    (fuel : nat) :
  (forall k cfg d, flags m !! k = Some cfg -> d ∈ default [] (dependencies cfg) ->
                   rank d < rank k) ->
  (forall n, n ∈ flagNames -> rank n < fuel) ->
  is_Some (getEnabledFlags fuel m now).
Proof.
  intros Hrank. rewrite getEnabledFlags_unfold. generalize (∅ : gmap string bool).
  induction flagNames as [|n names IH]; intros acc Hfuel; simpl; [eauto|].
  assert (Hrest : forall n', n' ∈ names -> rank n' < fuel).
  { intros n' Hn'. apply Hfuel. right. exact Hn'. }
  destruct (is_core n); [apply IH, Hrest|].
  destruct (isEnabled_total rank m now Hrank fuel n) as [b ->]; [apply Hfuel; left|].
  apply IH, Hrest.
Qed.


(** ** C8: updateFlag and its listeners *)

(** Number of times [l] is subscribed in a listener array, and number of
    calls made to it with the value [b]. *)
Definition subscriptions (l : Listener) (ls : list Listener) : nat :=
  length (filter (fun x => x = l) ls).






(** ** C10: partial rollout needs a user id *)

(** C10.  Let a flag be in the map, not be a core flag, and pass the
    [enabled], date, dependency and segment steps, and let its
    [rolloutPercentage] be defined and below 100.  If no user context is set,
    or the user context has no [userId] (none, or the empty string), then
    [isEnabled] returns [false]. *)
Theorem C10_anonymous_rollout_gated (m : FeatureFlagsManager) (now : Z) (fuel : nat)
    (flagName : string) (config : FeatureFlagConfig) (pct : Z) :
  flags m !! flagName = Some config ->
  is_core flagName = false ->
  enabled config = true ->
  in_window now config = true ->
  Forall (fun dep => isEnabled fuel m now dep = Some true) (default [] (dependencies config)) ->
  segments_ok m config = true ->
  rolloutPercentage config = Some pct ->
  (pct < 100)%Z ->
  (userContext m = None
   \/ exists ctx, userContext m = Some ctx /\ (userId ctx = None \/ userId ctx = Some "")) ->
  isEnabled (S fuel) m now flagName = Some false.
Proof.
  intros Hcfg Hcore Hen Hwin Hdeps Hseg Hpct Hlt Hanon.
  rewrite isEnabled_S, Hcfg, Hcore, Hen, Hwin. simpl.
  apply all_enabled_true in Hdeps. rewrite Hdeps, Hseg. simpl.
  unfold rollout. rewrite Hpct.
  destruct (pct <? 100)%Z eqn:E; [|apply Z.ltb_ge in E; lia].
  destruct Hanon as [-> | (ctx & -> & [Hid | Hid])]; simpl; [reflexivity | |];
    rewrite Hid; reflexivity.
Qed.

(** However the percentage is chosen below 100, a flag with a partial
    rollout never resolves [true] without a user id. *)
Lemma anonymous_never_in_rollout (m : FeatureFlagsManager) (now : Z) (fuel : nat)
    (flagName : string) (config : FeatureFlagConfig) (pct : Z) :
  flags m !! flagName = Some config ->
  is_core flagName = false ->
  rolloutPercentage config = Some pct ->
  (pct < 100)%Z ->
  truthy_userId (userContext m) = None ->
  isEnabled fuel m now flagName <> Some true.
Proof.
  intros Hcfg Hcore Hpct Hlt Hanon. destruct fuel as [|fuel]; [discriminate|].
  rewrite isEnabled_S, Hcfg, Hcore.
  destruct (negb (enabled config)); [discriminate|].
  destruct (negb (in_window now config)); [discriminate|].
  destruct (all_enabled _ _) as [[|]|]; try discriminate.
  destruct (negb (segments_ok m config)); [discriminate|].
  unfold rollout. rewrite Hpct, Hanon.
  destruct (pct <? 100)%Z eqn:E; [discriminate | apply Z.ltb_ge in E; lia].
Qed.

(** The half rolled-out dashboard, at 99 percent, for a caller without
    identity. *)
Lemma C10_anonymous_rollout_gated_witness :
  let m := updateFlag "NEW_DASHBOARD_UI"
             (mkPartial (Some true) (Some 99%Z) None None None None None None)
             (setUserContext anonymous (new None)) in
  isEnabled 1 m 0 "NEW_DASHBOARD_UI" = Some false.
Proof.
  intros m.
  apply (C10_anonymous_rollout_gated m 0 0 "NEW_DASHBOARD_UI"
           (mkConfig true (Some 99%Z) None None None None (Some true)
                     (Some "Redesigned dashboard interface")) 99%Z).
  - vm_compute. reflexivity.
  - reflexivity.
  - reflexivity.
  - reflexivity.
  - constructor.
  - reflexivity.
  - reflexivity.
  - lia.
  - right. exists anonymous. split; [reflexivity | left; reflexivity].
Defined.

End FlagProperties.

(** * Properties of the service registry *)

Section RegistryProperties.

Import Errors ServiceRegistry RegistryExamples.

(** ** C1: a failed replacement changes nothing *)

(** C1.  Let [t] be registered as a singleton with a live instance, and let
    the candidate fail validation: its constructor throws, or its
    [initialize] (called with the given configuration, or the registered one
    when none is given) rejects, or its [isHealthy] rejects or does not
    answer [true].  Then [replace] throws [SERVICE_REPLACEMENT_FAILED], the
    registrations (implementation, configuration and cached instance of every
    token), the initialization order and the shutdown flag are as before the
    call, and [get(t)] afterwards returns the original instance. *)
Theorem C1_replace_atomicity (fuel : nat) (r : Registry) (t : string)
    (registration : ServiceRegistration) (live : Instance)
    (newImplementation : Implementation) (cfg : option Config) :
  lookup_service t (services r) = Some registration ->
  singleton registration = true ->
  instance registration = Some live ->
  (constructs newImplementation = false
   \/ initializes newImplementation
        (ConfigOnly (match cfg with Some c => Some c | None => config registration end))
      = false
   \/ isHealthy newImplementation <> Some true) ->
  exists r',
    replace fuel t newImplementation cfg r
      = Threw (RegistryError "SERVICE_REPLACEMENT_FAILED" critical false) r'
    /\ services r' = services r
    /\ initializationOrder r' = initializationOrder r
    /\ isShuttingDown r' = isShuttingDown r
    /\ lookup_service t (services r') = Some registration
    /\ (forall fuel', get (S fuel') t r' = Returned live r').
Proof.
  intros Hreg Hsingle Hlive Hfail.
  assert (Hget : forall r', services r' = services r ->
                            forall fuel', get (S fuel') t r' = Returned live r').
  { intros r' Hs fuel'. simpl. rewrite Hs, Hreg, Hsingle, Hlive. reflexivity. }
  assert (Hkept : forall e r',
             services r' = services r ->
             initializationOrder r' = initializationOrder r ->
             isShuttingDown r' = isShuttingDown r ->
             exists r'', @Threw unit e r' = Threw e r''
                         /\ services r'' = services r
                         /\ initializationOrder r'' = initializationOrder r
                         /\ isShuttingDown r'' = isShuttingDown r
                         /\ lookup_service t (services r'') = Some registration
                         /\ (forall fuel', get (S fuel') t r'' = Returned live r'')).
  { intros e r' Hs Ho Hd. exists r'. rewrite Hs. auto 10. }
  unfold replace. rewrite Hreg.
  unfold try_catch, bind, construct, call_initialize, call_isHealthy, throw.
  destruct (constructs newImplementation) eqn:Hc; cbn.
  - destruct (initializes newImplementation _) eqn:Hi; cbn.
    + destruct (isHealthy newImplementation) as [[|]|] eqn:Hh; cbn.
      * destruct Hfail as [Hf | [Hf | Hf]]; congruence.
      * apply Hkept; reflexivity.
      * apply Hkept; reflexivity.
    + apply Hkept; reflexivity.
  - apply Hkept; reflexivity.
Qed.

(** [AUTH] is live; a candidate that reports itself unhealthy is refused and
    [get('AUTH')] still returns the first instance. *)
Lemma C1_replace_atomicity_witness :
  exists r',
    replace 3 "AUTH" (unhealthy "NewAuth") None with_live_auth
      = Threw (RegistryError "SERVICE_REPLACEMENT_FAILED" critical false) r'
    /\ services r' = services with_live_auth
    /\ initializationOrder r' = initializationOrder with_live_auth
    /\ isShuttingDown r' = isShuttingDown with_live_auth
    /\ lookup_service "AUTH" (services r')
       = Some (mkRegistration "AUTH" (sound "OldAuth") (Some (mkInstance 0 (sound "OldAuth")))
                              (Some []) (Some []) true 0 None)
    /\ (forall fuel', get (S fuel') "AUTH" r' = Returned (mkInstance 0 (sound "OldAuth")) r').
Proof.
  apply (C1_replace_atomicity 3 with_live_auth "AUTH"
           (mkRegistration "AUTH" (sound "OldAuth") (Some (mkInstance 0 (sound "OldAuth")))
                           (Some []) (Some []) true 0 None)
           (mkInstance 0 (sound "OldAuth")) (unhealthy "NewAuth") None).
  - reflexivity.
  - reflexivity.
  - reflexivity.
  - right. right. discriminate.
Defined.

(** ** C2: dependency cycles *)

(** One unfolding of [get]. *)
Lemma get_S (fuel : nat) (t : string) (r : Registry) :
  get (S fuel) t r =
    match lookup_service t (services r) with
    | None => Threw (RegistryError "SERVICE_NOT_FOUND" high false) r
    | Some registration =>
        match singleton registration, instance registration with
        | true, Some i => Returned i r
        | _, _ =>
            (i <- createInstance (get fuel) registration ;;
             (if singleton registration
              then modify (with_services (update_service t (set_instance (Some i))))
              else ret tt) ;;;
             ret i) r
        end
    end.
Proof. reflexivity. Qed.

(** A registration without a cached instance whose first dependency does not
    come back does not come back either. *)
Lemma get_waits_for_first_dependency (fuel : nat) (r : Registry) (a b : string)
    (ra : ServiceRegistration) (rest : list string) :
  lookup_service a (services r) = Some ra ->
  instance ra = None ->
  dependencies ra = Some (b :: rest) ->
  get fuel b r = Unfinished ->
  get (S fuel) a r = Unfinished.
Proof.
  intros Ha Hinst Hdeps Hb. rewrite get_S, Ha, Hinst.
  assert (Hcreate : createInstance (get fuel) ra r = Unfinished).
  { unfold createInstance, try_catch, bind. rewrite Hdeps.
    cbn [default from_option id resolve]. unfold bind. cbv beta. rewrite Hb. reflexivity. }
  unfold bind. cbv beta. rewrite Hcreate. destruct (singleton ra); reflexivity.
Qed.

(** Two registrations that list each other first: [get] and [createInstance]
    call each other without end, whatever the budget. *)
Lemma get_unbounded_on_cycle (r : Registry) (a b : string)
    (ra rb : ServiceRegistration) (da db : list string) :
  lookup_service a (services r) = Some ra ->
  lookup_service b (services r) = Some rb ->
  instance ra = None -> instance rb = None ->
  dependencies ra = Some (b :: da) ->
  dependencies rb = Some (a :: db) ->
  forall fuel, get fuel a r = Unfinished /\ get fuel b r = Unfinished.
Proof.
  intros Ha Hb Hia Hib Hda Hdb. induction fuel as [|fuel [IHa IHb]].
  - split; reflexivity.
  - split.
    + exact (get_waits_for_first_dependency fuel r a b ra da Ha Hia Hda IHb).
    + exact (get_waits_for_first_dependency fuel r b a rb db Hb Hib Hdb IHa).
Qed.

(** C2, on the registrations [A -> [B]], [B -> [A]].  [initializeAll] fails
    with [CIRCULAR_DEPENDENCY] and leaves the registry as it was; [get('A')]
    does not: whatever the recursion budget, the mutual calls of [get] and
    [createInstance] have not returned, so no result (in particular no
    circular-dependency error) is ever produced. *)
Theorem C2_cycle_detected_by_initializeAll_only :
  (forall fuel, 3 <= fuel ->
     initializeAll fuel cyclic
       = Threw (RegistryError "CIRCULAR_DEPENDENCY" critical false) cyclic)
  /\ (forall fuel, get fuel "A" cyclic = Unfinished)
  /\ (forall fuel, get fuel "B" cyclic = Unfinished).
Proof.
  split.
  - intros [|[|[|fuel]]] Hfuel; try lia. vm_compute. reflexivity.
  - assert (H : forall fuel, get fuel "A" cyclic = Unfinished
                             /\ get fuel "B" cyclic = Unfinished).
    { apply (get_unbounded_on_cycle cyclic "A" "B"
               (mkRegistration "A" (sound "ImplA") None (Some ["B"]) (Some []) true 0 None)
               (mkRegistration "B" (sound "ImplB") None (Some ["A"]) (Some []) true 0 None)
               [] []); reflexivity. }
    split; intros fuel; apply H.
Qed.

(** ** What registry methods leave alone *)

(** [r'] has the registrations of [r] under the same tokens in the same
    order, with the same dependencies, and the same two other fields: only
    cached instances, the allocation count and the trace may differ. *)
Definition same_frame (r r' : Registry) : Prop :=
  map fst (services r') = map fst (services r)
  /\ (forall t, deps_of (services r') t = deps_of (services r) t)
  /\ initializationOrder r' = initializationOrder r
  /\ isShuttingDown r' = isShuttingDown r.

Lemma same_frame_refl (r : Registry) : same_frame r r.
Proof. unfold same_frame. auto. Qed.

Lemma same_frame_fields (r r' : Registry) :
  services r' = services r ->
  initializationOrder r' = initializationOrder r ->
  isShuttingDown r' = isShuttingDown r ->
  same_frame r r'.
Proof. unfold same_frame. intros -> -> ->. auto. Qed.

Lemma same_frame_trans (r1 r2 r3 : Registry) :
  same_frame r1 r2 -> same_frame r2 r3 -> same_frame r1 r3.
Proof.
  unfold same_frame. intros (K1 & D1 & O1 & S1) (K2 & D2 & O2 & S2).
  split; [congruence|]. split; [intros t; rewrite D2; apply D1|]. split; congruence.
Qed.

(** A method ends in a registry that satisfies [P], if it ends. *)
Definition ends_in {A} (P : Registry -> Prop) (o : Outcome A) : Prop :=
  match o with
  | Returned _ r' => P r'
  | Threw _ r' => P r'
  | Unfinished => True
  end.

Lemma ends_in_bind {A B} (c : M A) (k : A -> M B) (r : Registry) :
  ends_in (same_frame r) (c r) ->
  (forall a r', same_frame r r' -> ends_in (same_frame r') (k a r')) ->
  ends_in (same_frame r) (bind c k r).
Proof.
  unfold bind. intros Hc Hk. destruct (c r) as [a r'|e r'|]; simpl in *; auto.
  specialize (Hk a r' Hc). destruct (k a r') as [b r''|e r''|]; simpl in *; auto;
    eapply same_frame_trans; eauto.
Qed.

Lemma ends_in_try_catch {A} (c : M A) (h : Exn -> M A) (r : Registry) :
  ends_in (same_frame r) (c r) ->
  (forall e r', same_frame r r' -> ends_in (same_frame r') (h e r')) ->
  ends_in (same_frame r) (try_catch c h r).
Proof.
  unfold try_catch. intros Hc Hh. destruct (c r) as [a r'|e r'|]; simpl in *; auto.
  specialize (Hh e r' Hc). destruct (h e r') as [b r''|e' r''|]; simpl in *; auto;
    eapply same_frame_trans; eauto.
Qed.

Lemma ends_in_ret {A} (a : A) (r : Registry) : ends_in (same_frame r) (ret a r).
Proof. apply same_frame_refl. Qed.

Lemma ends_in_throw {A} (e : Exn) (r : Registry) : ends_in (same_frame r) (@throw A e r).
Proof. apply same_frame_refl. Qed.

Lemma ends_in_construct (impl : Implementation) (r : Registry) :
  ends_in (same_frame r) (construct impl r).
Proof.
  unfold construct. destruct (constructs impl); simpl; apply same_frame_fields; reflexivity.
Qed.

Lemma ends_in_call_initialize (i : Instance) (arg : InitArg) (r : Registry) :
  ends_in (same_frame r) (call_initialize i arg r).
Proof.
  unfold call_initialize.
  destruct (initializes (inst_of i) arg); simpl; apply same_frame_fields; reflexivity.
Qed.

Lemma ends_in_call_isHealthy (i : Instance) (r : Registry) :
  ends_in (same_frame r) (call_isHealthy i r).
Proof.
  unfold call_isHealthy.
  destruct (isHealthy (inst_of i)); simpl; apply same_frame_fields; reflexivity.
Qed.

Lemma ends_in_call_shutdown (i : Instance) (r : Registry) :
  ends_in (same_frame r) (call_shutdown i r).
Proof.
  unfold call_shutdown.
  destruct (shuts_down (inst_of i)); simpl; apply same_frame_fields; reflexivity.
Qed.

(** Assigning to fields of one registration. *)
Lemma lookup_update_service (t t' : string) (f : ServiceRegistration -> ServiceRegistration)
    (l : list (string * ServiceRegistration)) :
  lookup_service t' (update_service t f l)
  = if String.eqb t t' then f <$> lookup_service t' l else lookup_service t' l.
Proof.
  induction l as [|[k reg] l IH]; simpl.
  - destruct (String.eqb t t'); reflexivity.
  - destruct (String.eqb k t) eqn:Ekt; simpl.
    + apply String.eqb_eq in Ekt. subst k.
      destruct (String.eqb t t'); reflexivity.
    + destruct (String.eqb k t') eqn:Ekt'.
      * apply String.eqb_eq in Ekt'. subst k.
        rewrite String.eqb_sym, Ekt. reflexivity.
      * exact IH.
Qed.

Lemma keys_update_service (t : string) (f : ServiceRegistration -> ServiceRegistration)
    (l : list (string * ServiceRegistration)) :
  map fst (update_service t f l) = map fst l.
Proof.
  induction l as [|[k reg] l IH]; simpl; [reflexivity|].
  destruct (String.eqb k t); simpl; [reflexivity | rewrite IH; reflexivity].
Qed.

Lemma same_frame_set_instance (t : string) (i : option Instance) (r : Registry) :
  same_frame r (with_services (update_service t (set_instance i)) r).
Proof.
  unfold same_frame. simpl. split; [apply keys_update_service|].
  split; [|auto]. intros t'. unfold deps_of. rewrite lookup_update_service.
  destruct (String.eqb t t'); [|reflexivity].
  destruct (lookup_service t' (services r)); reflexivity.
Qed.

(** [get] leaves the frame alone. *)
Lemma resolve_same_frame (get_ : string -> M Instance) :
  (forall t r, ends_in (same_frame r) (get_ t r)) ->
  forall deps acc r, ends_in (same_frame r) (resolve get_ deps acc r).
Proof.
  intros Hget. induction deps as [|d deps IH]; intros acc r; cbn [resolve].
  - apply ends_in_ret.
  - apply ends_in_bind; [apply Hget|]. intros i r' _. apply IH.
Qed.

Lemma createInstance_same_frame (get_ : string -> M Instance)
    (registration : ServiceRegistration) :
  (forall t r, ends_in (same_frame r) (get_ t r)) ->
  forall r, ends_in (same_frame r) (createInstance get_ registration r).
Proof.
  intros Hget r. unfold createInstance.
  apply ends_in_try_catch; [|intros; apply ends_in_throw].
  apply ends_in_bind; [apply resolve_same_frame, Hget|]. intros deps r1 _.
  apply ends_in_bind; [apply ends_in_construct|]. intros i r2 _.
  apply ends_in_bind; [apply ends_in_call_initialize|]. intros _ r3 _.
  apply ends_in_ret.
Qed.

Lemma get_same_frame (fuel : nat) :
  forall t r, ends_in (same_frame r) (get fuel t r).
Proof.
  induction fuel as [|fuel IH]; intros t r; [exact I|].
  rewrite get_S. destruct (lookup_service t (services r)) as [registration|];
    [|apply same_frame_refl].
  assert (Hcreate : ends_in (same_frame r)
            ((i <- createInstance (get fuel) registration ;;
              (if singleton registration
               then modify (with_services (update_service t (set_instance (Some i))))
               else ret tt) ;;;
              ret i) r)).
  { apply ends_in_bind; [apply createInstance_same_frame, IH|]. intros i r1 _.
    apply ends_in_bind; [|intros; apply ends_in_ret].
    destruct (singleton registration); [|apply ends_in_ret].
    unfold modify. simpl. apply same_frame_set_instance. }
  destruct (singleton registration); [|exact Hcreate].
  destruct (instance registration); [apply same_frame_refl | exact Hcreate].
Qed.

(** ** When [get] returns *)

Definition finishes {A} (o : Outcome A) : Prop := o <> Unfinished.

(** The dependencies are ranked: every registration ranks above the tokens
    it depends on. *)
Definition ranked (rank : string -> nat) (r : Registry) : Prop :=
  forall t d, d ∈ deps_of (services r) t -> rank d < rank t.

Lemma ranked_same_frame (rank : string -> nat) (r r' : Registry) :
  same_frame r r' -> ranked rank r -> ranked rank r'.
Proof.
  intros (_ & Hdeps & _) Hr t d Hd. rewrite Hdeps in Hd. exact (Hr t d Hd).
Qed.

Lemma finishes_bind {A B} (c : M A) (k : A -> M B) (r : Registry) :
  finishes (c r) ->
  (forall a r', c r = Returned a r' -> finishes (k a r')) ->
  finishes (bind c k r).
Proof.
  unfold finishes, bind. intros Hc Hk. destruct (c r) as [a r'|e r'|]; try congruence.
  apply Hk. reflexivity.
Qed.

Lemma finishes_try_catch {A} (c : M A) (h : Exn -> M A) (r : Registry) :
  finishes (c r) ->
  (forall e r', c r = Threw e r' -> finishes (h e r')) ->
  finishes (try_catch c h r).
Proof.
  unfold finishes, try_catch. intros Hc Hh. destruct (c r) as [a r'|e r'|]; try congruence.
  apply Hh. reflexivity.
Qed.

Lemma returned_same_frame {A} (c : M A) (r r' : Registry) (a : A) :
  ends_in (same_frame r) (c r) -> c r = Returned a r' -> same_frame r r'.
Proof. intros H E. rewrite E in H. exact H. Qed.

Lemma threw_same_frame {A} (c : M A) (r r' : Registry) (e : Exn) :
  ends_in (same_frame r) (c r) -> c r = Threw e r' -> same_frame r r'.
Proof. intros H E. rewrite E in H. exact H. Qed.

Lemma resolve_finishes (get_ : string -> M Instance) (deps : list string) :
  (forall t r, ends_in (same_frame r) (get_ t r)) ->
  forall acc r,
    (forall d r', d ∈ deps -> same_frame r r' -> finishes (get_ d r')) ->
    finishes (resolve get_ deps acc r).
Proof.
  intros Hframe. induction deps as [|d deps IH]; intros acc r Hfin; cbn [resolve].
  - discriminate.
  - apply finishes_bind.
    + apply Hfin; [left | apply same_frame_refl].
    + intros i r1 E. apply IH. intros d' r2 Hd' Hr2. apply Hfin; [right; exact Hd'|].
      eapply same_frame_trans; [|exact Hr2].
      exact (returned_same_frame (get_ d) r r1 i (Hframe d r) E).
Qed.

(** With ranked dependencies, a budget above the rank of the token is
    enough for [get] to return or throw. *)
Lemma get_finishes (rank : string -> nat) (fuel : nat) :
  forall t r, ranked rank r -> rank t < fuel -> finishes (get fuel t r).
Proof.
  induction fuel as [|fuel IH]; intros t r Hr Hlt; [lia|].
  rewrite get_S. destruct (lookup_service t (services r)) as [registration|] eqn:Hreg;
    [|discriminate].
  assert (Hdeps : default [] (dependencies registration) = deps_of (services r) t).
  { unfold deps_of. rewrite Hreg. reflexivity. }
  assert (Hcreate : finishes
            ((i <- createInstance (get fuel) registration ;;
              (if singleton registration
               then modify (with_services (update_service t (set_instance (Some i))))
               else ret tt) ;;;
              ret i) r)).
  { apply finishes_bind.
    - unfold createInstance. apply finishes_try_catch; [|discriminate].
      apply finishes_bind.
      + apply resolve_finishes; [apply get_same_frame|].
        intros d r' Hd Hr'. apply IH; [exact (ranked_same_frame rank r r' Hr' Hr)|].
        rewrite Hdeps in Hd. specialize (Hr t d Hd). lia.
      + intros deps r1 _. apply finishes_bind.
        * unfold construct, finishes. destruct (constructs _); discriminate.
        * intros i r2 _. apply finishes_bind; [|discriminate].
          unfold call_initialize, finishes. destruct (initializes _ _); discriminate.
    - intros i r1 _. apply finishes_bind; [|discriminate].
      destruct (singleton registration); discriminate. }
  destruct (singleton registration); [|exact Hcreate].
  destruct (instance registration); [discriminate | exact Hcreate].
Qed.

(** [initializeAll] goes through the whole order when no token of it is a
    critical service. *)
Lemma initialize_in_order_returns (rank : string -> nat) (fuel : nat) (tokens : list string) :
  forall r,
    ranked rank r ->
    (forall t, t ∈ tokens -> rank t < fuel /\ isCriticalService t = false) ->
    exists r', initialize_in_order fuel tokens r = Returned tt r' /\ same_frame r r'.
Proof.
  induction tokens as [|t tokens IH]; intros r Hr Htok; cbn [initialize_in_order].
  - exists r. split; [reflexivity | apply same_frame_refl].
  - destruct (Htok t) as [Hlt Hcrit]; [left|].
    assert (Hone : exists r1,
               try_catch (get fuel t ;;; ret tt)
                 (fun _ => if isCriticalService t
                           then throw (RegistryError "CRITICAL_SERVICE_INIT_FAILED"
                                                     critical false)
                           else ret tt) r = Returned tt r1
               /\ same_frame r r1).
    { pose proof (get_finishes rank fuel t r Hr Hlt) as Hfin.
      pose proof (get_same_frame fuel t r) as Hframe.
      unfold try_catch, bind. rewrite Hcrit.
      destruct (get fuel t r) as [i r1|e r1|]; [| |exfalso; apply Hfin; reflexivity];
        exists r1; split; try reflexivity; exact Hframe. }
    destruct Hone as (r1 & E1 & F1).
    destruct (IH r1) as (r2 & E2 & F2).
    + exact (ranked_same_frame rank r r1 F1 Hr).
    + intros t' Ht'. apply Htok. right. exact Ht'.
    + exists r2. split; [|eapply same_frame_trans; eauto].
      unfold bind at 1. rewrite E1. exact E2.
Qed.

Lemma initializeAll_returns (rank : string -> nat) (fuel : nat) (r : Registry) (w : Walk) :
  resolveDependencyOrder fuel (services r) = Walked w ->
  ranked rank r ->
  (forall t, t ∈ order w -> rank t < fuel /\ isCriticalService t = false) ->
  exists r',
    initializeAll fuel r = Returned tt r'
    /\ initializationOrder r' = order w
    /\ map fst (services r') = map fst (services r)
    /\ isShuttingDown r' = isShuttingDown r.
Proof.
  intros Hw Hr Htok. unfold initializeAll. rewrite Hw.
  destruct (initialize_in_order_returns rank fuel (order w)
              (set_initializationOrder (order w) r)) as (r' & E & (K & _ & O & S)).
  - exact Hr.
  - exact Htok.
  - exists r'. unfold bind, modify. rewrite E. auto.
Qed.

(** ** shutdown *)

(** The instances cached under [tokens], in that order, and the call
    [shutdown] makes to one. *)
Definition live_instances (r : Registry) (tokens : list string) : list Instance :=
  omap (fun t => lookup_service t (services r) ≫= instance) tokens.

Definition shutdown_event (i : Instance) : Event :=
  EvShutdown (inst_id i) (shuts_down (inst_of i)).

Lemma live_instances_cons (r : Registry) (t : string) (tokens : list string) :
  live_instances r (t :: tokens)
  = match lookup_service t (services r) ≫= instance with
    | Some i => i :: live_instances r tokens
    | None => live_instances r tokens
    end.
Proof. reflexivity. Qed.

Lemma live_instances_services (r r' : Registry) (tokens : list string) :
  services r' = services r -> live_instances r' tokens = live_instances r tokens.
Proof. unfold live_instances. intros ->. reflexivity. Qed.

Lemma shutdown_in_order_calls (tokens : list string) :
  forall r, exists r',
    shutdown_in_order tokens r = Returned tt r'
    /\ services r' = services r
    /\ initializationOrder r' = initializationOrder r
    /\ isShuttingDown r' = isShuttingDown r
    /\ allocated r' = allocated r
    /\ trace r' = trace r ++ map shutdown_event (live_instances r tokens).
Proof.
  induction tokens as [|t tokens IH]; intros r; cbn [shutdown_in_order].
  - exists r. rewrite app_nil_r. auto 10.
  - rewrite live_instances_cons. unfold bind at 1, read. unfold bind at 1.
    destruct (lookup_service t (services r) ≫= instance) as [i|].
    + unfold try_catch, call_shutdown, ret.
      destruct (IH (emit (shutdown_event i) r)) as (r' & E & Hs & Ho & Hd & Ha & Ht).
      exists r'. split.
      * unfold shutdown_event in E.
        destruct (shuts_down (inst_of i)); exact E.
      * rewrite Hs, Ho, Hd, Ha, Ht.
        rewrite (live_instances_services r (emit (shutdown_event i) r) tokens eq_refl).
        simpl. rewrite <- app_assoc. auto 10.
    + unfold ret. destruct (IH r) as (r' & E & H). exists r'. split; [exact E | exact H].
Qed.

Lemma shutdown_calls (r : Registry) :
  isShuttingDown r = false ->
  exists r',
    shutdown r = Returned tt r'
    /\ services r' = services r
    /\ initializationOrder r' = initializationOrder r
    /\ isShuttingDown r' = true
    /\ trace r' = trace r ++ map shutdown_event
                                (live_instances r (rev (initializationOrder r))).
Proof.
  intros Hno. unfold shutdown. rewrite Hno. unfold bind, modify, read.
  destruct (shutdown_in_order_calls (rev (initializationOrder r))
              (set_isShuttingDown true r)) as (r' & E & Hs & Ho & Hd & _ & Ht).
  exists r'. split; [exact E|]. auto.
Qed.

Lemma shutdown_again (r : Registry) :
  isShuttingDown r = true -> shutdown r = Returned tt r.
Proof. intros H. unfold shutdown. rewrite H. reflexivity. Qed.

(** ** C6: initialization order and shutdown order *)

(** Registrations without dependencies are ordered as they were inserted. *)
Lemma visit_independent (fuel : nat) (l : list (string * ServiceRegistration))
    (t : string) (w : Walk) :
  deps_of l t = [] -> t ∉ visited w -> t ∉ visiting w ->
  visit (S fuel) l t w
  = Walked (mkWalk ({[t]} ∪ visited w) (visiting w) (order w ++ [t])).
Proof.
  intros Hdeps Hv Hg. cbn [visit].
  rewrite (bool_decide_eq_false_2 _ Hv), (bool_decide_eq_false_2 _ Hg), Hdeps.
  cbn [visit_all visited visiting order]. do 2 f_equal. set_solver.
Qed.

Lemma visit_all_independent (fuel : nat) (l : list (string * ServiceRegistration))
    (tokens : list string) :
  (forall t, deps_of l t = []) ->
  NoDup tokens ->
  forall w,
    visiting w = ∅ ->
    (forall t, t ∈ tokens -> t ∉ visited w) ->
    exists w', visit_all (visit (S fuel) l) tokens w = Walked w'
               /\ order w' = order w ++ tokens.
Proof.
  intros Hdeps. induction 1 as [|t tokens Hnotin Hnodup IH]; intros w Hg Hv.
  - exists w. rewrite app_nil_r. split; reflexivity.
  - cbn [visit_all]. rewrite visit_independent.
    + destruct (IH (mkWalk ({[t]} ∪ visited w) (visiting w) (order w ++ [t])))
        as (w' & E & Ho).
      * exact Hg.
      * intros t' Ht'. cbn [visited]. specialize (Hv t' ltac:(right; exact Ht')).
        set_solver.
      * exists w'. split; [exact E|]. rewrite Ho. cbn [order].
        rewrite <- app_assoc. reflexivity.
    + apply Hdeps.
    + apply Hv. left.
    + rewrite Hg. set_solver.
Qed.

Lemma independent_in_insertion_order (fuel : nat) (l : list (string * ServiceRegistration)) :
  (forall t, deps_of l t = []) ->
  NoDup (map fst l) ->
  exists w, resolveDependencyOrder (S fuel) l = Walked w /\ order w = map fst l.
Proof.
  intros Hdeps Hnodup. unfold resolveDependencyOrder.
  destruct (visit_all_independent fuel l (map fst l) Hdeps Hnodup (mkWalk ∅ ∅ []))
    as (w & E & Ho); [reflexivity | set_solver |].
  exists w. split; [exact E | exact Ho].
Qed.

(** Ranks for the chain [A], [B -> A], [C -> B]. *)
Definition chain_rank (t : string) : nat :=
  if String.eqb t "A" then 0 else if String.eqb t "B" then 1 else 2.

(** A registry that holds the chain, and is not shutting down, initializes
    in the order [A; B; C]. *)
Lemma chain_initializes (fuel : nat) (r0 : Registry) :
  3 <= fuel ->
  (exists w, resolveDependencyOrder fuel (services r0) = Walked w
             /\ order w = ["A"; "B"; "C"]) ->
  (forall t, deps_of (services r0) t
             = if String.eqb t "B" then ["A"] else if String.eqb t "C" then ["B"] else []) ->
  exists r1,
    initializeAll fuel r0 = Returned tt r1
    /\ initializationOrder r1 = ["A"; "B"; "C"]
    /\ isShuttingDown r1 = isShuttingDown r0.
Proof.
  intros Hfuel (w & Hw & Ho) Hdeps.
  destruct (initializeAll_returns chain_rank fuel r0 w Hw) as (r1 & E & O & _ & S).
  - intros t d. rewrite Hdeps.
    destruct (String.eqb_spec t "B") as [-> | _].
    + intros Hd. apply list_elem_of_singleton in Hd. subst d. vm_compute. lia.
    + destruct (String.eqb_spec t "C") as [-> | _].
      * intros Hd. apply list_elem_of_singleton in Hd. subst d. vm_compute. lia.
      * intros Hd. inversion Hd.
  - rewrite Ho. intros t Ht. rewrite !elem_of_cons, elem_of_nil in Ht.
    destruct Ht as [-> | [-> | [-> | []]]]; (split; [vm_compute; lia | reflexivity]).
  - exists r1. rewrite O, Ho. auto.
Qed.

(** C6.  (1) Register [A] without dependencies, [B] depending on [A] and
    [C] depending on [B], in any order and with any implementations:
    [initializeAll] returns and records the order [A; B; C].
    (2) Registrations none of which has a dependency are ordered as they
    were inserted.
    (3) [shutdown] on a registry that is not shutting down calls [shutdown]
    on exactly the cached instances of the recorded order, taken in reverse,
    and changes nothing but the flag and the trace.
    (4) A second [shutdown] returns at once: the registry, and so the trace
    of calls, is as the first one left it. *)
Theorem C6_order_and_shutdown :
  (forall (implA implB implC : Implementation) (regs : list (M unit)) (fuel : nat),
      regs ≡ₚ [register_A implA; register_B implB; register_C implC] ->
      3 <= fuel ->
      exists r1 r2,
        initializeAll fuel (after_all regs empty) = Returned tt r1
        /\ initializationOrder r1 = ["A"; "B"; "C"]
        /\ shutdown r1 = Returned tt r2
        /\ trace r2 = trace r1 ++ map shutdown_event (live_instances r1 ["C"; "B"; "A"])
        /\ shutdown r2 = Returned tt r2)
  /\ (forall (l : list (string * ServiceRegistration)) (fuel : nat),
        (forall t, deps_of l t = []) -> NoDup (map fst l) ->
        exists w, resolveDependencyOrder (S fuel) l = Walked w /\ order w = map fst l)
  /\ (forall r, isShuttingDown r = false ->
        exists r',
          shutdown r = Returned tt r'
          /\ services r' = services r
          /\ initializationOrder r' = initializationOrder r
          /\ isShuttingDown r' = true
          /\ trace r' = trace r ++ map shutdown_event
                                      (live_instances r (rev (initializationOrder r))))
  /\ (forall r r', shutdown r = Returned tt r' -> shutdown r' = Returned tt r').
Proof.
  assert (Hagain : forall r r', shutdown r = Returned tt r' -> shutdown r' = Returned tt r').
  { intros r r' E. destruct (isShuttingDown r) eqn:Hd.
    - rewrite (shutdown_again r Hd) in E. injection E as <-. exact (shutdown_again r Hd).
    - destruct (shutdown_calls r Hd) as (r'' & E' & _ & _ & Hd' & _).
      rewrite E' in E. injection E as <-. exact (shutdown_again r'' Hd'). }
  split; [|split; [|split]].
  - intros implA implB implC regs fuel Hperm Hfuel.
    assert (Hinit : exists r1,
               initializeAll fuel (after_all regs empty) = Returned tt r1
               /\ initializationOrder r1 = ["A"; "B"; "C"]
               /\ isShuttingDown r1 = false).
    { symmetry in Hperm. apply permutations_Permutation in Hperm.
      cbn [permutations interleave fmap list_fmap mbind list_bind app] in Hperm.
      rewrite !elem_of_cons, elem_of_nil in Hperm.
      destruct fuel as [|[|[|fuel]]]; try lia.
      destruct Hperm as [-> | [-> | [-> | [-> | [-> | [-> | []]]]]]];
        (apply chain_initializes;
         [ lia
         | eexists; split; [vm_compute; reflexivity | reflexivity]
         | intros t; unfold deps_of;
           match goal with
           | |- context [services ?r] =>
               let s := eval vm_compute in (services r) in change (services r) with s
           end;
           cbn [lookup_service];
           repeat match goal with
                  | |- context [String.eqb ?a t] =>
                      destruct (String.eqb_spec a t); [subst t|]
                  | |- context [String.eqb t ?a] =>
                      destruct (String.eqb_spec t a); [subst t|]
                  end;
           first [reflexivity | congruence] ]). }
    destruct Hinit as (r1 & E1 & O1 & D1).
    destruct (shutdown_calls r1 D1) as (r2 & E2 & _ & _ & _ & T2).
    exists r1, r2. rewrite O1 in T2. repeat split; try assumption.
    exact (Hagain r1 r2 E2).
  - intros l fuel. apply independent_in_insertion_order.
  - exact shutdown_calls.
  - exact Hagain.
Qed.

(** The chain registered as [C], [B], [A] with implementations that work:
    the instances are made in the order [A], [B], [C] and shut down in the
    order [C], [B], [A]. *)
Lemma C6_order_and_shutdown_witness :
  exists r1 r2,
    initializeAll 3 (after_all [register_C (sound "ImplC"); register_B (sound "ImplB");
                                register_A (sound "ImplA")] empty)
      = Returned tt r1
    /\ initializationOrder r1 = ["A"; "B"; "C"]
    /\ shutdown r1 = Returned tt r2
    /\ trace r2 = trace r1 ++ map shutdown_event (live_instances r1 ["C"; "B"; "A"])
    /\ shutdown r2 = Returned tt r2.
Proof.
  destruct C6_order_and_shutdown as [Hchain _].
  apply (Hchain (sound "ImplA") (sound "ImplB") (sound "ImplC") _ 3).
  - apply Permutation_rev.
  - lia.
Defined.

(** What the services see in that run: three constructions and
    initializations, then the shutdowns of the instances 2, 1 and 0, once
    each although [shutdown] is called twice. *)
Example chain_trace :
  let r0 := after_all [register_C (sound "ImplC"); register_B (sound "ImplB");
                       register_A (sound "ImplA")] empty in
  map (fun e => match e with
                | EvNew impl (Some id) => ("new " +:+ impl, id)
                | EvNew impl None => ("new " +:+ impl, 0)
                | EvInitialize id _ _ => ("initialize", id)
                | EvIsHealthy id _ => ("isHealthy", id)
                | EvShutdown id _ => ("shutdown", id)
                end)
      (trace (after shutdown (after shutdown (after (initializeAll 3) r0))))
  = [("new ImplA", 0); ("initialize", 0); ("new ImplB", 1); ("initialize", 1);
     ("new ImplC", 2); ("initialize", 2);
     ("shutdown", 2); ("shutdown", 1); ("shutdown", 0)].
Proof. vm_compute. reflexivity. Qed.

End RegistryProperties.

(** * Properties of the module fault isolator *)

Section BoundaryProperties.

Import Errors ErrorBoundary BoundaryExamples.

Lemma recovery_pending_remove (id : nat) (b : Boundary) :
  recovery_pending (remove_timer id b)
  = filter (fun t => timer_id t <> id) (recovery_pending b).
Proof.
  unfold recovery_pending, remove_timer. cbn [pending].
  induction (pending b) as [|t l IH]; [reflexivity|].
  rewrite !filter_cons.
  destruct (decide (timer_id t <> id)); destruct (decide (is_recovery_timer t = true));
    rewrite ?filter_cons; repeat case_decide; try contradiction; rewrite IH; reflexivity.
Qed.





(** ** What each event does *)








(** ** The invariant *)




(** ** C9: the retry ceiling *)








End BoundaryProperties.

(** * Further properties: structured errors *)

Section ErrorProperties.

Import Errors.

Lemma retryCount_incremented (n : nat) (e : ServiceError) :
  retryCount (Nat.iter n incrementRetry e) = retryCount e + n
  /\ recoverable (Nat.iter n incrementRetry e) = recoverable e
  /\ recovery (Nat.iter n incrementRetry e) = recovery e.
Proof.
  induction n as [|n (IHc & IHr & IHs)]; simpl.
  - repeat split. lia.
  - rewrite IHc, IHr, IHs. repeat split. lia.
Qed.

Lemma is_retry_spec (s : option RecoveryStrategy) : is_retry s = true <-> s = Some retry.
Proof. destruct s as [[]|]; simpl; split; congruence. Qed.

(** After [n] calls of [incrementRetry], [shouldRetry(maxRetries)] answers
    [true] exactly when the error is recoverable, its recovery strategy is
    ['retry'], and its retry count plus [n] is still below the maximum (3
    when none is given). *)
Theorem shouldRetry_after_increments (e : ServiceError) (n : nat) (maxRetries : option nat) :
  shouldRetry (Nat.iter n incrementRetry e) maxRetries = true
  <-> recoverable e = true /\ recovery e = Some retry
      /\ retryCount e + n < default 3 maxRetries.
Proof.
  unfold shouldRetry. destruct (retryCount_incremented n e) as (-> & -> & ->).
  rewrite !andb_true_iff, is_retry_spec, Nat.ltb_lt. tauto.
Qed.

(** Of the errors made by the factories of [createError], only a network
    error is ever retried, and it is while fewer than the maximum of retries
    were counted; an authentication, validation, critical or external-API
    error is never retried, and neither is a plain [Error], before or after
    [errorUtils.toServiceError] has made it a recoverable [ServiceError]. *)
Theorem only_network_errors_are_retried :
  (forall message fresh n maxRetries,
      shouldRetry (Nat.iter n incrementRetry (createError_network message fresh)) maxRetries
      = true <-> n < default 3 maxRetries)
  /\ (forall code message recoverable fresh n maxRetries,
        shouldRetry (Nat.iter n incrementRetry
                       (createError_auth code message recoverable fresh)) maxRetries
        = false)
  /\ (forall message field fresh n maxRetries,
        shouldRetry (Nat.iter n incrementRetry
                       (createError_validation message field fresh)) maxRetries
        = false)
  /\ (forall message moduleId fresh n maxRetries,
        shouldRetry (Nat.iter n incrementRetry
                       (createError_critical message moduleId fresh)) maxRetries
        = false)
  /\ (forall upperName message fresh n maxRetries,
        shouldRetry (Nat.iter n incrementRetry
                       (createError_externalApi upperName message fresh)) maxRetries
        = false)
  /\ (forall message moduleId code fresh maxRetries,
        errorUtils_shouldRetry (PlainError message) maxRetries = false
        /\ recoverable (errorUtils_toServiceError (PlainError message) moduleId code fresh)
           = true
        /\ errorUtils_shouldRetry
             (IsServiceError
                (errorUtils_toServiceError (PlainError message) moduleId code fresh))
             maxRetries = false).
Proof.
  assert (shouldRetry_iterated : forall e n maxRetries,
             shouldRetry (Nat.iter n incrementRetry e) maxRetries = true
             <-> recoverable e = true /\ recovery e = Some retry
                 /\ retryCount e + n < default 3 maxRetries).
  { intros e n maxRetries. unfold shouldRetry.
    destruct (retryCount_incremented n e) as (-> & -> & ->).
    rewrite !andb_true_iff, is_retry_spec, Nat.ltb_lt. tauto. }
  assert (Hnever : forall e n maxRetries,
             recoverable e = false \/ recovery e <> Some retry ->
             shouldRetry (Nat.iter n incrementRetry e) maxRetries = false).
  { intros e n maxRetries H.
    destruct (shouldRetry (Nat.iter n incrementRetry e) maxRetries) eqn:E; [|reflexivity].
    apply shouldRetry_iterated in E. destruct E as (Hr & Hs & _).
    destruct H; congruence. }
  split; [|split; [|split; [|split; [|split]]]].
  - intros message fresh n maxRetries. rewrite shouldRetry_iterated. simpl.
    split; [intros (_ & _ & H); exact H | intros H; auto].
  - intros. apply Hnever. right. discriminate.
  - intros message field fresh n maxRetries. apply Hnever. left.
    destruct field as [[|c f]|]; reflexivity.
  - intros. apply Hnever. left. reflexivity.
  - intros. apply Hnever. right. discriminate.
  - intros message moduleId code fresh maxRetries. repeat split.
    simpl. unfold shouldRetry. simpl. rewrite andb_false_r. reflexivity.
Qed.

Lemma own_property_listed (key v : string) (o : list (string * string)) :
  own_property key o = Some v -> (key, v) ∈ o.
Proof.
  induction o as [|[k x] o IH]; simpl; [discriminate|].
  destruct (String.eqb_spec k key) as [-> | _].
  - intros [= ->]. left.
  - intros H. right. exact (IH H).
Qed.

Lemma inherited_key (key : string) :
  existsb (String.eqb key) object_prototype_keys = true <-> key ∈ object_prototype_keys.
Proof.
  rewrite existsb_exists. split.
  - intros (x & Hin & Heq). apply String.eqb_eq in Heq. subst x.
    apply list_elem_of_In. exact Hin.
  - intros Hin. exists key. split; [apply list_elem_of_In, Hin | apply String.eqb_refl].
Qed.

(** No text of the table is empty, and no name of [Object.prototype] is a
    code of the table. *)
Lemma userMessages_texts : Forall (fun kv => snd kv <> "") userMessages.
Proof. repeat constructor; discriminate. Qed.

Lemma prototype_keys_not_listed :
  Forall (fun k => own_property k userMessages = None) object_prototype_keys.
Proof. repeat constructor. Qed.

(** [toUserMessage()] of an error whose code is not the name of a member of
    [Object.prototype] is one of the fifteen texts of the table: the text
    listed for the code, or ['Something went wrong. Please try again.'] for a
    code the table does not list; the message, module and context of the
    error play no part.  For a code such as ['constructor'] or ['toString']
    the lookup finds the inherited member and [toUserMessage()] returns that
    member, not a text. *)
Theorem toUserMessage_is_a_table_text :
  (forall e, code e ∉ object_prototype_keys ->
     exists s, toUserMessage e = Text s
               /\ s ∈ map snd userMessages
               /\ (own_property (code e) userMessages = None ->
                   s = "Something went wrong. Please try again."))
  /\ (forall e, code e ∈ object_prototype_keys -> toUserMessage e = Inherited (code e)).
Proof.
  split.
  - intros e Hno. unfold toUserMessage, property.
    destruct (own_property (code e) userMessages) as [v|] eqn:E.
    + apply own_property_listed in E.
      exists v. split; [|split; [|discriminate]].
      * pose proof userMessages_texts as Hall. rewrite Forall_forall in Hall.
        specialize (Hall _ E). destruct v; [contradiction | reflexivity].
      * apply list_elem_of_fmap. exists (code e, v). split; [reflexivity | exact E].
    + destruct (existsb (String.eqb (code e)) object_prototype_keys) eqn:Ep.
      * apply inherited_key in Ep. contradiction.
      * eexists. split; [reflexivity|]. split; [|reflexivity].
        apply list_elem_of_fmap. eexists (_, _). split; [reflexivity|].
        unfold userMessages. do 14 apply list_elem_of_further. apply list_elem_of_here.
  - intros e Hin. unfold toUserMessage, property.
    pose proof prototype_keys_not_listed as Hall. rewrite Forall_forall in Hall.
    rewrite (Hall _ Hin). apply inherited_key in Hin. rewrite Hin. reflexivity.
Qed.

(** A code of the table, a code the table does not know, and the code
    ['toString']. *)
Lemma toUserMessage_is_a_table_text_witness :
  (exists s, toUserMessage (createError_critical "db down" "AUTH_MODULE" "AUTH_MODULE_2")
             = Text s
             /\ s ∈ map snd userMessages
             /\ (own_property "CRITICAL_ERROR" userMessages = None ->
                 s = "Something went wrong. Please try again."))
  /\ toUserMessage (createError_auth "toString" "x" None "AUTH_SERVICE_3")
     = Inherited "toString".
Proof.
  split.
  - apply (proj1 toUserMessage_is_a_table_text
             (createError_critical "db down" "AUTH_MODULE" "AUTH_MODULE_2")).
    intros H. apply inherited_key in H. discriminate.
  - apply (proj2 toUserMessage_is_a_table_text
             (createError_auth "toString" "x" None "AUTH_SERVICE_3")).
    apply inherited_key. reflexivity.
Defined.

End ErrorProperties.

(** * Further properties: feature flags *)

Section MoreFlagProperties.

Import FeatureFlags FlagExamples.

Local Open Scope Z_scope.

(** ** hashUserId *)

Lemma ToInt32_range (z : Z) : - 2 ^ 31 <= ToInt32 z < 2 ^ 31.
Proof.
  unfold ToInt32. pose proof (Z.mod_pos_bound z (2 ^ 32) ltac:(lia)) as H.
  destruct (2 ^ 31 <=? z mod 2 ^ 32) eqn:E.
  - apply Z.leb_le in E. lia.
  - apply Z.leb_gt in E. lia.
Qed.

Lemma ToInt32_mod (z : Z) : ToInt32 z mod 2 ^ 32 = z mod 2 ^ 32.
Proof.
  unfold ToInt32. destruct (2 ^ 31 <=? z mod 2 ^ 32).
  - rewrite Zminus_mod, Z.mod_same, Z.sub_0_r, !Z.mod_mod by lia. reflexivity.
  - apply Z.mod_mod. lia.
Qed.

Lemma ToInt32_congruent (a b : Z) : a mod 2 ^ 32 = b mod 2 ^ 32 -> ToInt32 a = ToInt32 b.
Proof. unfold ToInt32. intros ->. reflexivity. Qed.

Lemma ToInt32_small (z : Z) : - 2 ^ 31 <= z < 2 ^ 31 -> ToInt32 z = z.
Proof.
  intros H. unfold ToInt32. destruct (Z.neg_nonneg_cases z) as [Hneg | Hpos].
  - assert (E : z mod 2 ^ 32 = z + 2 ^ 32).
    { symmetry. apply (Z.mod_unique z (2 ^ 32) (-1)); lia. }
    rewrite E. destruct (2 ^ 31 <=? z + 2 ^ 32) eqn:L; [lia|].
    apply Z.leb_gt in L. lia.
  - rewrite Z.mod_small by lia.
    destruct (2 ^ 31 <=? z) eqn:L; [apply Z.leb_le in L; lia | reflexivity].
Qed.

(** One round of the loop is [31 * hash + char] in 32-bit arithmetic. *)
Lemma ToInt32_shift (z : Z) : exists k, ToInt32 z = z + k * 2 ^ 32.
Proof.
  unfold ToInt32. pose proof (Z.div_mod z (2 ^ 32) ltac:(lia)) as H.
  destruct (2 ^ 31 <=? z mod 2 ^ 32).
  - exists (- (z / 2 ^ 32) - 1). lia.
  - exists (- (z / 2 ^ 32)). lia.
Qed.

Lemma hash_round (h c : Z) :
  band (shl h 5 - h + c) (shl h 5 - h + c) = ToInt32 (31 * h + c).
Proof.
  unfold band. rewrite Z.land_diag. apply ToInt32_congruent.
  unfold shl. rewrite Z.shiftl_mul_pow2 by lia.
  destruct (ToInt32_shift h) as [k1 ->].
  destruct (ToInt32_shift ((h + k1 * 2 ^ 32) * 2 ^ 5)) as [k2 ->].
  replace ((h + k1 * 2 ^ 32) * 2 ^ 5 + k2 * 2 ^ 32 - h + c)
    with (31 * h + c + (k1 * 2 ^ 5 + k2) * 2 ^ 32) by lia.
  apply Z_mod_plus_full.
Qed.

Lemma horner31_congruent (str : string) :
  forall a b, a mod 2 ^ 32 = b mod 2 ^ 32 ->
              horner31 str a mod 2 ^ 32 = horner31 str b mod 2 ^ 32.
Proof.
  induction str as [|c str IH]; intros a b H; simpl; [exact H|].
  apply IH. rewrite Zplus_mod, Zmult_mod, H, <- Zmult_mod, <- Zplus_mod. reflexivity.
Qed.

Lemma hash_loop_horner (str : string) :
  forall h, - 2 ^ 31 <= h < 2 ^ 31 -> hash_loop str h = ToInt32 (horner31 str h).
Proof.
  induction str as [|c str IH]; intros h Hh; simpl.
  - symmetry. apply ToInt32_small, Hh.
  - rewrite hash_round. rewrite IH by apply ToInt32_range.
    apply ToInt32_congruent, horner31_congruent, ToInt32_mod.
Qed.

(** [hashUserId(userId, flagName)] is the absolute value of the polynomial
    hash with multiplier 31 of [userId + '_' + flagName], reduced to a signed
    32-bit integer; it lies between 0 and 2^31 inclusive (2^31 when the
    32-bit hash is the least integer), and the bucket [hash % 100] lies
    between 0 and 99. *)
Theorem hashUserId_is_the_31_hash (uid flagName : string) :
  hashUserId uid flagName
  = Z.abs (ToInt32 (horner31 (uid +:+ "_" +:+ flagName) 0))
  /\ 0 <= hashUserId uid flagName <= 2 ^ 31
  /\ 0 <= Z.rem (hashUserId uid flagName) 100 < 100.
Proof.
  unfold hashUserId. rewrite hash_loop_horner by lia.
  pose proof (ToInt32_range (horner31 (uid +:+ "_" +:+ flagName) 0)) as H.
  split; [reflexivity|]. split; [lia|].
  apply Z.rem_bound_pos; lia.
Qed.

Local Close Scope Z_scope.

(** ** Rollout percentage *)

(** The rollout step lets through at least as many users when the
    percentage grows. *)
Lemma rollout_widened (m1 m2 : FeatureFlagsManager) (flagName : string)
    (c1 c2 : FeatureFlagConfig) (p p' : Z) :
  userContext m1 = userContext m2 ->
  rolloutPercentage c1 = Some p -> rolloutPercentage c2 = Some p' -> (p <= p')%Z ->
  rollout m1 flagName c1 = true -> rollout m2 flagName c2 = true.
Proof.
  unfold rollout. intros <- -> -> Hle.
  destruct (p <? 100)%Z eqn:Ep, (p' <? 100)%Z eqn:Ep'; try reflexivity.
  - destruct (truthy_userId (userContext m1)); [|discriminate].
    rewrite !Z.ltb_lt. lia.
  - apply Z.ltb_ge in Ep. apply Z.ltb_lt in Ep'. lia.
Qed.

Lemma isEnabled_rollout_widened (m : FeatureFlagsManager) (g : string)
    (c : FeatureFlagConfig) (p p' : Z) (now : Z) :
  flags m !! g = Some c -> rolloutPercentage c = Some p -> (p <= p')%Z ->
  forall fuel flagName,
    isEnabled fuel m now flagName = Some true ->
    isEnabled fuel (updateFlag g (just_rollout p') m) now flagName = Some true.
Proof.
  intros Hc Hp Hle. induction fuel as [|fuel IH]; intros flagName H; [discriminate|].
  rewrite isEnabled_S in H. rewrite isEnabled_S.
  cbn [updateFlag flags]. rewrite Hc. cbn [default from_option id].
  destruct (decide (flagName = g)) as [-> | Hne].
  - rewrite lookup_insert_eq. rewrite Hc in H.
    destruct (is_core g); [reflexivity|].
    cbn [spread enabled just_rollout p_enabled default from_option id].
    destruct (negb (enabled c)); [discriminate|].
    replace (in_window now (spread c (just_rollout p'))) with (in_window now c) by reflexivity.
    destruct (negb (in_window now c)); [discriminate|].
    cbn [spread dependencies just_rollout p_dependencies override] in *.
    destruct (all_enabled (isEnabled fuel m now) (default [] (dependencies c)))
      as [[|]|] eqn:E; try discriminate.
    apply all_enabled_true in E.
    assert (E' : all_enabled (isEnabled fuel (updateFlag g (just_rollout p') m) now)
                   (default [] (dependencies c)) = Some true).
    { apply all_enabled_true. eapply Forall_impl; [exact E|]. intros d. apply IH. }
    rewrite E'.
    replace (segments_ok (updateFlag g (just_rollout p') m) (spread c (just_rollout p')))
      with (segments_ok m c) by reflexivity.
    destruct (negb (segments_ok m c)); [discriminate|].
    f_equal. inversion H as [Hr]. rewrite Hr.
    apply (rollout_widened m _ g c _ p p'); auto.
  - rewrite lookup_insert_ne by congruence.
    destruct (flags m !! flagName) as [config|]; [|discriminate].
    destruct (is_core flagName); [reflexivity|].
    destruct (negb (enabled config)); [discriminate|].
    destruct (negb (in_window now config)); [discriminate|].
    destruct (all_enabled (isEnabled fuel m now) (default [] (dependencies config)))
      as [[|]|] eqn:E; try discriminate.
    apply all_enabled_true in E.
    assert (E' : all_enabled (isEnabled fuel (updateFlag g (just_rollout p') m) now)
                   (default [] (dependencies config)) = Some true).
    { apply all_enabled_true. eapply Forall_impl; [exact E|]. intros d. apply IH. }
    rewrite E'. exact H.
Qed.


Lemma all_enabled_lowered (c1 c2 : string -> option bool) (deps : list string) (b : bool) :
  (forall d r, c1 d = Some r -> exists r', c2 d = Some r' /\ (r = false -> r' = false)) ->
  all_enabled c1 deps = Some b ->
  exists b', all_enabled c2 deps = Some b' /\ (b = false -> b' = false).
Proof.
  intros Hc. induction deps as [|d deps IH]; simpl; intros H.
  - exists b. split; [exact H | tauto].
  - destruct (c1 d) as [[|]|] eqn:E; try discriminate.
    + destruct (Hc _ _ E) as ([|] & -> & _); [exact (IH H)|].
      exists false. split; reflexivity.
    + destruct (Hc _ _ E) as (r' & -> & Hr'). rewrite (Hr' eq_refl).
      exists false. split; reflexivity.
Qed.

Lemma isEnabled_rollout_narrowed (m : FeatureFlagsManager) (g : string)
    (c : FeatureFlagConfig) (p p' : Z) (now : Z) :
  flags m !! g = Some c -> rolloutPercentage c = Some p -> (p' <= p)%Z ->
  forall fuel flagName b,
    isEnabled fuel m now flagName = Some b ->
    exists b', isEnabled fuel (updateFlag g (just_rollout p') m) now flagName = Some b'
               /\ (b = false -> b' = false).
Proof.
  intros Hc Hp Hle. induction fuel as [|fuel IH]; intros flagName b H; [discriminate|].
  rewrite isEnabled_S in H. rewrite isEnabled_S.
  cbn [updateFlag flags]. rewrite Hc. cbn [default from_option id].
  assert (Hdeps : forall deps r,
             all_enabled (isEnabled fuel m now) deps = Some r ->
             exists r', all_enabled (isEnabled fuel (updateFlag g (just_rollout p') m) now) deps
                        = Some r' /\ (r = false -> r' = false)).
  { intros deps r. apply all_enabled_lowered. intros d r0. apply IH. }
  destruct (decide (flagName = g)) as [-> | Hne].
  - rewrite lookup_insert_eq. rewrite Hc in H.
    destruct (is_core g); [exists b; split; [exact H | tauto]|].
    cbn [spread enabled just_rollout p_enabled default from_option id].
    destruct (negb (enabled c)); [exists b; split; [exact H | tauto]|].
    replace (in_window now (spread c (just_rollout p'))) with (in_window now c) by reflexivity.
    destruct (negb (in_window now c)); [exists b; split; [exact H | tauto]|].
    cbn [spread dependencies just_rollout p_dependencies override] in *.
    destruct (all_enabled (isEnabled fuel m now) (default [] (dependencies c)))
      as [r|] eqn:E; [|discriminate].
    destruct (Hdeps _ _ E) as (r' & -> & Hr').
    destruct r'; [|exists false; split; [reflexivity | reflexivity]].
    destruct r; [|discriminate (Hr' eq_refl)].
    replace (segments_ok (updateFlag g (just_rollout p') m) (spread c (just_rollout p')))
      with (segments_ok m c) by reflexivity.
    destruct (negb (segments_ok m c)); [exists b; split; [exact H | tauto]|].
    eexists. split; [reflexivity|]. intros ->. injection H as Hr.
    destruct (rollout (updateFlag g (just_rollout p') m) g (spread c (just_rollout p')))
      eqn:R; [|reflexivity].
    rewrite <- Hr. symmetry.
    apply (rollout_widened (updateFlag g (just_rollout p') m) m g
             (spread c (just_rollout p')) c p' p); auto.
  - rewrite lookup_insert_ne by congruence.
    destruct (flags m !! flagName) as [config|]; [|exists b; split; [exact H | tauto]].
    destruct (is_core flagName); [exists b; split; [exact H | tauto]|].
    destruct (negb (enabled config)); [exists b; split; [exact H | tauto]|].
    destruct (negb (in_window now config)); [exists b; split; [exact H | tauto]|].
    destruct (all_enabled (isEnabled fuel m now) (default [] (dependencies config)))
      as [r|] eqn:E; [|discriminate].
    destruct (Hdeps _ _ E) as (r' & -> & Hr').
    destruct r'; [|exists false; split; [reflexivity | reflexivity]].
    destruct r; [|discriminate (Hr' eq_refl)].
    exists b. split; [exact H | tauto].
Qed.

(** Raising the [rolloutPercentage] of a flag never switches off a flag that
    evaluated to [true] (the flag itself or one that depends on it), and
    lowering it never switches on a flag that evaluated to [false]: that
    evaluation still returns, with [false]. *)
Theorem rolloutPercentage_is_monotone (m : FeatureFlagsManager) (g : string)
    (c : FeatureFlagConfig) (p p' : Z) (now : Z) (fuel : nat) (flagName : string) :
  flags m !! g = Some c -> rolloutPercentage c = Some p ->
  ((p <= p')%Z -> isEnabled fuel m now flagName = Some true ->
   isEnabled fuel (updateFlag g (just_rollout p') m) now flagName = Some true)
  /\ ((p' <= p)%Z -> isEnabled fuel m now flagName = Some false ->
      isEnabled fuel (updateFlag g (just_rollout p') m) now flagName = Some false).
Proof.
  intros Hc Hp. split.
  - intros Hle. apply (isEnabled_rollout_widened m g c p p' now Hc Hp Hle).
  - intros Hle H.
    destruct (isEnabled_rollout_narrowed m g c p p' now Hc Hp Hle fuel flagName false H)
      as (b' & -> & Hb'). rewrite (Hb' eq_refl). reflexivity.
Qed.


Lemma rolloutPercentage_is_monotone_witness :
  let m := setUserContext user_42 (half_rollout None) in
  isEnabled 2 m 0 "NEW_DASHBOARD_UI" = Some true
  /\ isEnabled 2 (updateFlag "NEW_DASHBOARD_UI" (just_rollout 80) m) 0 "NEW_DASHBOARD_UI"
     = Some true.
Proof.
  intros m. assert (H : isEnabled 2 m 0 "NEW_DASHBOARD_UI" = Some true) by (vm_compute; reflexivity).
  split; [exact H|].
  refine (proj1 (rolloutPercentage_is_monotone m "NEW_DASHBOARD_UI"
            (default only_disabled (flags m !! "NEW_DASHBOARD_UI")) 50 80 0 2
            "NEW_DASHBOARD_UI" _ _) _ H).
  - vm_compute. reflexivity.
  - vm_compute. reflexivity.
  - lia.
Defined.

(** ** Error counters *)

Lemma updateFlag_errorCounts (flagName : string) (config : PartialConfig)
    (m : FeatureFlagsManager) :
  errorCounts (updateFlag flagName config m) = errorCounts m.
Proof. reflexivity. Qed.







(** ** Reports in a row *)

Lemma set_errorCounts_twice (f g : gmap string nat -> gmap string nat)
    (m : FeatureFlagsManager) :
  set_errorCounts f (set_errorCounts g m) = set_errorCounts (fun c => f (g c)) m.
Proof. reflexivity. Qed.





(** ** Subscribing and unsubscribing *)

Lemma subscriptions_cons (l x : Listener) (ls : list Listener) :
  subscriptions l (x :: ls)
  = (if decide (x = l) then 1 else 0) + subscriptions l ls.
Proof.
  unfold subscriptions. rewrite filter_cons.
  destruct (decide (x = l)); reflexivity.
Qed.

Lemma subscriptions_app (l : Listener) (l1 l2 : list Listener) :
  subscriptions l (l1 ++ l2) = subscriptions l l1 + subscriptions l l2.
Proof. unfold subscriptions. rewrite filter_app, length_app. reflexivity. Qed.

(** [splice] at the first index of the callback removes one subscription of
    it and none of another. *)
Lemma remove_first_subscriptions (callback l : Listener) (ls : list Listener) :
  subscriptions l (remove_first callback ls)
  = if decide (l = callback) then pred (subscriptions l ls) else subscriptions l ls.
Proof.
  induction ls as [|x ls IH]; simpl.
  - destruct (decide (l = callback)); reflexivity.
  - destruct (Nat.eqb_spec x callback) as [-> | Hne].
    + rewrite subscriptions_cons. destruct (decide (l = callback)) as [-> | Hl].
      * rewrite decide_True by reflexivity. reflexivity.
      * rewrite decide_False by congruence. reflexivity.
    + rewrite !subscriptions_cons, IH. destruct (decide (l = callback)) as [-> | Hl].
      * rewrite decide_False by congruence. reflexivity.
      * reflexivity.
Qed.

Lemma remove_first_app_present (callback : Listener) (l1 l2 : list Listener) :
  callback ∈ l1 -> remove_first callback (l1 ++ l2) = remove_first callback l1 ++ l2.
Proof.
  induction l1 as [|x l1 IH]; intros Hin; [inversion Hin|]. simpl.
  destruct (Nat.eqb_spec x callback) as [-> | Hne]; [reflexivity|].
  rewrite IH; [reflexivity|]. inversion Hin; subst; [congruence | assumption].
Qed.

Lemma remove_first_app_absent (callback : Listener) (l1 l2 : list Listener) :
  callback ∉ l1 -> remove_first callback (l1 ++ l2) = l1 ++ remove_first callback l2.
Proof.
  induction l1 as [|x l1 IH]; intros Hnot; [reflexivity|]. simpl.
  destruct (Nat.eqb_spec x callback) as [-> | Hne].
  - exfalso. apply Hnot. left.
  - rewrite IH; [reflexivity|]. intros Hin. apply Hnot. right. exact Hin.
Qed.

Lemma unsubscribe_listeners (flagName callback_flag : string) (callback : Listener)
    (m : FeatureFlagsManager) :
  listeners_of flagName (unsubscribe callback_flag callback m)
  = if decide (flagName = callback_flag)
    then remove_first callback (listeners_of flagName m)
    else listeners_of flagName m.
Proof.
  unfold listeners_of, unsubscribe.
  destruct (decide (flagName = callback_flag)) as [-> | Hne].
  - destruct (listeners m !! callback_flag) as [ls|] eqn:E.
    + cbn [set_listeners listeners]. rewrite lookup_insert_eq. reflexivity.
    + rewrite E. reflexivity.
  - destruct (listeners m !! callback_flag) as [ls|] eqn:E; [|reflexivity].
    cbn [set_listeners listeners]. rewrite lookup_insert_ne by congruence. reflexivity.
Qed.

Lemma onFlagChange_listeners (flagName callback_flag : string) (callback : Listener)
    (m : FeatureFlagsManager) :
  listeners_of flagName (onFlagChange callback_flag callback m)
  = if decide (flagName = callback_flag)
    then listeners_of flagName m ++ [callback]
    else listeners_of flagName m.
Proof.
  unfold listeners_of, onFlagChange. cbn [set_listeners listeners].
  destruct (decide (flagName = callback_flag)) as [-> | Hne].
  - rewrite lookup_insert_eq. reflexivity.
  - rewrite lookup_insert_ne by congruence. reflexivity.
Qed.

(** The function returned by [onFlagChange(flagName, callback)] removes the
    earliest subscription of [callback] for [flagName], keeping the others
    in order: each call of it takes away one subscription of that callback
    (none when there is none left), never one of another callback or of
    another flag.  Called right after subscribing, it restores the listener
    array when the callback was not subscribed before; when it was, the
    older subscription goes and the new one stays at the end. *)
Theorem unsubscribe_removes_earliest_subscription (m : FeatureFlagsManager)
    (flagName : string) (callback : Listener) :
  (forall g l,
      subscriptions l (listeners_of g (unsubscribe flagName callback m))
      = if decide (g = flagName /\ l = callback)
        then pred (subscriptions l (listeners_of g m))
        else subscriptions l (listeners_of g m))
  /\ (callback ∉ listeners_of flagName m ->
      listeners_of flagName (unsubscribe flagName callback (onFlagChange flagName callback m))
      = listeners_of flagName m)
  /\ (callback ∈ listeners_of flagName m ->
      listeners_of flagName (unsubscribe flagName callback (onFlagChange flagName callback m))
      = remove_first callback (listeners_of flagName m) ++ [callback])
  /\ flags (unsubscribe flagName callback m) = flags m
  /\ calls (unsubscribe flagName callback m) = calls m.
Proof.
  split; [|split; [|split; [|split]]].
  - intros g l. rewrite unsubscribe_listeners.
    destruct (decide (g = flagName)) as [-> | Hg].
    + rewrite remove_first_subscriptions. destruct (decide (l = callback)) as [-> | Hl].
      * rewrite decide_True by (split; reflexivity). reflexivity.
      * rewrite decide_False by tauto. reflexivity.
    + rewrite decide_False by tauto. reflexivity.
  - intros Hnot. rewrite unsubscribe_listeners, onFlagChange_listeners.
    rewrite !decide_True by reflexivity.
    rewrite remove_first_app_absent by exact Hnot. simpl.
    rewrite Nat.eqb_refl. apply app_nil_r.
  - intros Hin. rewrite unsubscribe_listeners, onFlagChange_listeners.
    rewrite !decide_True by reflexivity.
    apply remove_first_app_present, Hin.
  - unfold unsubscribe. destruct (listeners m !! flagName); reflexivity.
  - unfold unsubscribe. destruct (listeners m !! flagName); reflexivity.
Qed.

(** ** getEnabledFlags *)

Lemma getEnabledFlags_loop_lookup (fuel : nat) (m : FeatureFlagsManager) (now : Z)
    (names : list string) :
  forall enabledFlags obj,
    getEnabledFlags_loop fuel m now names enabledFlags = Some obj ->
    forall name,
      obj !! name = if decide (name ∈ names) then listed_value fuel m now name
                    else enabledFlags !! name.
Proof.
  induction names as [|n names IH]; intros acc obj H name.
  - injection H as <-. rewrite decide_False by (intros Hin; inversion Hin). reflexivity.
  - cbn [getEnabledFlags_loop] in H.
    assert (Hstep : exists v, listed_value fuel m now n = Some v
                              /\ getEnabledFlags_loop fuel m now names (<[n := v]> acc)
                                 = Some obj).
    { unfold listed_value. destruct (is_core n).
      - exists true. split; [reflexivity | exact H].
      - destruct (isEnabled fuel m now n) as [b|]; [|discriminate].
        exists b. split; [reflexivity | exact H]. }
    destruct Hstep as (v & Hv & Hrest).
    rewrite (IH _ _ Hrest name).
    destruct (decide (name ∈ names)) as [Hin | Hnot].
    + rewrite decide_True by (right; exact Hin). reflexivity.
    + destruct (decide (name = n)) as [-> | Hne].
      * rewrite decide_True by left. rewrite lookup_insert_eq. symmetry. exact Hv.
      * rewrite decide_False by (intros Hin; inversion Hin; subst; tauto).
        rewrite lookup_insert_ne by congruence. reflexivity.
Qed.

Lemma getEnabledFlags_loop_listed (fuel : nat) (m : FeatureFlagsManager) (now : Z)
    (names : list string) :
  forall enabledFlags obj,
    getEnabledFlags_loop fuel m now names enabledFlags = Some obj ->
    forall name, name ∈ names -> is_Some (listed_value fuel m now name).
Proof.
  induction names as [|n names IH]; intros acc obj H name Hin; [inversion Hin|].
  cbn [getEnabledFlags_loop] in H. unfold listed_value in *.
  destruct (is_core n) eqn:Hn.
  - inversion Hin; subst; [rewrite Hn; eexists; reflexivity | exact (IH _ _ H name H2)].
  - destruct (isEnabled fuel m now n) as [b|] eqn:Hb; [|discriminate].
    inversion Hin; subst; [rewrite Hn, Hb; eexists; reflexivity | exact (IH _ _ H name H2)].
Qed.

Lemma getEnabledFlags_loop_none (fuel : nat) (m : FeatureFlagsManager) (now : Z)
    (names : list string) :
  forall enabledFlags,
    getEnabledFlags_loop fuel m now names enabledFlags = None ->
    exists n, n ∈ names /\ is_core n = false /\ isEnabled fuel m now n = None.
Proof.
  induction names as [|n names IH]; intros acc H; [discriminate|].
  cbn [getEnabledFlags_loop] in H. destruct (is_core n) eqn:Hn.
  - destruct (IH _ H) as (n' & Hin & Hc & Hnone). exists n'.
    split; [right; exact Hin | split; assumption].
  - destruct (isEnabled fuel m now n) as [b|] eqn:Hb.
    + destruct (IH _ H) as (n' & Hin & Hc & Hnone). exists n'.
      split; [right; exact Hin | split; assumption].
    + exists n. split; [left | split; assumption].
Qed.

(** [getEnabledFlags] returns unless [isEnabled] does not return for one of
    the 29 names of its list.  The object it returns has exactly those names
    as keys, whatever flags the manager holds: a flag created at run time by
    [updateFlag] is never reported.  A core name maps to [true]; another
    listed name maps to what [isEnabled] returns for it. *)
Theorem getEnabledFlags_reports_the_listed_names (fuel : nat) (m : FeatureFlagsManager)
    (now : Z) (name : string) :
  match getEnabledFlags fuel m now with
  | Some obj =>
      obj !! name = (if decide (name ∈ flagNames)
                     then if is_core name then Some true else isEnabled fuel m now name
                     else None)
      /\ (is_Some (obj !! name) <-> name ∈ flagNames)
  | None =>
      exists n, n ∈ flagNames /\ is_core n = false /\ isEnabled fuel m now n = None
  end.
Proof.
  rewrite getEnabledFlags_unfold.
  destruct (getEnabledFlags_loop fuel m now flagNames ∅) as [obj|] eqn:H.
  - pose proof (getEnabledFlags_loop_lookup fuel m now flagNames ∅ obj H name) as Hl.
    pose proof (getEnabledFlags_loop_listed fuel m now flagNames ∅ obj H name) as Hs.
    rewrite lookup_empty in Hl. fold (listed_value fuel m now name).
    split; [exact Hl|]. rewrite Hl.
    destruct (decide (name ∈ flagNames)) as [Hin | Hnot].
    + split; [intros _; exact Hin | exact Hs].
    + split; [intros [v Hv]; discriminate | tauto].
  - exact (getEnabledFlags_loop_none fuel m now flagNames ∅ H).
Qed.

(** ** User segments *)

Lemma segments_ok_no_context (m : FeatureFlagsManager) (config : FeatureFlagConfig) :
  userContext m = None -> segments_ok m config = true.
Proof. unfold segments_ok. intros ->. destruct (userSegments config); reflexivity. Qed.

Lemma isEnabled_segments_no_context (m : FeatureFlagsManager) (g : string)
    (c : FeatureFlagConfig) (segs : list string) (now : Z) :
  userContext m = None -> flags m !! g = Some c ->
  forall fuel flagName,
    isEnabled fuel (updateFlag g (just_segments segs) m) now flagName
    = isEnabled fuel m now flagName.
Proof.
  intros Hu Hc. induction fuel as [|fuel IH]; intros flagName; [reflexivity|].
  rewrite !isEnabled_S. cbn [updateFlag flags]. rewrite Hc. cbn [default from_option id].
  destruct (decide (flagName = g)) as [-> | Hne].
  - rewrite lookup_insert_eq, Hc.
    cbn [spread enabled dependencies just_segments p_enabled p_dependencies override
         default from_option id].
    replace (in_window now (spread c (just_segments segs))) with (in_window now c)
      by reflexivity.
    rewrite (all_enabled_ext _ _ _ IH).
    rewrite !segments_ok_no_context by exact Hu. reflexivity.
  - rewrite lookup_insert_ne by congruence.
    destruct (flags m !! flagName) as [config|]; [|reflexivity].
    rewrite (all_enabled_ext _ _ _ IH). reflexivity.
Qed.

Lemma isEnabled_segment_mismatch (m : FeatureFlagsManager) (ctx : UserContext)
    (flagName : string) (c : FeatureFlagConfig) (segs : list string) (now : Z) (fuel : nat) :
  userContext m = Some ctx -> flags m !! flagName = Some c -> userSegments c = Some segs ->
  is_core flagName = false ->
  Forall (fun s => segment_matches ctx s = false) segs ->
  isEnabled fuel m now flagName <> Some true.
Proof.
  intros Hu Hc Hs Hcore Hall. destruct fuel as [|fuel]; [discriminate|].
  rewrite isEnabled_S, Hc, Hcore.
  destruct (negb (enabled c)); [discriminate|].
  destruct (negb (in_window now c)); [discriminate|].
  destruct (all_enabled _ _) as [[|]|]; try discriminate.
  assert (Hseg : segments_ok m c = false).
  { unfold segments_ok. rewrite Hs, Hu. clear -Hall.
    induction Hall as [|s segs Hs _ IH]; simpl; [reflexivity|]. rewrite Hs. exact IH. }
  rewrite Hseg. discriminate.
Qed.

(** [userSegments] restricts a flag only while a user context is set.
    Without one, changing the segments of a flag changes no answer of
    [isEnabled]: a flag reserved to a segment is on for a session with no
    context.  With a context that matches none of the flag's segments (a
    segment other than ['paid'], ['admin'], ['developer'] matches nobody, and
    an empty segment list matches nobody), a flag that is not a core flag is
    never enabled. *)
Theorem userSegments_apply_only_with_a_user_context (m : FeatureFlagsManager)
    (flagName : string) (now : Z) (fuel : nat) :
  (userContext m = None ->
   forall g c segs, flags m !! g = Some c ->
     isEnabled fuel (updateFlag g (just_segments segs) m) now flagName
     = isEnabled fuel m now flagName)
  /\ (forall ctx c segs,
        userContext m = Some ctx -> flags m !! flagName = Some c ->
        userSegments c = Some segs -> is_core flagName = false ->
        Forall (fun s => segment_matches ctx s = false) segs ->
        isEnabled fuel m now flagName <> Some true).
Proof.
  split.
  - intros Hu g c segs Hc. apply (isEnabled_segments_no_context m g c segs now Hu Hc).
  - intros ctx c segs Hu Hc Hs Hcore Hall.
    exact (isEnabled_segment_mismatch m ctx flagName c segs now fuel Hu Hc Hs Hcore Hall).
Qed.

(** [ADMIN_PANEL] on a fresh manager: on with no user context, off for a
    signed-in user who is not an administrator. *)
Lemma userSegments_apply_only_with_a_user_context_witness :
  isEnabled 2 (new None) 0 "ADMIN_PANEL" = Some true
  /\ isEnabled 2 (updateFlag "ADMIN_PANEL" (just_segments []) (new None)) 0 "ADMIN_PANEL"
     = Some true
  /\ isEnabled 2 (setUserContext user_42 (new None)) 0 "ADMIN_PANEL" <> Some true.
Proof.
  split; [vm_compute; reflexivity|]. split.
  - rewrite (proj1 (userSegments_apply_only_with_a_user_context (new None) "ADMIN_PANEL" 0 2)
               eq_refl "ADMIN_PANEL" (default only_disabled (flags (new None) !! "ADMIN_PANEL")) []).
    + vm_compute. reflexivity.
    + vm_compute. reflexivity.
  - apply (proj2 (userSegments_apply_only_with_a_user_context
                    (setUserContext user_42 (new None)) "ADMIN_PANEL" 0 2)
             user_42 (default only_disabled (flags (new None) !! "ADMIN_PANEL")) ["admin"]).
    + reflexivity.
    + vm_compute. reflexivity.
    + vm_compute. reflexivity.
    + reflexivity.
    + repeat constructor.
Defined.

(** ** Successive updates *)



(** ** Dependencies that form a cycle *)

Lemma isEnabled_waits_for_first_dependency (m : FeatureFlagsManager) (now : Z)
    (fuel : nat) (a b : string) (ca : FeatureFlagConfig) (rest : list string) :
  flags m !! a = Some ca -> is_core a = false -> enabled ca = true ->
  in_window now ca = true -> dependencies ca = Some (b :: rest) ->
  isEnabled fuel m now b = None ->
  isEnabled (S fuel) m now a = None.
Proof.
  intros Ha Hcore Hen Hwin Hdeps Hb.
  rewrite isEnabled_S, Ha, Hcore, Hen, Hwin, Hdeps. cbn [negb default from_option id all_enabled].
  rewrite Hb. reflexivity.
Qed.

(** [isEnabled] does not guard against circular dependencies.  When two
    flags (or one flag twice) that are not core flags are enabled, inside
    their date windows, and each has the other as its first dependency,
    [isEnabled] of either recurses without bound: it returns for no budget.
    It is the checks made before the dependencies that stop the recursion: a
    flag that is missing, core, disabled or outside its window is answered
    without looking at any dependency. *)
Theorem isEnabled_on_a_dependency_cycle (m : FeatureFlagsManager) (now : Z)
    (a b : string) (ca cb : FeatureFlagConfig) (ra rb : list string) :
  flags m !! a = Some ca -> flags m !! b = Some cb ->
  dependencies ca = Some (b :: ra) -> dependencies cb = Some (a :: rb) ->
  (is_core a = false -> enabled ca = true -> in_window now ca = true ->
   is_core b = false -> enabled cb = true -> in_window now cb = true ->
   forall fuel, isEnabled fuel m now a = None /\ isEnabled fuel m now b = None)
  /\ (is_core a = true -> isEnabled 1 m now a = Some true)
  /\ (is_core a = false -> enabled ca && in_window now ca = false ->
      isEnabled 1 m now a = Some false)
  /\ (forall c, flags m !! c = None -> isEnabled 1 m now c = Some false).
Proof.
  intros Ha Hb Hda Hdb. split; [|split; [|split]].
  - intros Hca Hea Hwa Hcb Heb Hwb. induction fuel as [|fuel [IHa IHb]]; [split; reflexivity|].
    split.
    + exact (isEnabled_waits_for_first_dependency m now fuel a b ca ra Ha Hca Hea Hwa Hda IHb).
    + exact (isEnabled_waits_for_first_dependency m now fuel b a cb rb Hb Hcb Heb Hwb Hdb IHa).
  - intros Hca. rewrite isEnabled_S, Ha, Hca. reflexivity.
  - intros Hca Hoff. rewrite isEnabled_S, Ha, Hca.
    destruct (enabled ca); [|reflexivity]. cbn [andb negb] in *. rewrite Hoff. reflexivity.
  - intros c Hc. rewrite isEnabled_S, Hc. reflexivity.
Qed.

(** [STOCK_PRICING_API] depends on [STOCK_DONATIONS]; make the latter depend
    on the former. *)
Lemma isEnabled_on_a_dependency_cycle_witness :
  let m := updateFlag "STOCK_DONATIONS"
             (mkPartial None None None None None (Some ["STOCK_PRICING_API"]) None None)
             (new None) in
  forall_fuel_none m "STOCK_DONATIONS" /\ forall_fuel_none m "STOCK_PRICING_API".
Proof.
  intros m.
  assert (H : forall fuel, isEnabled fuel m 0 "STOCK_DONATIONS" = None
                           /\ isEnabled fuel m 0 "STOCK_PRICING_API" = None).
  { refine (proj1 (isEnabled_on_a_dependency_cycle m 0 "STOCK_DONATIONS" "STOCK_PRICING_API"
                     (default only_disabled (flags m !! "STOCK_DONATIONS"))
                     (default only_disabled (flags m !! "STOCK_PRICING_API"))
                     [] [] _ _ _ _) _ _ _ _ _ _);
      vm_compute; reflexivity. }
  split; intros fuel; apply H.
Defined.

End MoreFlagProperties.

(** * Further properties: the error isolator *)

Section MoreBoundaryProperties.

Import Errors ErrorBoundary BoundaryExamples.

(** ** Timers and the retry counter *)













(** ** Unmounting *)






(** ** Without automatic recovery *)



(** ** One automatic recovery *)




(** ** What an isolator reports *)







(** ** Faults that cannot be recovered *)




End MoreBoundaryProperties.

(** * Further properties: the service registry *)

Section MoreRegistryProperties.

Import Errors ServiceRegistry RegistryExamples.

(** ** resolveDependencyOrder is a topological sort *)

Lemma visit_S (fuel : nat) (l : list (string * ServiceRegistration)) (t : string) (w : Walk) :
  visit (S fuel) l t w =
    if bool_decide (t ∈ visited w) then Walked w
    else if bool_decide (t ∈ visiting w) then Circular t
    else
      match visit_all (visit fuel l) (deps_of l t)
              (mkWalk (visited w) ({[t]} ∪ visiting w) (order w)) with
      | Walked w =>
          Walked (mkWalk ({[t]} ∪ visited w) (visiting w ∖ {[t]}) (order w ++ [t]))
      | other => other
      end.
Proof. reflexivity. Qed.

(** What a loop of visits keeps, when each visit keeps it. *)
Lemma visit_all_keeps (P : Walk -> Prop) (R : Walk -> Walk -> Prop)
    (visit_ : string -> Walk -> WalkResult) (deps : list string) :
  (forall w, R w w) -> (forall w1 w2 w3, R w1 w2 -> R w2 w3 -> R w1 w3) ->
  (forall d w w', d ∈ deps -> P w -> visit_ d w = Walked w' -> P w' /\ R w w') ->
  forall w w', P w -> visit_all visit_ deps w = Walked w' -> P w' /\ R w w'.
Proof.
  intros Hrefl Htrans. induction deps as [|d deps IH]; intros Hstep w w' Hw H; simpl in H.
  - injection H as <-. auto.
  - destruct (visit_ d w) as [w1| |] eqn:Hd; try discriminate.
    destruct (Hstep d w w1 ltac:(left) Hw Hd) as [Hw1 HR1].
    destruct (IH (fun d' w0 w0' Hin => Hstep d' w0 w0' ltac:(right; exact Hin)) w1 w' Hw1 H)
      as [Hw' HR].
    split; [exact Hw' | exact (Htrans _ _ _ HR1 HR)].
Qed.

(** Each token of a loop of visits ends up visited, when each visit marks
    its token and unmarks none. *)
Lemma visit_all_visited (P : Walk -> Prop) (visit_ : string -> Walk -> WalkResult)
    (deps : list string) :
  (forall d w w', d ∈ deps -> P w -> visit_ d w = Walked w' ->
                  P w' /\ d ∈ visited w' /\ visited w ⊆ visited w') ->
  forall w w', P w -> visit_all visit_ deps w = Walked w' ->
               P w' /\ visited w ⊆ visited w' /\ forall d, d ∈ deps -> d ∈ visited w'.
Proof.
  induction deps as [|d deps IH]; intros Hstep w w' Hw H; simpl in H.
  - injection H as <-. split; [exact Hw|]. split; [reflexivity|]. intros d Hd. inversion Hd.
  - destruct (visit_ d w) as [w1| |] eqn:Hd; try discriminate.
    destruct (Hstep d w w1 ltac:(left) Hw Hd) as (Hw1 & Hin1 & Hsub1).
    destruct (IH (fun d' w0 w0' Hin => Hstep d' w0 w0' ltac:(right; exact Hin)) w1 w' Hw1 H)
      as (Hw' & Hsub & Hall).
    split; [exact Hw'|]. split; [set_solver|].
    intros x Hx. inversion Hx; subst; [set_solver | auto].
Qed.

(** A visit that returns leaves [visiting] as it found it. *)
Lemma visit_visiting (l : list (string * ServiceRegistration)) (fuel : nat) :
  forall t w w', visit fuel l t w = Walked w' -> visiting w' = visiting w.
Proof.
  induction fuel as [|fuel IH]; intros t w w' H; [discriminate|].
  rewrite visit_S in H.
  case_bool_decide as Hvis; [injection H as <-; reflexivity|].
  case_bool_decide as Hving; [discriminate|].
  destruct (visit_all _ _ _) as [w1| |] eqn:Hall; try discriminate.
  injection H as <-. cbn [visiting].
  destruct (visit_all_keeps (fun _ => True) (fun w1 w2 => visiting w2 = visiting w1)
              (visit fuel l) (deps_of l t)) with (4 := I) (5 := Hall) as [_ Hw1].
  - reflexivity.
  - intros; congruence.
  - intros d w0 w0' _ _ Hd. split; [exact I | exact (IH d w0 w0' Hd)].
  - rewrite Hw1. cbn [visiting]. apply set_eq. intros x. set_solver.
Qed.

Lemma lookup_service_registered (l : list (string * ServiceRegistration)) (t : string)
    (registration : ServiceRegistration) :
  lookup_service t l = Some registration -> t ∈ map fst l.
Proof.
  induction l as [|[k reg] l IH]; simpl; [discriminate|].
  destruct (String.eqb_spec k t) as [-> | Hne]; [intros _; left | intros H; right; auto].
Qed.

Lemma deps_of_known (l : list (string * ServiceRegistration)) (t d : string) :
  d ∈ deps_of l t -> d ∈ tokens_of l /\ t ∈ (map fst l).
Proof.
  intros Hd.
  assert (Ht : t ∈ map fst l).
  { unfold deps_of in Hd. destruct (lookup_service t l) as [reg|] eqn:E; [|inversion Hd].
    exact (lookup_service_registered l t reg E). }
  split; [|exact Ht]. apply elem_of_union_r, elem_of_union_list.
  exists (list_to_set (deps_of l t)). split.
  - apply list_elem_of_fmap. exists t. split; [reflexivity | exact Ht].
  - apply elem_of_list_to_set. exact Hd.
Qed.

Lemma registered_known (l : list (string * ServiceRegistration)) (t : string) :
  t ∈ map fst l -> t ∈ tokens_of l.
Proof. intros H. apply elem_of_union_l, elem_of_list_to_set, H. Qed.

Lemma visit_sound (l : list (string * ServiceRegistration)) (fuel : nat) :
  forall t w w',
    t ∈ tokens_of l -> walk_sound l w -> visit fuel l t w = Walked w' ->
    walk_sound l w' /\ t ∈ visited w' /\ visited w ⊆ visited w'.
Proof.
  induction fuel as [|fuel IH]; intros t w w' Hknown Hw H; [discriminate|].
  pose proof (visit_visiting l (S fuel) t w w' H) as Hving'.
  rewrite visit_S in H.
  case_bool_decide as Hvis; [injection H as <-; auto|].
  case_bool_decide as Hving; [discriminate|].
  destruct (visit_all _ _ _) as [w1| |] eqn:Hall; try discriminate.
  injection H as <-.
  destruct Hw as (Hvo & Htop & Hdis & Hkn).
  set (w0 := mkWalk (visited w) ({[t]} ∪ visiting w) (order w)) in *.
  assert (Hw0 : walk_sound l w0).
  { split; [exact Hvo|]. split; [exact Htop|]. split; [|exact Hkn].
    subst w0. cbn [visited visiting]. set_solver. }
  destruct (visit_all_visited
              (fun w => walk_sound l w /\ visiting w = visiting w0)
              (visit fuel l) (deps_of l t)) with (3 := Hall) as ([Hw1 Hv1] & Hsub & Hdeps).
  - intros d wa wb Hd [Hwa Hva] Hvisit.
    destruct (IH d wa wb (proj1 (deps_of_known l t d Hd)) Hwa Hvisit) as (Hwb & Hin & Hs).
    split; [|split; [exact Hin | exact Hs]]. split; [exact Hwb|].
    rewrite (visit_visiting l fuel d wa wb Hvisit). exact Hva.
  - split; [exact Hw0 | reflexivity].
  - destruct Hw1 as (Hvo1 & (Hnd1 & Hord1) & Hdis1 & Hkn1).
    subst w0. cbn [visited visiting order] in *.
    assert (Ht1 : t ∉ order w1).
    { rewrite <- Hvo1. set_solver. }
    split; [|split; [set_solver | set_solver]].
    split; [|split; [|split]]; cbn [visited visiting order].
    + intros x. rewrite elem_of_app, list_elem_of_singleton, <- Hvo1. set_solver.
    + split.
      * apply NoDup_app. split; [exact Hnd1|]. split; [|apply NoDup_singleton].
        intros x Hx Hx'. apply list_elem_of_singleton in Hx'. subst x. tauto.
      * intros i x Hi d Hd. apply lookup_snoc_Some in Hi as [[Hlt Hi] | [Hlen <-]].
        -- destruct (Hord1 i x Hi d Hd) as (j & Hj & Hjd). exists j.
           split; [exact Hj|]. apply lookup_app_l_Some. exact Hjd.
        -- assert (Hdo : d ∈ order w1) by (apply Hvo1, Hdeps, Hd).
           apply list_elem_of_lookup in Hdo as [j Hj]. exists j.
           split; [rewrite Hlen; exact (lookup_lt_Some _ _ _ Hj)|].
           apply lookup_app_l_Some. exact Hj.
    + rewrite Hv1. set_solver.
    + intros x Hx. apply elem_of_app in Hx as [Hx | Hx]; [exact (Hkn1 x Hx)|].
      apply list_elem_of_singleton in Hx. subst x. exact Hknown.
Qed.

(** A visit that signals a cycle found one: the token it names depends on
    itself through a chain.  [visiting] holds tokens that each lead to the
    token being visited. *)
Lemma visit_circular (l : list (string * ServiceRegistration)) (fuel : nat) :
  forall t w x,
    (forall v, v ∈ visiting w -> tc (depends l) v t) ->
    visit fuel l t w = Circular x -> tc (depends l) x x.
Proof.
  induction fuel as [|fuel IH]; intros t w x Hpath H; [discriminate|].
  rewrite visit_S in H.
  case_bool_decide as Hvis; [discriminate|].
  case_bool_decide as Hving; [injection H as <-; exact (Hpath t Hving)|].
  set (w0 := mkWalk (visited w) ({[t]} ∪ visiting w) (order w)) in *.
  assert (Hall : visit_all (visit fuel l) (deps_of l t) w0 = Circular x).
  { destruct (visit_all _ _ _); congruence. }
  clear H.
  assert (Hgen : forall deps wa,
             (forall d, d ∈ deps -> d ∈ deps_of l t) ->
             visiting wa = visiting w0 ->
             visit_all (visit fuel l) deps wa = Circular x -> tc (depends l) x x).
  { induction deps as [|d deps IHd]; intros wa Hsub Hva Hc; simpl in Hc; [discriminate|].
    destruct (visit fuel l d wa) as [wb|y|] eqn:Hd; try discriminate.
    - apply (IHd wb); [intros d' Hd'; apply Hsub; right; exact Hd'| |exact Hc].
      rewrite (visit_visiting l fuel d wa wb Hd). exact Hva.
    - injection Hc as ->. apply (IH d wa x); [|exact Hd].
      intros v Hv. rewrite Hva in Hv. subst w0. cbn [visiting] in Hv.
      assert (Htd : depends l t d) by (apply Hsub; left).
      apply elem_of_union in Hv as [Hv | Hv].
      + apply elem_of_singleton in Hv. subst v. apply tc_once. exact Htd.
      + apply tc_r with t; [exact (Hpath v Hv) | exact Htd]. }
  exact (Hgen (deps_of l t) w0 (fun d Hd => Hd) eq_refl Hall).
Qed.

(** A visit returns or signals a cycle when its budget exceeds the number of
    known tokens that are not being visited. *)
Lemma visit_finishes (l : list (string * ServiceRegistration)) (fuel : nat) :
  forall t w,
    t ∈ tokens_of l -> visiting w ⊆ tokens_of l ->
    size (tokens_of l ∖ visiting w) < fuel ->
    visit fuel l t w <> WalkUnfinished.
Proof.
  induction fuel as [|fuel IH]; intros t w Hknown Hsub Hsize; [lia|].
  rewrite visit_S.
  case_bool_decide as Hvis; [discriminate|].
  case_bool_decide as Hving; [discriminate|].
  set (w0 := mkWalk (visited w) ({[t]} ∪ visiting w) (order w)) in *.
  assert (Hsize0 : size (tokens_of l ∖ visiting w0) < fuel).
  { subst w0. cbn [visiting].
    assert (Hlt : size (tokens_of l ∖ ({[t]} ∪ visiting w)) < size (tokens_of l ∖ visiting w)).
    { apply subset_size. apply strict_spec_alt. split; [set_solver|].
      intros Heq. assert (Ht : t ∈ tokens_of l ∖ visiting w) by set_solver.
      rewrite <- Heq in Ht. set_solver. }
    lia. }
  assert (Hsub0 : visiting w0 ⊆ tokens_of l).
  { subst w0. cbn [visiting]. set_solver. }
  assert (Hgen : forall deps wa,
             (forall d, d ∈ deps -> d ∈ deps_of l t) ->
             visiting wa = visiting w0 ->
             visit_all (visit fuel l) deps wa <> WalkUnfinished).
  { induction deps as [|d deps IHd]; intros wa Hd Hva; simpl; [discriminate|].
    destruct (visit fuel l d wa) as [wb|y|] eqn:Hvd.
    - apply IHd; [intros d' Hd'; apply Hd; right; exact Hd'|].
      rewrite (visit_visiting l fuel d wa wb Hvd). exact Hva.
    - discriminate.
    - exfalso. apply (IH d wa); [| | |exact Hvd].
      + exact (proj1 (deps_of_known l t d (Hd d ltac:(left)))).
      + rewrite Hva. exact Hsub0.
      + rewrite Hva. exact Hsize0. }
  specialize (Hgen (deps_of l t) w0 (fun d Hd => Hd) eq_refl).
  destruct (visit_all _ _ _); [discriminate | discriminate | congruence].
Qed.

(** In a topological order nothing depends on itself through a chain. *)
Lemma topological_acyclic (l : list (string * ServiceRegistration)) (o : list string) :
  topological l o ->
  forall t d, tc (depends l) t d ->
              forall i, o !! i = Some t -> exists j, j < i /\ o !! j = Some d.
Proof.
  intros [Hnd Hord]. induction 1 as [t d Hd | t m d Hm _ IH]; intros i Hi.
  - exact (Hord i t Hi d Hd).
  - destruct (Hord i t Hi m Hm) as (k & Hk & Hkm).
    destruct (IH k Hkm) as (j & Hj & Hjd). exists j. split; [lia | exact Hjd].
Qed.

Lemma resolveDependencyOrder_sound (l : list (string * ServiceRegistration)) (fuel : nat) :
  match resolveDependencyOrder fuel l with
  | Walked w =>
      topological l (order w)
      /\ (forall t, t ∈ order w <-> t ∈ tokens_of l)
      /\ (forall t, ~ tc (depends l) t t)
  | Circular t => tc (depends l) t t
  | WalkUnfinished => fuel <= size (tokens_of l)
  end.
Proof.
  unfold resolveDependencyOrder.
  set (w0 := mkWalk ∅ ∅ []).
  assert (Hw0 : walk_sound l w0).
  { subst w0. split; [intros t; cbn; set_solver|]. split; [|split; [cbn; set_solver|]].
    - split; [constructor|]. intros i t Hi. inversion Hi.
    - intros t Ht. inversion Ht. }
  assert (Hgen : forall tokens wa,
             (forall t, t ∈ tokens -> t ∈ map fst l) ->
             walk_sound l wa -> visiting wa = ∅ ->
             match visit_all (visit fuel l) tokens wa with
             | Walked w => walk_sound l w /\ visiting w = ∅ /\ visited wa ⊆ visited w
                           /\ forall t, t ∈ tokens -> t ∈ visited w
             | Circular t => tc (depends l) t t
             | WalkUnfinished => fuel <= size (tokens_of l)
             end).
  { induction tokens as [|t tokens IHt]; intros wa Hreg Hwa Hva; simpl.
    - split; [exact Hwa|]. split; [exact Hva|]. split; [reflexivity|].
      intros t Ht. inversion Ht.
    - assert (Hkn : t ∈ tokens_of l) by (apply registered_known, Hreg; left).
      destruct (visit fuel l t wa) as [wb|y|] eqn:Hvt.
      + destruct (visit_sound l fuel t wa wb Hkn Hwa Hvt) as (Hwb & Htb & Hsub).
        pose proof (visit_visiting l fuel t wa wb Hvt) as Hvb. rewrite Hva in Hvb.
        specialize (IHt wb (fun t' Ht' => Hreg t' ltac:(right; exact Ht')) Hwb Hvb).
        destruct (visit_all (visit fuel l) tokens wb) as [w|y|]; [|exact IHt|exact IHt].
        destruct IHt as (Hw & Hv & Hs & Hall).
        split; [exact Hw|]. split; [exact Hv|]. split; [set_solver|].
        intros x Hx. inversion Hx; subst; [set_solver | auto].
      + apply (visit_circular l fuel t wa y); [|exact Hvt].
        intros v Hv. rewrite Hva in Hv. set_solver.
      + destruct (Nat.le_gt_cases fuel (size (tokens_of l))) as [Hle | Hgt]; [exact Hle|].
        exfalso. apply (visit_finishes l fuel t wa Hkn); [rewrite Hva; set_solver| |exact Hvt].
        rewrite Hva. replace (tokens_of l ∖ ∅) with (tokens_of l) by (apply set_eq; set_solver).
        exact Hgt. }
  specialize (Hgen (map fst l) w0 (fun t Ht => Ht) Hw0 eq_refl).
  destruct (visit_all (visit fuel l) (map fst l) w0) as [w|y|]; [|exact Hgen|exact Hgen].
  destruct Hgen as ((Hvo & Htop & Hdis & Hkn) & Hv & _ & Hall).
  split; [exact Htop|].
  assert (Hreg : forall t, t ∈ map fst l -> t ∈ order w).
  { intros t Ht. apply Hvo, Hall, Ht. }
  assert (Hcycle : forall t, ~ tc (depends l) t t).
  { intros t Hc.
    assert (Ht : t ∈ order w).
    { apply Hreg. inversion Hc as [? ? Hd | ? m ? Hd _]; subst;
        exact (proj2 (deps_of_known l t _ Hd)). }
    apply list_elem_of_lookup in Ht as [i Hi].
    destruct (topological_acyclic l (order w) Htop t t Hc i Hi) as (j & Hj & Hjt).
    destruct Htop as [Hnd _].
    pose proof (NoDup_lookup _ _ _ _ Hnd Hi Hjt). lia. }
  split; [|exact Hcycle].
  intros t. split; [apply Hkn|].
  intros Ht. apply elem_of_union in Ht as [Ht | Ht].
  - apply Hreg. apply elem_of_list_to_set in Ht. exact Ht.
  - apply elem_of_union_list in Ht as (X & HX & Ht).
    apply list_elem_of_fmap in HX as (k & -> & Hin).
    apply elem_of_list_to_set in Ht.
    pose proof (Hreg k Hin) as Hk. apply list_elem_of_lookup in Hk as [i Hi].
    destruct Htop as [_ Hord]. destruct (Hord i k Hi t Ht) as (j & _ & Hj).
    apply list_elem_of_lookup. exists j. exact Hj.
Qed.

(** [resolveDependencyOrder] is a topological sort with cycle detection.
    Given a budget above the number of tokens the registry knows of, it
    either returns an order or signals a circular dependency.  The order it
    returns lists exactly once every registered token and every token named
    as a dependency (registered or not), each after all the dependencies of
    its registration, and then no token depends on itself through a chain.
    When it signals a circular dependency, the token it names does depend on
    itself through a chain. *)
Theorem resolveDependencyOrder_is_a_topological_sort
    (l : list (string * ServiceRegistration)) (fuel : nat) :
  size (tokens_of l) < fuel ->
  (exists w,
      resolveDependencyOrder fuel l = Walked w
      /\ NoDup (order w)
      /\ (forall t, t ∈ order w <-> t ∈ tokens_of l)
      /\ (forall i t, order w !! i = Some t ->
                      forall d, d ∈ deps_of l t -> exists j, j < i /\ order w !! j = Some d)
      /\ (forall t, ~ tc (depends l) t t))
  \/ (exists t, resolveDependencyOrder fuel l = Circular t /\ tc (depends l) t t).
Proof.
  intros Hfuel. pose proof (resolveDependencyOrder_sound l fuel) as H.
  destruct (resolveDependencyOrder fuel l) as [w|t|].
  - left. exists w. destruct H as ((Hnd & Hord) & Hall & Hacyclic).
    split; [reflexivity|]. split; [exact Hnd|]. split; [exact Hall|].
    split; [exact Hord | exact Hacyclic].
  - right. exists t. split; [reflexivity | exact H].
  - lia.
Qed.

(** [C] on [B] on [A], registered in the order [C], [B], [A]; and the two
    services that depend on each other. *)
Lemma resolveDependencyOrder_is_a_topological_sort_witness :
  let chain := services (after_all [register_C (sound "ImplC"); register_B (sound "ImplB");
                                    register_A (sound "ImplA")] empty) in
  ((exists w,
       resolveDependencyOrder 4 chain = Walked w
       /\ NoDup (order w)
       /\ (forall t, t ∈ order w <-> t ∈ tokens_of chain)
       /\ (forall i t, order w !! i = Some t ->
                       forall d, d ∈ deps_of chain t ->
                                 exists j, j < i /\ order w !! j = Some d)
       /\ (forall t, ~ tc (depends chain) t t))
   \/ (exists t, resolveDependencyOrder 4 chain = Circular t /\ tc (depends chain) t t))
  /\ order_of (resolveDependencyOrder 4 chain) = Some ["A"; "B"; "C"]
  /\ resolveDependencyOrder 4 (services cyclic) = Circular "A".
Proof.
  intros chain. split; [|split; vm_compute; reflexivity].
  apply (resolveDependencyOrder_is_a_topological_sort chain 4).
  vm_compute. lia.
Defined.

(** ** initializeAll and get always end on a registry without cycles *)

Lemma index_of_lookup (o : list string) :
  NoDup o -> forall i t, o !! i = Some t -> index_of t o = i.
Proof.
  induction 1 as [|x o Hx Hnd IH]; intros i t Hi; [inversion Hi|].
  simpl. destruct (String.eqb_spec x t) as [-> | Hne].
  - destruct i as [|i]; [reflexivity|]. simpl in Hi.
    exfalso. apply Hx. apply list_elem_of_lookup. exists i. exact Hi.
  - destruct i as [|i]; simpl in Hi; [congruence|]. f_equal. exact (IH i t Hi).
Qed.

(** The place in a topological order is a rank: dependencies come lower. *)
Lemma topological_ranked (r : Registry) (o : list string) :
  topological (services r) o ->
  (forall t, t ∈ map fst (services r) -> t ∈ o) ->
  ranked (fun t => index_of t o) r
  /\ forall t, t ∈ o -> index_of t o < length o.
Proof.
  intros [Hnd Hord] Hreg. split.
  - intros t d Hd.
    assert (Ht : t ∈ o) by (apply Hreg; exact (proj2 (deps_of_known _ t d Hd))).
    apply list_elem_of_lookup in Ht as [i Hi].
    destruct (Hord i t Hi d Hd) as (j & Hj & Hjd).
    rewrite (index_of_lookup o Hnd i t Hi), (index_of_lookup o Hnd j d Hjd). exact Hj.
  - intros t Ht. apply list_elem_of_lookup in Ht as [i Hi].
    rewrite (index_of_lookup o Hnd i t Hi). exact (lookup_lt_Some _ _ _ Hi).
Qed.

Lemma order_length (l : list (string * ServiceRegistration)) (o : list string) :
  NoDup o -> (forall t, t ∈ o <-> t ∈ tokens_of l) -> length o = size (tokens_of l).
Proof.
  intros Hnd Hall. rewrite <- (size_list_to_set (C := gset string) o Hnd).
  f_equal. apply set_eq. intros t. rewrite elem_of_list_to_set. apply Hall.
Qed.

(** The loop of [initializeAll] over tokens of rank below the budget: it
    returns, or stops at a critical token whose [get] failed. *)
Lemma initialize_in_order_ends (rank : string -> nat) (fuel : nat) (tokens : list string) :
  forall r,
    ranked rank r ->
    (forall t, t ∈ tokens -> rank t < fuel) ->
    (exists r', initialize_in_order fuel tokens r = Returned tt r' /\ same_frame r r')
    \/ (exists r' t,
           initialize_in_order fuel tokens r
           = Threw (RegistryError "CRITICAL_SERVICE_INIT_FAILED" critical false) r'
           /\ same_frame r r' /\ t ∈ tokens /\ isCriticalService t = true).
Proof.
  induction tokens as [|t tokens IH]; intros r Hrank Hfuel.
  - left. exists r. split; [reflexivity | apply same_frame_refl].
  - cbn [initialize_in_order].
    pose proof (get_finishes rank fuel t r Hrank (Hfuel t ltac:(left))) as Hfin.
    pose proof (get_same_frame fuel t r) as Hframe.
    set (one := try_catch (get fuel t ;;; ret tt)
                  (fun _ => if isCriticalService t
                            then throw (RegistryError "CRITICAL_SERVICE_INIT_FAILED"
                                                      critical false)
                            else ret tt)).
    assert (Hone : (exists r1, one r = Returned tt r1 /\ same_frame r r1)
                   \/ (exists r1, one r = Threw (RegistryError "CRITICAL_SERVICE_INIT_FAILED"
                                                               critical false) r1
                                   /\ same_frame r r1 /\ isCriticalService t = true)).
    { subst one. unfold try_catch, bind.
      destruct (get fuel t r) as [i r1|e r1|]; [| |exfalso; apply Hfin; reflexivity].
      - left. exists r1. split; [reflexivity | exact Hframe].
      - destruct (isCriticalService t).
        + right. exists r1. split; [reflexivity|]. split; [exact Hframe | reflexivity].
        + left. exists r1. split; [reflexivity | exact Hframe]. }
    destruct Hone as [(r1 & E1 & F1) | (r1 & E1 & F1 & Hc)].
    + unfold bind. rewrite E1.
      destruct (IH r1 (ranked_same_frame rank r r1 F1 Hrank)
                  (fun t' Ht' => Hfuel t' ltac:(right; exact Ht')))
        as [(r' & -> & Hf) | (r' & t' & -> & Hf & Hin & Hc)].
      * left. exists r'. split; [reflexivity | exact (same_frame_trans _ _ _ F1 Hf)].
      * right. exists r', t'. split; [reflexivity|].
        split; [exact (same_frame_trans _ _ _ F1 Hf)|]. split; [right; exact Hin | exact Hc].
    + unfold bind. rewrite E1. right. exists r1, t.
      split; [reflexivity|]. split; [exact F1|]. split; [left | exact Hc].
Qed.

(** [initializeAll] always ends, given a budget above the number of tokens
    the registry knows of, in one of three ways.  It throws
    [CIRCULAR_DEPENDENCY], having changed nothing and called no service,
    exactly when some token depends on itself through a chain.  Otherwise it
    stores a topological order of all known tokens as [initializationOrder]
    and then either returns, failures of services that are not critical being
    swallowed, or throws [CRITICAL_SERVICE_INIT_FAILED], which takes a
    critical token among those known.  The registered tokens, their
    dependencies and [isShuttingDown] are never changed. *)
Theorem initializeAll_always_ends (fuel : nat) (r : Registry) :
  size (tokens_of (services r)) < fuel ->
  ((exists t, tc (depends (services r)) t t)
   /\ initializeAll fuel r = Threw (RegistryError "CIRCULAR_DEPENDENCY" critical false) r)
  \/ ((forall t, ~ tc (depends (services r)) t t)
      /\ exists r',
           (initializeAll fuel r = Returned tt r'
            \/ (initializeAll fuel r
                = Threw (RegistryError "CRITICAL_SERVICE_INIT_FAILED" critical false) r'
                /\ exists t, t ∈ tokens_of (services r) /\ isCriticalService t = true))
           /\ topological (services r) (initializationOrder r')
           /\ (forall t, t ∈ initializationOrder r' <-> t ∈ tokens_of (services r))
           /\ map fst (services r') = map fst (services r)
           /\ (forall t, deps_of (services r') t = deps_of (services r) t)
           /\ isShuttingDown r' = isShuttingDown r).
Proof.
  intros Hfuel. unfold initializeAll.
  pose proof (resolveDependencyOrder_sound (services r) fuel) as H.
  destruct (resolveDependencyOrder fuel (services r)) as [w|t|]; [| |lia].
  - right. destruct H as (Htop & Hall & Hacyclic). split; [exact Hacyclic|].
    unfold bind, modify.
    set (r0 := set_initializationOrder (order w) r).
    assert (Htop0 : topological (services r0) (order w)) by exact Htop.
    destruct (topological_ranked r0 (order w) Htop0) as [Hrank Hlt].
    { intros t Ht. apply Hall, registered_known, Ht. }
    assert (Hlen : length (order w) = size (tokens_of (services r)))
      by (apply order_length; [exact (proj1 Htop) | exact Hall]).
    destruct (initialize_in_order_ends (fun t => index_of t (order w)) fuel (order w) r0 Hrank)
      as [(r' & Hret & Hf) | (r' & t & Hthrew & Hf & Hin & Hc)].
    { intros t Ht. specialize (Hlt t Ht). lia. }
    + exists r'. split; [left; exact Hret|].
      destruct Hf as (Hk & Hd & Ho & Hs). cbn [r0 set_initializationOrder services
        initializationOrder isShuttingDown] in *.
      rewrite Ho. split; [exact Htop|]. split; [exact Hall|]. auto.
    + exists r'. split; [right; split; [exact Hthrew|]; exists t; split;
                         [apply Hall, Hin | exact Hc]|].
      destruct Hf as (Hk & Hd & Ho & Hs). cbn [r0 set_initializationOrder services
        initializationOrder isShuttingDown] in *.
      rewrite Ho. split; [exact Htop|]. split; [exact Hall|]. auto.
  - left. split; [exists t; exact H | reflexivity].
Qed.

Lemma initializeAll_always_ends_witness :
  let r := after_all [register_C (sound "ImplC"); register_B (sound "ImplB");
                      register_A (sound "ImplA")] empty in
  ((exists t, tc (depends (services r)) t t)
   /\ initializeAll 4 r = Threw (RegistryError "CIRCULAR_DEPENDENCY" critical false) r)
  \/ ((forall t, ~ tc (depends (services r)) t t)
      /\ exists r',
           (initializeAll 4 r = Returned tt r'
            \/ (initializeAll 4 r
                = Threw (RegistryError "CRITICAL_SERVICE_INIT_FAILED" critical false) r'
                /\ exists t, t ∈ tokens_of (services r) /\ isCriticalService t = true))
           /\ topological (services r) (initializationOrder r')
           /\ (forall t, t ∈ initializationOrder r' <-> t ∈ tokens_of (services r))
           /\ map fst (services r') = map fst (services r)
           /\ (forall t, deps_of (services r') t = deps_of (services r) t)
           /\ isShuttingDown r' = isShuttingDown r).
Proof.
  intros r. apply (initializeAll_always_ends 4 r). vm_compute. lia.
Defined.

(** ** get *)

(** What every step of [get] and of [notifyDependents] keeps, for a relation
    between the registry before and after that is kept by a call into a
    service and by an assignment to an [instance] field. *)
Section Frame.

Variable R : Registry -> Registry -> Prop.
Hypothesis R_refl : forall r, R r r.
Hypothesis R_trans : forall r1 r2 r3, R r1 r2 -> R r2 r3 -> R r1 r3.
Hypothesis R_emit : forall e r, R r (emit e r).
Hypothesis R_allocate :
  forall r, R r (mkRegistry (services r) (initializationOrder r) (isShuttingDown r)
                            (S (allocated r)) (trace r)).
Hypothesis R_set_instance :
  forall t i r, R r (with_services (update_service t (set_instance i)) r).

Lemma frame_bind {A B} (c : M A) (k : A -> M B) (r : Registry) :
  ends_in (R r) (c r) ->
  (forall a r', ends_in (R r') (k a r')) ->
  ends_in (R r) (bind c k r).
Proof.
  intros Hc Hk. unfold bind. destruct (c r) as [a r1|e r1|]; simpl in *; auto.
  specialize (Hk a r1). destruct (k a r1) as [b r2|e r2|]; simpl in *; auto;
    eapply R_trans; eauto.
Qed.

Lemma frame_try_catch {A} (c : M A) (h : Exn -> M A) (r : Registry) :
  ends_in (R r) (c r) ->
  (forall e r', ends_in (R r') (h e r')) ->
  ends_in (R r) (try_catch c h r).
Proof.
  intros Hc Hh. unfold try_catch. destruct (c r) as [a r1|e r1|]; simpl in *; auto.
  specialize (Hh e r1). destruct (h e r1) as [b r2|e' r2|]; simpl in *; auto;
    eapply R_trans; eauto.
Qed.

Lemma frame_construct (impl : Implementation) (r : Registry) :
  ends_in (R r) (construct impl r).
Proof.
  unfold construct. destruct (constructs impl); simpl; [|apply R_emit].
  eapply R_trans; [apply R_allocate | apply R_emit].
Qed.

Lemma frame_call_initialize (i : Instance) (arg : InitArg) (r : Registry) :
  ends_in (R r) (call_initialize i arg r).
Proof. unfold call_initialize. destruct (initializes _ _); simpl; apply R_emit. Qed.

Lemma frame_call_isHealthy (i : Instance) (r : Registry) :
  ends_in (R r) (call_isHealthy i r).
Proof. unfold call_isHealthy. destruct (isHealthy _) as [b|]; simpl; apply R_emit. Qed.

Lemma frame_call_shutdown (i : Instance) (r : Registry) :
  ends_in (R r) (call_shutdown i r).
Proof. unfold call_shutdown. destruct (shuts_down _); simpl; apply R_emit. Qed.

Lemma frame_resolve (get_ : string -> M Instance) :
  (forall t r, ends_in (R r) (get_ t r)) ->
  forall deps acc r, ends_in (R r) (resolve get_ deps acc r).
Proof.
  intros Hget. induction deps as [|d deps IH]; intros acc r; cbn [resolve].
  - apply R_refl.
  - apply frame_bind; [apply Hget|]. intros i r'. apply IH.
Qed.

Lemma frame_createInstance (get_ : string -> M Instance) (registration : ServiceRegistration) :
  (forall t r, ends_in (R r) (get_ t r)) ->
  forall r, ends_in (R r) (createInstance get_ registration r).
Proof.
  intros Hget r. unfold createInstance. apply frame_try_catch.
  - apply frame_bind; [apply frame_resolve, Hget|]. intros deps r1.
    apply frame_bind; [apply frame_construct|]. intros i r2.
    apply frame_bind; [apply frame_call_initialize|]. intros _ r3. apply R_refl.
  - intros e r'. apply R_refl.
Qed.

Lemma frame_get (fuel : nat) :
  forall t r, ends_in (R r) (get fuel t r).
Proof.
  induction fuel as [|fuel IH]; intros t r; [exact I|].
  rewrite get_S. destruct (lookup_service t (services r)) as [reg|]; [|apply R_refl].
  assert (Hcreate : ends_in (R r)
            ((i <- createInstance (get fuel) reg ;;
              (if singleton reg
               then modify (with_services (update_service t (set_instance (Some i))))
               else ret tt) ;;;
              ret i) r)).
  { apply frame_bind; [apply frame_createInstance, IH|]. intros i r1.
    apply frame_bind; [|intros _ r2; apply R_refl].
    destruct (singleton reg); [apply R_set_instance | apply R_refl]. }
  destruct (singleton reg); [|exact Hcreate].
  destruct (instance reg); [apply R_refl | exact Hcreate].
Qed.

Lemma frame_reinitialize (fuel : nat) (dependents : list string) :
  forall r, ends_in (R r) (reinitialize fuel dependents r).
Proof.
  induction dependents as [|d dependents IH]; intros r; cbn [reinitialize]; [apply R_refl|].
  apply frame_bind; [|intros _ r'; apply IH].
  apply frame_try_catch; [|intros e r'; apply R_refl].
  apply frame_bind; [apply R_refl|]. intros registration r1.
  destruct (registration ≫= instance) as [i|]; [|apply R_refl].
  apply frame_bind; [apply frame_call_shutdown|]. intros _ r2.
  apply frame_bind; [apply R_set_instance|]. intros _ r3.
  apply frame_bind; [apply frame_get|]. intros _ r4. apply R_refl.
Qed.

Lemma frame_notifyDependents (fuel : nat) (t : string) (r : Registry) :
  ends_in (R r) (notifyDependents fuel t r).
Proof.
  unfold notifyDependents. apply frame_bind; [apply R_refl|].
  intros dependents r'. apply frame_reinitialize.
Qed.

End Frame.

Lemma kept_refl (r : Registry) : registrations_kept r r.
Proof. intros t. reflexivity. Qed.

Lemma kept_trans (r1 r2 r3 : Registry) :
  registrations_kept r1 r2 -> registrations_kept r2 r3 -> registrations_kept r1 r3.
Proof. intros H12 H23 t. rewrite H23. apply H12. Qed.

Lemma kept_set_instance (t : string) (i : option Instance) (r : Registry) :
  registrations_kept r (with_services (update_service t (set_instance i)) r).
Proof.
  intros t'. cbn [with_services services]. rewrite lookup_update_service.
  destruct (String.eqb t t'); [|reflexivity].
  destruct (lookup_service t' (services r)) as [reg|]; reflexivity.
Qed.

Lemma kept_get (fuel : nat) (t : string) (r : Registry) :
  ends_in (registrations_kept r) (get fuel t r).
Proof.
  apply (frame_get registrations_kept kept_refl kept_trans);
    [intros e r0 t0; reflexivity | intros r0 t0; reflexivity | apply kept_set_instance].
Qed.

Lemma kept_createInstance (get_ : string -> M Instance) (registration : ServiceRegistration) :
  (forall t r, ends_in (registrations_kept r) (get_ t r)) ->
  forall r, ends_in (registrations_kept r) (createInstance get_ registration r).
Proof.
  apply (frame_createInstance registrations_kept kept_refl kept_trans);
    [intros e r0 t0; reflexivity | intros r0 t0; reflexivity].
Qed.

Lemma createInstance_throws (get_ : string -> M Instance) (registration : ServiceRegistration)
    (r r' : Registry) (e : Exn) :
  createInstance get_ registration r = Threw e r' ->
  e = RegistryError "SERVICE_CREATION_FAILED" high true.
Proof.
  unfold createInstance, try_catch, throw.
  match goal with |- context [match ?c r with _ => _ end] => destruct (c r) end;
    intros H; [discriminate H | injection H as <- _; reflexivity | discriminate H].
Qed.

(** What [get] throws. *)
Lemma get_throws (fuel : nat) (t : string) (r r' : Registry) (e : Exn) :
  get fuel t r = Threw e r' ->
  (e = RegistryError "SERVICE_NOT_FOUND" high false
   /\ lookup_service t (services r) = None /\ r' = r)
  \/ (e = RegistryError "SERVICE_CREATION_FAILED" high true
      /\ is_Some (lookup_service t (services r))).
Proof.
  destruct fuel as [|fuel]; [discriminate|]. rewrite get_S.
  destruct (lookup_service t (services r)) as [reg|] eqn:Hreg.
  - intros H. right. split; [|eauto].
    assert (Hcreate : (i <- createInstance (get fuel) reg ;;
                       (if singleton reg
                        then modify (with_services (update_service t (set_instance (Some i))))
                        else ret tt) ;;;
                       ret i) r = Threw e r' ->
                      e = RegistryError "SERVICE_CREATION_FAILED" high true).
    { unfold bind at 1.
      destruct (createInstance (get fuel) reg r) as [i r1|e1 r1|] eqn:Hc.
      - unfold bind, modify, ret. destruct (singleton reg); intros Hx; discriminate Hx.
      - intros [= <- _]. exact (createInstance_throws _ _ _ _ _ Hc).
      - intros Hx. discriminate Hx. }
    destruct (singleton reg); [|exact (Hcreate H)].
    destruct (instance reg); [discriminate | exact (Hcreate H)].
  - intros [= <- <-]. left. auto.
Qed.

(** A singleton that [get] returned is cached. *)
Lemma get_caches (fuel : nat) (t : string) (r r' : Registry) (i : Instance)
    (registration : ServiceRegistration) :
  lookup_service t (services r) = Some registration ->
  singleton registration = true ->
  get fuel t r = Returned i r' ->
  exists registration',
    lookup_service t (services r') = Some registration'
    /\ instance registration' = Some i
    /\ set_instance None registration' = set_instance None registration.
Proof.
  intros Hreg Hsing. destruct fuel as [|fuel]; [discriminate|].
  rewrite get_S, Hreg, Hsing.
  destruct (instance registration) as [i0|] eqn:Hinst.
  - intros [= <- <-]. exists registration. auto.
  - unfold bind at 1.
    pose proof (kept_createInstance (get fuel) registration (kept_get fuel) r) as Hk.
    destruct (createInstance (get fuel) registration r) as [i1 r1|e r1|]; try discriminate.
    cbn [ends_in] in Hk. unfold bind, modify, ret. intros [= <- <-].
    specialize (Hk t). rewrite Hreg in Hk.
    destruct (lookup_service t (services r1)) as [reg1|] eqn:Hreg1; [|discriminate].
    cbn [fmap option_fmap option_map] in Hk. apply (inj Some) in Hk.
    exists (set_instance (Some i1) reg1). cbn [with_services services].
    rewrite lookup_update_service, String.eqb_refl, Hreg1.
    split; [reflexivity|]. split; [reflexivity | exact Hk].
Qed.

(** Without cycles the tokens can be ranked below any budget that exceeds
    their number. *)
Lemma acyclic_ranked (fuel : nat) (r : Registry) :
  (forall x, ~ tc (depends (services r)) x x) ->
  size (tokens_of (services r)) < fuel ->
  exists rank, ranked rank r /\ forall t, rank t < fuel.
Proof.
  intros Hacyclic Hfuel.
  pose proof (resolveDependencyOrder_sound (services r) fuel) as H.
  destruct (resolveDependencyOrder fuel (services r)) as [w|x|];
    [|exfalso; exact (Hacyclic x H)|lia].
  destruct H as (Htop & Hall & _).
  destruct (topological_ranked r (order w) Htop) as [Hrank _].
  { intros x Hx. apply Hall, registered_known, Hx. }
  exists (fun t => index_of t (order w)). split; [exact Hrank|]. intros t.
  assert (Hle : forall o, index_of t o <= length o).
  { induction o as [|x o IH]; simpl; [lia|]. destruct (String.eqb x t); lia. }
  specialize (Hle (order w)).
  rewrite (order_length (services r) (order w) (proj1 Htop) Hall) in Hle. lia.
Qed.

(** [get] ends when no token depends on itself. *)
Lemma get_ends (fuel : nat) (t : string) (r : Registry) :
  (forall x, ~ tc (depends (services r)) x x) ->
  size (tokens_of (services r)) < fuel ->
  get fuel t r <> Unfinished.
Proof.
  intros Hacyclic Hfuel.
  destruct (acyclic_ranked fuel r Hacyclic Hfuel) as (rank & Hrank & Hlt).
  exact (get_finishes rank fuel t r Hrank (Hlt t)).
Qed.

(** [get(token)] throws [SERVICE_NOT_FOUND], leaving the registry as it was,
    exactly when the token is not registered; any other failure (of the
    constructor, of [initialize], or of a dependency, be it unregistered) is
    thrown as [SERVICE_CREATION_FAILED] of the token asked for.  A singleton
    it has returned is stored: the next [get] returns the same instance and
    changes nothing.  It ends for every token when no token depends on itself
    through a chain and the budget exceeds the number of known tokens. *)
Theorem get_creates_once_and_wraps_failures (fuel : nat) (t : string) (r : Registry) :
  (lookup_service t (services r) = None ->
   get (S fuel) t r = Threw (RegistryError "SERVICE_NOT_FOUND" high false) r)
  /\ (forall e r', get fuel t r = Threw e r' ->
        (e = RegistryError "SERVICE_NOT_FOUND" high false
         /\ lookup_service t (services r) = None /\ r' = r)
        \/ (e = RegistryError "SERVICE_CREATION_FAILED" high true
            /\ is_Some (lookup_service t (services r))))
  /\ (forall registration i r',
        lookup_service t (services r) = Some registration ->
        singleton registration = true ->
        get fuel t r = Returned i r' ->
        forall fuel', get (S fuel') t r' = Returned i r')
  /\ ((forall x, ~ tc (depends (services r)) x x) ->
      size (tokens_of (services r)) < fuel ->
      get fuel t r <> Unfinished).
Proof.
  split; [|split; [|split]].
  - intros Hnone. rewrite get_S, Hnone. reflexivity.
  - intros e r'. apply get_throws.
  - intros reg i r' Hreg Hsing Hget fuel'.
    destruct (get_caches fuel t r r' i reg Hreg Hsing Hget) as (reg' & Hreg' & Hinst & Hsame).
    rewrite get_S, Hreg', Hinst.
    assert (Hs : singleton reg' = true).
    { change (singleton (set_instance None reg') = true). rewrite Hsame. exact Hsing. }
    rewrite Hs. reflexivity.
  - apply get_ends.
Qed.

(** [AUTH] resolved once is returned again as it is. *)
Lemma get_creates_once_and_wraps_failures_witness :
  get 1 "AUTH" with_live_auth = Returned (mkInstance 0 (sound "OldAuth")) with_live_auth.
Proof.
  refine (proj1 (proj2 (proj2 (get_creates_once_and_wraps_failures 1 "AUTH"
            (after (register "AUTH" (sound "OldAuth") (depending_on []) 0) empty))))
            (mkRegistration "AUTH" (sound "OldAuth") None (Some []) (Some []) true 0 None)
            (mkInstance 0 (sound "OldAuth")) with_live_auth _ _ _ 0).
  - reflexivity.
  - reflexivity.
  - vm_compute. reflexivity.
Defined.

(** ** replace *)

Lemma inv_bind {A B} (P : Registry -> Prop) (c : M A) (k : A -> M B) (r : Registry) :
  ends_in P (c r) ->
  (forall a r', P r' -> ends_in P (k a r')) ->
  ends_in P (bind c k r).
Proof.
  intros Hc Hk. unfold bind. destruct (c r) as [a r1|e r1|]; simpl in *; auto.
Qed.

Lemma inv_try_catch {A} (P : Registry -> Prop) (c : M A) (h : Exn -> M A) (r : Registry) :
  ends_in P (c r) ->
  (forall e r', P r' -> ends_in P (h e r')) ->
  ends_in P (try_catch c h r).
Proof.
  intros Hc Hh. unfold try_catch. destruct (c r) as [a r1|e r1|]; simpl in *; auto.
Qed.

Lemma serves_services (t : string) (impl : Implementation) (r r' : Registry) :
  services r' = services r -> serves_with t impl r -> serves_with t impl r'.
Proof. unfold serves_with. intros ->. tauto. Qed.

Lemma serves_unset (t t' : string) (impl : Implementation) (r : Registry) :
  serves_with t impl r ->
  serves_with t impl (with_services (update_service t' (set_instance None)) r).
Proof.
  intros (reg & Hreg & Himpl & Hinst). unfold serves_with. cbn [with_services services].
  rewrite lookup_update_service, Hreg. destruct (String.eqb t' t).
  - exists (set_instance None reg). split; [reflexivity|]. split; [exact Himpl|]. discriminate.
  - exists reg. auto.
Qed.

Lemma createInstance_returns (get_ : string -> M Instance)
    (registration : ServiceRegistration) (r r' : Registry) (i : Instance) :
  createInstance get_ registration r = Returned i r' ->
  inst_of i = implementation registration.
Proof.
  unfold createInstance, try_catch, bind, throw, ret.
  destruct (resolve get_ _ ∅ r) as [deps r1|e r1|]; [|discriminate|discriminate].
  unfold construct. destruct (constructs (implementation registration)); [|discriminate].
  unfold call_initialize. cbn [inst_of].
  destruct (initializes (implementation registration) _); [|discriminate].
  intros [= <- _]. reflexivity.
Qed.

(** [get] stores under a token only objects of the class registered for
    it. *)
Lemma get_serves (t : string) (impl : Implementation) (fuel : nat) :
  forall t' r, serves_with t impl r -> ends_in (serves_with t impl) (get fuel t' r).
Proof.
  induction fuel as [|fuel IH]; intros t' r Hr; [exact I|].
  rewrite get_S. destruct (lookup_service t' (services r)) as [reg'|] eqn:Hreg'; [|exact Hr].
  assert (Hcreate : ends_in (serves_with t impl)
            ((i <- createInstance (get fuel) reg' ;;
              (if singleton reg'
               then modify (with_services (update_service t' (set_instance (Some i))))
               else ret tt) ;;;
              ret i) r)).
  { pose proof (frame_createInstance
                  (fun r r' => serves_with t impl r -> serves_with t impl r')
                  (fun _ H => H) (fun _ _ _ H12 H23 H => H23 (H12 H))
                  (fun e r0 => serves_services t impl r0 (emit e r0) eq_refl)
                  (fun r0 => serves_services t impl r0 _ eq_refl)
                  (get fuel) reg') as Hframe.
    specialize (Hframe (fun t0 r0 => ltac:(
      pose proof (IH t0 r0) as H0; destruct (get fuel t0 r0); simpl in *; auto)) r).
    unfold bind at 1.
    destruct (createInstance (get fuel) reg' r) as [i r1|e r1|] eqn:Hc; simpl in Hframe;
      [|exact (Hframe Hr)|exact I].
    specialize (Hframe Hr). unfold bind, modify, ret.
    destruct (singleton reg'); [|exact Hframe]. cbn [ends_in].
    destruct Hframe as (reg1 & Hreg1 & Himpl1 & Hinst1). unfold serves_with.
    cbn [with_services services]. rewrite lookup_update_service, Hreg1.
    destruct (String.eqb_spec t' t) as [-> | Hne]; [|exists reg1; auto].
    exists (set_instance (Some i) reg1). split; [reflexivity|]. split; [exact Himpl1|].
    intros i' [= <-]. rewrite (createInstance_returns _ _ _ _ _ Hc).
    destruct Hr as (reg & Hreg & Himpl & _). congruence. }
  destruct (singleton reg'); [|exact Hcreate].
  destruct (instance reg'); [exact Hr | exact Hcreate].
Qed.

Lemma reinitialize_serves (t : string) (impl : Implementation) (fuel : nat)
    (dependents : list string) :
  forall r, serves_with t impl r ->
            ends_in (serves_with t impl) (reinitialize fuel dependents r).
Proof.
  induction dependents as [|d dependents IH]; intros r Hr; cbn [reinitialize]; [exact Hr|].
  apply inv_bind; [|intros _ r' Hr'; exact (IH r' Hr')].
  apply inv_try_catch; [|intros e r' Hr'; exact Hr'].
  apply inv_bind; [exact Hr|]. intros registration r1 Hr1.
  destruct (registration ≫= instance) as [i|]; [|exact Hr1].
  apply inv_bind.
  { unfold call_shutdown. destruct (shuts_down _); simpl;
      exact (serves_services t impl r1 _ eq_refl Hr1). }
  intros _ r2 Hr2. apply inv_bind; [exact (serves_unset t d impl r2 Hr2)|].
  intros _ r3 Hr3. apply inv_bind; [exact (get_serves t impl fuel d r3 Hr3)|].
  intros _ r4 Hr4. exact Hr4.
Qed.

(** [notifyDependents] catches what its dependents throw. *)
Lemma reinitialize_never_throws (fuel : nat) (dependents : list string) :
  forall r e r', reinitialize fuel dependents r <> Threw e r'.
Proof.
  induction dependents as [|d dependents IH]; intros r e r'; cbn [reinitialize]; [discriminate|].
  unfold bind at 1, try_catch.
  match goal with |- context [match ?c r with _ => _ end] => destruct (c r) as [a r1|e1 r1|] end;
    [apply IH | unfold ret; apply IH | discriminate].
Qed.

Lemma same_frame_get (fuel : nat) (t : string) (r : Registry) :
  ends_in (same_frame r) (get fuel t r).
Proof. apply get_same_frame. Qed.

Lemma reinitialize_same_frame (fuel : nat) (dependents : list string) (r : Registry) :
  ends_in (same_frame r) (reinitialize fuel dependents r).
Proof.
  apply (frame_reinitialize same_frame same_frame_refl same_frame_trans).
  - intros e r0. apply same_frame_fields; reflexivity.
  - intros r0. apply same_frame_fields; reflexivity.
  - intros t0 i r0. apply same_frame_set_instance.
Qed.

Lemma reinitialize_finishes (rank : string -> nat) (fuel : nat) (dependents : list string) :
  forall r, ranked rank r -> (forall t, rank t < fuel) ->
            finishes (reinitialize fuel dependents r).
Proof.
  induction dependents as [|d dependents IH]; intros r Hrank Hfuel; cbn [reinitialize];
    [discriminate|].
  apply finishes_bind.
  - apply finishes_try_catch; [|discriminate].
    apply finishes_bind; [discriminate|]. intros registration r1 [= <- <-].
    destruct (_ ≫= instance) as [i|]; [|discriminate].
    apply finishes_bind.
    { unfold call_shutdown, finishes. destruct (shuts_down _); discriminate. }
    intros u2 r2 H2. apply finishes_bind; [discriminate|]. intros u3 r3 H3.
    apply finishes_bind; [|discriminate].
    apply (get_finishes rank); [|apply Hfuel].
    apply (ranked_same_frame rank r); [|exact Hrank].
    unfold modify in H3. injection H3 as _ <-.
    eapply same_frame_trans; [|apply same_frame_set_instance].
    exact (returned_same_frame (call_shutdown i) r r2 u2 (ends_in_call_shutdown i r) H2).
  - intros [] r1 H1. apply IH; [|exact Hfuel].
    apply (ranked_same_frame rank r); [|exact Hrank].
    pose proof (reinitialize_same_frame fuel [d] r) as Hf.
    cbn [reinitialize] in Hf. unfold bind at 1 in Hf. rewrite H1 in Hf. exact Hf.
Qed.

Lemma same_frame_swap (t : string) (impl : Implementation) (cfg : option Config)
    (r : Registry) :
  same_frame r (with_services (update_service t (swap impl cfg)) r).
Proof.
  split; [cbn; apply keys_update_service|]. split; [|split; reflexivity].
  intros t'. unfold deps_of. cbn [with_services services]. rewrite lookup_update_service.
  destruct (String.eqb t t'); [|reflexivity].
  destruct (lookup_service t' (services r)); reflexivity.
Qed.

Lemma notifyDependents_trace (fuel : nat) (t : string) (r : Registry) :
  ends_in (trace_grows r) (notifyDependents fuel t r).
Proof.
  apply (frame_notifyDependents trace_grows).
  - intros r0. exists []. symmetry. apply app_nil_r.
  - intros r1 r2 r3 [l1 H1] [l2 H2]. exists (l1 ++ l2). rewrite H2, H1, app_assoc. reflexivity.
  - intros e r0. exists [e]. reflexivity.
  - intros r0. exists []. symmetry. apply app_nil_r.
  - intros t0 i r0. exists []. symmetry. apply app_nil_r.
Qed.

(** A replacement that passes validation is installed.  When the candidate
    can be constructed, initialises with the configuration given (or the
    registered one) and reports itself healthy, and the old instance, if
    any, shuts down, [replace] returns, on a registry without dependency
    cycles.  It has then called, in this order, the candidate's constructor,
    [initialize] and [isHealthy], and the old instance's [shutdown], before
    anything else.  The token is registered with the new implementation, and
    the instance stored for it, if the reinitialised dependents asked for
    one, is an object of the new class: the old instance is never returned
    again.  The tokens and their dependencies are unchanged. *)
Theorem replace_installs_the_new_implementation (fuel : nat) (t : string)
    (newImplementation : Implementation) (cfg : option Config) (r : Registry)
    (registration : ServiceRegistration) :
  let config' := match cfg with Some c => Some c | None => config registration end in
  lookup_service t (services r) = Some registration ->
  constructs newImplementation = true ->
  initializes newImplementation (ConfigOnly config') = true ->
  isHealthy newImplementation = Some true ->
  (forall old, instance registration = Some old -> shuts_down (inst_of old) = true) ->
  (forall x, ~ tc (depends (services r)) x x) ->
  size (tokens_of (services r)) < fuel ->
  exists r' registration',
    replace fuel t newImplementation cfg r = Returned tt r'
    /\ lookup_service t (services r') = Some registration'
    /\ implementation registration' = newImplementation
    /\ (forall i, instance registration' = Some i -> inst_of i = newImplementation)
    /\ (exists rest,
           trace r'
           = trace r
             ++ [EvNew (impl_name newImplementation) (Some (allocated r));
                 EvInitialize (allocated r) (ConfigOnly config') true;
                 EvIsHealthy (allocated r) (Some true)]
             ++ match instance registration with
                | Some old => [EvShutdown (inst_id old) true]
                | None => []
                end
             ++ rest)
    /\ map fst (services r') = map fst (services r)
    /\ (forall t', deps_of (services r') t' = deps_of (services r) t').
Proof.
  intros config' Hreg Hc Hi Hh Hold Hacyclic Hfuel.
  destruct (acyclic_ranked fuel r Hacyclic Hfuel) as (rank & Hrank & Hlt).
  (* the registry when the dependents are notified *)
  set (shut := match instance registration with
               | Some old => [EvShutdown (inst_id old) true]
               | None => []
               end).
  set (r3 := with_services (update_service t (swap newImplementation cfg))
               (mkRegistry (services r) (initializationOrder r) (isShuttingDown r)
                  (S (allocated r))
                  (trace r
                   ++ [EvNew (impl_name newImplementation) (Some (allocated r));
                       EvInitialize (allocated r) (ConfigOnly config') true;
                       EvIsHealthy (allocated r) (Some true)] ++ shut))).
  assert (Hstep : replace fuel t newImplementation cfg r
                  = match reinitialize fuel (dependents_of t (services r3)) r3 with
                    | Returned a r' => Returned a r'
                    | Threw _ r' =>
                        Threw (RegistryError "SERVICE_REPLACEMENT_FAILED" critical false) r'
                    | Unfinished => Unfinished
                    end).
  { unfold replace. rewrite Hreg.
    unfold try_catch, bind, construct, call_initialize, call_isHealthy, throw,
      notifyDependents, read, modify, ret.
    rewrite Hc. cbn [inst_of inst_id]. fold config'. rewrite Hi, Hh. cbn [negb].
    subst r3 shut. destruct (instance registration) as [old|] eqn:Hinst.
    - unfold call_shutdown. rewrite (Hold old eq_refl). unfold emit.
      cbn [services initializationOrder isShuttingDown allocated trace inst_id].
      rewrite <- !app_assoc. reflexivity.
    - unfold emit.
      cbn [services initializationOrder isShuttingDown allocated trace inst_id].
      rewrite <- !app_assoc. reflexivity. }
  assert (Hframe3 : same_frame r r3).
  { subst r3. eapply same_frame_trans; [|apply same_frame_swap].
    apply same_frame_fields; reflexivity. }
  assert (Hserves3 : serves_with t newImplementation r3).
  { exists (swap newImplementation cfg registration). subst r3.
    cbn [with_services services]. rewrite lookup_update_service, String.eqb_refl, Hreg.
    split; [reflexivity|]. split; [reflexivity | discriminate]. }
  pose proof (ranked_same_frame rank r r3 Hframe3 Hrank) as Hrank3.
  pose proof (reinitialize_finishes rank fuel (dependents_of t (services r3)) r3 Hrank3 Hlt)
    as Hfin.
  pose proof (reinitialize_never_throws fuel (dependents_of t (services r3)) r3) as Hnothrow.
  pose proof (reinitialize_serves t newImplementation fuel (dependents_of t (services r3))
                r3 Hserves3) as Hserves.
  pose proof (reinitialize_same_frame fuel (dependents_of t (services r3)) r3) as Hsame.
  pose proof (notifyDependents_trace fuel t r3) as Htrace.
  rewrite Hstep. unfold notifyDependents, bind, read in Htrace.
  destruct (reinitialize fuel (dependents_of t (services r3)) r3) as [[] r'|e r'|];
    [|exfalso; exact (Hnothrow e r' eq_refl)|exfalso; exact (Hfin eq_refl)].
  cbn [ends_in] in *. destruct Hserves as (reg' & Hreg' & Himpl' & Hinst').
  exists r', reg'. split; [reflexivity|]. split; [exact Hreg'|]. split; [exact Himpl'|].
  split; [exact Hinst'|]. split.
  - destruct Htrace as [rest Hrest]. exists rest. rewrite Hrest. subst r3.
    cbn [with_services trace]. rewrite <- !app_assoc. reflexivity.
  - destruct (same_frame_trans _ _ _ Hframe3 Hsame) as (Hk & Hd & _). auto.
Qed.

(** [AUTH], resolved once, is replaced by a sound implementation. *)
Lemma replace_installs_the_new_implementation_witness :
  exists r' registration',
    replace 2 "AUTH" (sound "NewAuth") None with_live_auth = Returned tt r'
    /\ lookup_service "AUTH" (services r') = Some registration'
    /\ implementation registration' = sound "NewAuth"
    /\ (forall i, instance registration' = Some i -> inst_of i = sound "NewAuth")
    /\ (exists rest,
           trace r'
           = trace with_live_auth
             ++ [EvNew "NewAuth" (Some 1); EvInitialize 1 (ConfigOnly (Some [])) true;
                 EvIsHealthy 1 (Some true)]
             ++ [EvShutdown 0 true]
             ++ rest)
    /\ map fst (services r') = map fst (services with_live_auth)
    /\ (forall t', deps_of (services r') t' = deps_of (services with_live_auth) t').
Proof.
  refine (replace_installs_the_new_implementation 2 "AUTH" (sound "NewAuth") None
            with_live_auth
            (mkRegistration "AUTH" (sound "OldAuth") (Some (mkInstance 0 (sound "OldAuth")))
                            (Some []) (Some []) true 0 None)
            _ _ _ _ _ _ _).
  - vm_compute. reflexivity.
  - reflexivity.
  - reflexivity.
  - reflexivity.
  - intros old [= <-]. reflexivity.
  - intros x Hx.
    assert (Hnone : forall y, ~ depends (services with_live_auth) x y).
    { intros y Hy. unfold depends, deps_of in Hy.
      let s := eval vm_compute in (services with_live_auth) in
        change (services with_live_auth) with s in Hy.
      cbn [lookup_service] in Hy. destruct (String.eqb "AUTH" x); cbn in Hy; inversion Hy. }
    inversion Hx as [? ? Hd | ? y ? Hd _]; subst; exact (Hnone _ Hd).
  - vm_compute. lia.
Defined.

(** ** healthCheck *)

Lemma count_cons (f : string * ServiceRegistration -> bool) (kv : string * ServiceRegistration)
    (l : list (string * ServiceRegistration)) :
  count f (kv :: l) = (if f kv then 1 else 0) + count f l.
Proof. unfold count. simpl. destruct (f kv); reflexivity. Qed.

Lemma check_each_counts (probe : Instance -> ServiceHealthStatus + string) (now : Z)
    (entries : list (string * ServiceRegistration)) :
  forall summary r,
    let res := check_each probe now entries summary r in
    totalServices (fst res) = totalServices summary
    /\ healthyServices (fst res) = healthyServices summary + count (healthy_entry probe) entries
    /\ healthyServices (fst res) + unhealthyServices (fst res)
       = healthyServices summary + unhealthyServices summary + count live_entry entries
    /\ summary_isHealthy (fst res)
       = summary_isHealthy summary && forallb (tolerated_entry probe) entries
    /\ summary_lastChecked (fst res) = summary_lastChecked summary
    /\ map fst (services (snd res)) = map fst (services r)
    /\ (forall t, set_lastHealthCheck now <$> lookup_service t (services (snd res))
                  = set_lastHealthCheck now <$> lookup_service t (services r))
    /\ trace (snd res) = trace r
    /\ initializationOrder (snd res) = initializationOrder r
    /\ isShuttingDown (snd res) = isShuttingDown r.
Proof.
  induction entries as [|[t reg] entries IH]; intros summary r; cbn zeta.
  - cbn [check_each fst snd forallb]. change (count _ []) with 0.
    rewrite andb_true_r, !Nat.add_0_r. repeat split; reflexivity.
  - cbn [check_each]. rewrite !count_cons. cbn [forallb].
    unfold healthy_entry at 1, live_entry at 1, tolerated_entry at 1. cbn [fst snd].
    destruct (instance reg) as [i|].
    + unfold check_one. destruct (probe i) as [st|message].
      * destruct (status_isHealthy st) eqn:Hst;
          match goal with |- context [check_each probe now entries ?s ?r'] =>
            destruct (IH s r') as (H1 & H2 & H3 & H4 & H5 & H6 & H7 & H8 & H9 & H10) end;
          cbn [totalServices healthyServices unhealthyServices summary_isHealthy
               summary_lastChecked with_services services trace initializationOrder
               isShuttingDown] in *;
          rewrite H1, H2, H4, H5, H6, H8, H9, H10, keys_update_service.
        -- repeat split; try reflexivity; try lia.
           intros t'. rewrite H7, lookup_update_service.
           destruct (String.eqb t t'); [|reflexivity].
           destruct (lookup_service t' (services r)); reflexivity.
        -- cbn [orb]. destruct (isCriticalService t); cbn [negb];
             (repeat split; try reflexivity; try lia;
              [intros t'; rewrite H7, lookup_update_service;
               destruct (String.eqb t t'); [|reflexivity];
               destruct (lookup_service t' (services r)); reflexivity]).
      * match goal with |- context [check_each probe now entries ?s ?r'] =>
          destruct (IH s r') as (H1 & H2 & H3 & H4 & H5 & H6 & H7 & H8 & H9 & H10) end.
        cbn [totalServices healthyServices unhealthyServices summary_isHealthy
             summary_lastChecked] in *.
        rewrite H1, H2, H4, H5, H6, H8, H9, H10, andb_false_r.
        repeat split; try reflexivity; try lia. exact H7.
    + destruct (IH summary r) as (H1 & H2 & H3 & H4 & H5 & H6 & H7 & H8 & H9 & H10).
      rewrite H1, H2, H4, H5, H6, H8, H9, H10.
      repeat split; try reflexivity; try lia. exact H7.
Qed.

Lemma count_length (f : string * ServiceRegistration -> bool)
    (l : list (string * ServiceRegistration)) : count f l <= length l.
Proof.
  induction l as [|kv l IH]; [reflexivity|]. rewrite count_cons. simpl.
  destruct (f kv); lia.
Qed.

(** [healthCheck] always returns a summary, calling no service method other
    than [getHealthStatus].  [totalServices] counts the registrations;
    [healthyServices] counts the instances that answer with a healthy
    status, [unhealthyServices] the other instances, so the two add up to
    the number of instances, services never created being left out of both.
    The summary is healthy exactly when no instance fails to answer and
    every critical service with an instance answers healthy: an unhealthy
    answer of a service that is not critical, and a critical service that
    was never created, leave it healthy.  The registry keeps its
    registrations but for [lastHealthCheck]. *)
Theorem healthCheck_counts_instances (probe : Instance -> ServiceHealthStatus + string)
    (now : Z) (r : Registry) :
  exists summary r',
    healthCheck probe now r = Returned summary r'
    /\ totalServices summary = length (services r)
    /\ healthyServices summary = count (healthy_entry probe) (services r)
    /\ healthyServices summary + unhealthyServices summary = count live_entry (services r)
    /\ healthyServices summary + unhealthyServices summary <= totalServices summary
    /\ summary_isHealthy summary = forallb (tolerated_entry probe) (services r)
    /\ summary_lastChecked summary = now
    /\ map fst (services r') = map fst (services r)
    /\ (forall t, set_lastHealthCheck now <$> lookup_service t (services r')
                  = set_lastHealthCheck now <$> lookup_service t (services r))
    /\ trace r' = trace r
    /\ initializationOrder r' = initializationOrder r
    /\ isShuttingDown r' = isShuttingDown r.
Proof.
  unfold healthCheck.
  pose proof (check_each_counts probe now (services r)
                (mkSummary true (length (services r)) 0 0 [] now) r) as H.
  cbn zeta in H.
  destruct (check_each probe now (services r) _ r) as [summary r'].
  cbn [fst snd totalServices healthyServices unhealthyServices summary_isHealthy
       summary_lastChecked] in H.
  destruct H as (H1 & H2 & H3 & H4 & H5 & H6 & H7 & H8 & H9 & H10).
  exists summary, r'. rewrite H1, H2, H4, H5.
  split; [reflexivity|]. split; [reflexivity|]. split; [reflexivity|].
  split; [rewrite <- H2; exact H3|].
  split; [rewrite <- H2, H3; apply count_length|].
  repeat split; assumption.
Qed.

(** ** register *)

Lemma lookup_service_app (t : string) (l1 l2 : list (string * ServiceRegistration)) :
  lookup_service t (l1 ++ l2)
  = match lookup_service t l1 with
    | Some reg => Some reg
    | None => lookup_service t l2
    end.
Proof.
  induction l1 as [|[k reg] l1 IH]; simpl; [reflexivity|].
  destruct (String.eqb k t); [reflexivity | exact IH].
Qed.

Lemma lookup_service_none (t : string) (l : list (string * ServiceRegistration)) :
  lookup_service t l = None <-> t ∉ map fst l.
Proof.
  induction l as [|[k reg] l IH]; simpl.
  - split; [intros _ H; inversion H | reflexivity].
  - destruct (String.eqb_spec k t) as [-> | Hne].
    + split; [discriminate | intros H; exfalso; apply H; left].
    + rewrite IH. split.
      * intros H Hin. inversion Hin; subst; tauto.
      * intros H Hin. apply H. right. exact Hin.
Qed.

(** [register(token, implementation, options)] of a token already registered
    throws [SERVICE_ALREADY_REGISTERED] and changes nothing, whatever the
    options.  Of a new token it appends a registration that
    [getServiceInfo(token)] then returns: no instance, the dependencies and
    the configuration given (empty when not given), a singleton unless
    [singleton: false] was given; the other registrations are as before, the
    token is listed last by [listServices], and the tokens stay distinct. *)
Theorem register_once (t : string) (impl : Implementation) (options : Options) (now : Z)
    (r : Registry) :
  (is_Some (getServiceInfo t r) ->
   register t impl options now r
   = Threw (RegistryError "SERVICE_ALREADY_REGISTERED" medium false) r)
  /\ (getServiceInfo t r = None ->
      exists r',
        register t impl options now r = Returned tt r'
        /\ getServiceInfo t r'
           = Some (mkRegistration t impl None
                     (Some (default [] (opt_dependencies options)))
                     (Some (default [] (opt_config options)))
                     (default true (opt_singleton options)) now None)
        /\ (forall t', t' <> t -> getServiceInfo t' r' = getServiceInfo t' r)
        /\ listServices r' = listServices r ++ [t]
        /\ (NoDup (listServices r) -> NoDup (listServices r'))
        /\ initializationOrder r' = initializationOrder r
        /\ trace r' = trace r
        /\ register t impl options now r'
           = Threw (RegistryError "SERVICE_ALREADY_REGISTERED" medium false) r').
Proof.
  unfold getServiceInfo, register, listServices. split.
  - intros [reg ->]. reflexivity.
  - intros Hnone. rewrite Hnone. eexists. split; [reflexivity|].
    cbn [with_services services initializationOrder trace].
    rewrite !lookup_service_app, Hnone. cbn [lookup_service]. rewrite String.eqb_refl.
    split; [reflexivity|]. split; [|split; [|split; [|split; [|split]]]]; try reflexivity.
    + intros t' Hne. rewrite lookup_service_app. cbn [lookup_service].
      destruct (String.eqb_spec t t') as [-> | _]; [congruence|].
      destruct (lookup_service t' (services r)); reflexivity.
    + rewrite map_app. reflexivity.
    + intros Hnd. rewrite map_app. apply NoDup_app. split; [exact Hnd|].
      split; [|apply NoDup_singleton].
      intros x Hx Hx'. apply list_elem_of_singleton in Hx'. subst x.
      apply lookup_service_none in Hnone. exact (Hnone Hx).
Qed.

(** ** Services that are not singletons *)

Lemma get_allocates (fuel : nat) (t : string) (r : Registry) :
  ends_in (allocation_grows r) (get fuel t r).
Proof.
  apply (frame_get allocation_grows); unfold allocation_grows.
  - intros; lia.
  - intros; lia.
  - intros e r0. cbn. lia.
  - intros r0. cbn. lia.
  - intros t0 i r0. cbn. lia.
Qed.

Lemma resolve_allocates (fuel : nat) (deps : list string) (acc : gmap string nat)
    (r : Registry) :
  ends_in (allocation_grows r) (resolve (get fuel) deps acc r).
Proof.
  apply (frame_resolve allocation_grows); unfold allocation_grows.
  - intros; lia.
  - intros; lia.
  - intros t0 r0. apply get_allocates.
Qed.

(** The object [createInstance] returns was constructed during the call. *)
Lemma createInstance_fresh (fuel : nat) (registration : ServiceRegistration)
    (r r' : Registry) (i : Instance) :
  createInstance (get fuel) registration r = Returned i r' ->
  allocated r <= inst_id i < allocated r'.
Proof.
  unfold createInstance, try_catch, bind, throw, ret.
  pose proof (resolve_allocates fuel (default [] (dependencies registration)) ∅ r) as Hres.
  destruct (resolve (get fuel) _ ∅ r) as [deps r1|e r1|]; [|discriminate|discriminate].
  cbn [ends_in] in Hres. unfold allocation_grows in Hres.
  unfold construct. destruct (constructs (implementation registration)); [|discriminate].
  unfold call_initialize. cbn [inst_of inst_id].
  destruct (initializes (implementation registration) _); [|discriminate].
  intros [= <- <-]. cbn. lia.
Qed.

Lemma unstored_get (fuel : nat) :
  forall t r, non_singletons_unstored r -> ends_in non_singletons_unstored (get fuel t r).
Proof.
  induction fuel as [|fuel IH]; intros t r Hr; [exact I|].
  rewrite get_S. destruct (lookup_service t (services r)) as [reg|] eqn:Hreg; [|exact Hr].
  assert (Hcreate : ends_in non_singletons_unstored
            ((i <- createInstance (get fuel) reg ;;
              (if singleton reg
               then modify (with_services (update_service t (set_instance (Some i))))
               else ret tt) ;;;
              ret i) r)).
  { pose proof (frame_createInstance
                  (fun r r' => non_singletons_unstored r -> non_singletons_unstored r')
                  (fun _ H => H) (fun _ _ _ H12 H23 H => H23 (H12 H))
                  (fun e r0 H => H) (fun r0 H => H)
                  (get fuel) reg) as Hframe.
    specialize (Hframe (fun t0 r0 => ltac:(
      pose proof (IH t0 r0) as H0; destruct (get fuel t0 r0); simpl in *; auto)) r).
    pose proof (kept_createInstance (get fuel) reg (kept_get fuel) r) as Hkept.
    unfold bind at 1.
    destruct (createInstance (get fuel) reg r) as [i r1|e r1|] eqn:Hc;
      simpl in Hframe, Hkept; [|exact (Hframe Hr)|exact I].
    specialize (Hframe Hr). unfold bind, modify, ret.
    destruct (singleton reg) eqn:Hsing; [|exact Hframe]. cbn [ends_in].
    intros t' reg' Hreg' Hns. cbn [with_services services] in Hreg'.
    rewrite lookup_update_service in Hreg'.
    destruct (String.eqb_spec t t') as [<- | Hne]; [|exact (Hframe t' reg' Hreg' Hns)].
    exfalso. specialize (Hkept t). rewrite Hreg in Hkept.
    destruct (lookup_service t (services r1)) as [reg1|]; [|discriminate].
    cbn [fmap option_fmap option_map] in Hkept, Hreg'.
    apply (inj Some) in Hkept. injection Hreg' as <-.
    assert (Hs : singleton (set_instance None reg1) = singleton (set_instance None reg))
      by (rewrite Hkept; reflexivity).
    cbn in Hs, Hns. congruence. }
  destruct (singleton reg); [|exact Hcreate].
  destruct (instance reg); [exact Hr | exact Hcreate].
Qed.

(** [get] of a service registered with [singleton: false] constructs a new
    object on every call and never stores it: the object returned did not
    exist before the call, so two calls return different objects, and the
    registration still has no instance. *)
Theorem non_singletons_are_constructed_anew (fuel : nat) (t : string) (r r' : Registry)
    (registration : ServiceRegistration) (i : Instance) :
  lookup_service t (services r) = Some registration ->
  singleton registration = false ->
  non_singletons_unstored r ->
  get fuel t r = Returned i r' ->
  (allocated r <= inst_id i < allocated r')
  /\ non_singletons_unstored r'
  /\ (exists registration',
         lookup_service t (services r') = Some registration'
         /\ instance registration' = None /\ singleton registration' = false)
  /\ (forall fuel' i' r'', get fuel' t r' = Returned i' r'' -> inst_id i < inst_id i').
Proof.
  intros Hreg Hsing Hun Hget.
  pose proof (unstored_get fuel t r Hun) as Hun'. rewrite Hget in Hun'. cbn [ends_in] in Hun'.
  pose proof (kept_get fuel t r) as Hkept. rewrite Hget in Hkept. cbn [ends_in] in Hkept.
  assert (Hreg' : exists registration',
             lookup_service t (services r') = Some registration'
             /\ instance registration' = None /\ singleton registration' = false).
  { specialize (Hkept t). rewrite Hreg in Hkept.
    destruct (lookup_service t (services r')) as [reg'|] eqn:E; [|discriminate].
    cbn [fmap option_fmap option_map] in Hkept. apply (inj Some) in Hkept.
    assert (Hs : singleton reg' = false).
    { change (singleton (set_instance None reg') = false). rewrite Hkept. exact Hsing. }
    exists reg'. split; [reflexivity|]. split; [exact (Hun' t reg' E Hs) | exact Hs]. }
  assert (Hfresh : forall fuel0 r0 reg0 i0 r1,
             lookup_service t (services r0) = Some reg0 -> singleton reg0 = false ->
             get fuel0 t r0 = Returned i0 r1 -> allocated r0 <= inst_id i0 < allocated r1).
  { intros fuel0 r0 reg0 i0 r1 Hreg0 Hs0. destruct fuel0 as [|fuel0]; [discriminate|].
    rewrite get_S, Hreg0, Hs0. unfold bind at 1.
    destruct (createInstance (get fuel0) reg0 r0) as [i1 r2|e r2|] eqn:Hc; try discriminate.
    unfold bind, ret. intros [= <- <-]. exact (createInstance_fresh fuel0 reg0 r0 r2 i1 Hc). }
  split; [exact (Hfresh fuel r registration i r' Hreg Hsing Hget)|].
  split; [exact Hun'|]. split; [exact Hreg'|].
  intros fuel' i' r'' Hget'. destruct Hreg' as (reg' & E & _ & Hs).
  pose proof (Hfresh fuel r registration i r' Hreg Hsing Hget).
  pose proof (Hfresh fuel' r' reg' i' r'' E Hs Hget'). lia.
Qed.

(** A service registered with [singleton: false] and resolved twice. *)
Lemma non_singletons_are_constructed_anew_witness :
  let r := after (register "MAILER" (sound "Mailer") (mkOptions None None (Some false)) 0)
                 empty in
  let registration := mkRegistration "MAILER" (sound "Mailer") None (Some []) (Some [])
                                     false 0 None in
  let i := mkInstance 0 (sound "Mailer") in
  let r' := after (get 1 "MAILER") r in
  (allocated r <= inst_id i < allocated r')
  /\ non_singletons_unstored r'
  /\ (exists registration',
         lookup_service "MAILER" (services r') = Some registration'
         /\ instance registration' = None /\ singleton registration' = false)
  /\ (forall fuel' i' r'', get fuel' "MAILER" r' = Returned i' r'' -> inst_id i < inst_id i').
Proof.
  intros r registration i r'.
  refine (non_singletons_are_constructed_anew 1 "MAILER" r r' registration i _ _ _ _).
  - reflexivity.
  - reflexivity.
  - intros t reg. subst r.
    match goal with |- context [services ?x] =>
      let s := eval vm_compute in (services x) in change (services x) with s end.
    cbn [lookup_service].
    destruct (String.eqb "MAILER" t); [|intros H; discriminate H].
    intros [= <-] _. reflexivity.
  - vm_compute. reflexivity.
Defined.

End MoreRegistryProperties.
